(** * Modbus/TCP slave simulator: register model, codec and generators

    A shallow embedding of [modbus_simulator_final.py] (class
    [ModbusTCPSimulator]) and of the simulator-facing part of
    [modbus_gui.py] (class [ExtendedModbusTCPSimulator], the generator
    factories and the start/stop sequence), with the properties of the
    specification stated over it.

    Conventions.
    - Python values are the inductive [pyval]; a [float] is an IEEE-754
      binary64 datum ([spec_float]); a [str] is its list of code points.
    - A Python exception is a value of [exn]; a computation that may raise
      returns a [res].
    - Timestamps and intervals (seconds) are exact rationals.
    - A [dict] is an association list in insertion order, as Python
      iterates it. *)

From Stdlib Require Import ZArith QArith Qround Bool String Ascii List Lia.
From Stdlib Require Import SpecFloat DecimalString.
From Stdlib Require Strings.Byte.
Import ListNotations.

Local Open Scope Z_scope.

#[local] Set Warnings "-register-all".

(** ** Exceptions and results *)

Inductive exn : Set :=
| ValueError
| TypeError
| OverflowError
| ZeroDivisionError
| IndexError
| KeyError
| StructError.

Inductive res (A : Type) : Type :=
| Ok (a : A)
| Raise (e : exn).

Arguments Ok {A} a.
Arguments Raise {A} e.

Definition res_bind {A B} (r : res A) (k : A -> res B) : res B :=
  match r with
  | Ok a => k a
  | Raise e => Raise e
  end.

Definition res_map {A B} (f : A -> B) (r : res A) : res B :=
  res_bind r (fun a => Ok (f a)).

(** [try: r except Exception: h] *)
Definition try_except {A} (r : res A) (h : res A) : res A :=
  match r with
  | Ok a => Ok a
  | Raise _ => h
  end.

(** ** Python values *)

Definition float := spec_float.
Definition pystr := list Z.

Inductive pyval : Type :=
| VNone
| VBool (b : bool)
| VInt (z : Z)
| VFloat (f : float)
| VStr (s : pystr)
| VList (l : list pyval)
| VFunc (id : nat).

Definition codes (s : string) : pystr :=
  map (fun a => Z.of_N (N_of_ascii a)) (list_ascii_of_string s).

(** *** binary64 and binary32 *)

Definition prec64 := 53.
Definition emax64 := 1024.
Definition prec32 := 24.
Definition emax32 := 128.

(** The bit pattern of a float in the format [(prec, emax)]; a NaN is the
    quiet NaN that [float('nan')] denotes. *)
Definition float_bits (prec emax : Z) (f : float) : Z :=
  let ebits := Z.log2 emax + 1 in
  let sign (s : bool) := if s then Z.shiftl 1 (prec - 1 + ebits) else 0 in
  let top := Z.shiftl (2 * emax - 1) (prec - 1) in
  match f with
  | S754_zero s => sign s
  | S754_infinity s => Z.lor (sign s) top
  | S754_nan => Z.lor top (Z.shiftl 1 (prec - 2))
  | S754_finite s m e =>
      if Zpos (digits2_pos m) =? prec
      then Z.lor (sign s)
             (Z.lor (Z.shiftl (e + prec - 1 + (emax - 1)) (prec - 1))
                    (Zpos m - Z.shiftl 1 (prec - 1)))
      else Z.lor (sign s) (Zpos m)
  end.

(** [(float)x] of C, as [struct.pack('>f', x)] performs it. *)
Definition to_binary32 (f : float) : float :=
  match f with
  | S754_finite s m e => binary_round prec32 emax32 s m e
  | _ => f
  end.

Definition float_of_Z (z : Z) : float :=
  binary_normalize prec64 emax64 z 0 false.

Definition float_is_zero (f : float) : bool :=
  match f with
  | S754_zero _ => true
  | _ => false
  end.

(** *** Text conversions

    The three conversions between text and numbers ([int(str)],
    [float(str)], and the [repr] of a float, list or function, which
    [str()] returns) are Python's own; the development is parametric in
    them. [None] stands for the [ValueError] of an unreadable literal. *)

Class PyText : Type := {
  int_of_str : pystr -> option Z;
  float_of_str : pystr -> option float;
  repr : pyval -> pystr
}.

Section Builtins.
Context {T : PyText}.

(** [int(v)] *)
Definition py_int (v : pyval) : res Z :=
  match v with
  | VNone => Raise TypeError
  | VBool b => Ok (if b then 1 else 0)
  | VInt z => Ok z
  | VFloat (S754_zero _) => Ok 0
  | VFloat (S754_infinity _) => Raise OverflowError
  | VFloat S754_nan => Raise ValueError
  | VFloat (S754_finite s m e) =>
      let a := if 0 <=? e then Z.shiftl (Zpos m) e else Z.shiftr (Zpos m) (- e) in
      Ok (if s then - a else a)
  | VStr s => match int_of_str s with Some z => Ok z | None => Raise ValueError end
  | VList _ => Raise TypeError
  | VFunc _ => Raise TypeError
  end.

(** [float(v)] *)
Definition py_float (v : pyval) : res float :=
  match v with
  | VNone => Raise TypeError
  | VBool b => Ok (float_of_Z (if b then 1 else 0))
  | VInt z =>
      match float_of_Z z with
      | S754_infinity _ => Raise OverflowError
      | f => Ok f
      end
  | VFloat f => Ok f
  | VStr s => match float_of_str s with Some f => Ok f | None => Raise ValueError end
  | VList _ => Raise TypeError
  | VFunc _ => Raise TypeError
  end.

(** [bool(v)] *)
Definition py_bool (v : pyval) : bool :=
  match v with
  | VNone => false
  | VBool b => b
  | VInt z => negb (z =? 0)
  | VFloat f => negb (float_is_zero f)
  | VStr s => match s with [] => false | _ => true end
  | VList l => match l with [] => false | _ => true end
  | VFunc _ => true
  end.

(** [str(v)] *)
Definition py_str (v : pyval) : pystr :=
  match v with
  | VNone => codes "None"
  | VBool b => codes (if b then "True" else "False")
  | VInt z => codes (NilZero.string_of_int (Z.to_int z))
  | VStr s => s
  | _ => repr v
  end.

(** [isinstance(v, (int, float))]; a [bool] is an [int]. *)
Definition is_number (v : pyval) : bool :=
  match v with
  | VBool _ | VInt _ | VFloat _ => true
  | _ => false
  end.

(** [callable(v)] *)
Definition callable (v : pyval) : bool :=
  match v with
  | VFunc _ => true
  | _ => false
  end.

(** ** TypePacker *)

Inductive dtype : Set :=
| int16 | uint16 | int32 | uint32 | float32 | float64 | bool_t | string_t
| other_t.

Definition is_conversion_error (e : exn) : bool :=
  match e with
  | ValueError | TypeError => true
  | _ => false
  end.

(** [convert_to_data_type]: only [ValueError] and [TypeError] are turned
    into the integer 0. *)
Definition convert_to_data_type (value : pyval) (data_type : dtype) : res pyval :=
  let r :=
    match data_type with
    | int16 => res_map (fun z => VInt (Z.land z 0xFFFF)) (py_int value)
    | uint16 => res_map (fun z => VInt (Z.land z 0xFFFF)) (py_int value)
    | int32 => res_map VInt (py_int value)
    | uint32 => res_map (fun z => VInt (Z.land z 0xFFFFFFFF)) (py_int value)
    | float32 => res_map VFloat (py_float value)
    | float64 => res_map VFloat (py_float value)
    | bool_t => Ok (VBool (py_bool value))
    | string_t => Ok (VStr (py_str value))
    | other_t => res_map (fun z => VInt (Z.land z 0xFFFF)) (py_int value)
    end in
  match r with
  | Ok v => Ok v
  | Raise e => if is_conversion_error e then Ok (VInt 0) else Raise e
  end.

(** The 16-bit words of a [w]-word big-endian pattern. *)
Fixpoint words_of (w : nat) (bits : Z) : list Z :=
  match w with
  | O => []
  | S w' => Z.land (Z.shiftr bits (16 * Z.of_nat w')) 0xFFFF :: words_of w' bits
  end.

(** [struct.pack('>f', x)] read back as two words. *)
Definition pack_f32 (f : float) : res (list Z) :=
  match f, to_binary32 f with
  | S754_finite _ _ _, S754_infinity _ => Raise OverflowError
  | _, g => Ok (words_of 2 (float_bits prec32 emax32 g))
  end.

(** [struct.pack('>d', x)] read back as four words. *)
Definition pack_f64 (f : float) : list Z :=
  words_of 4 (float_bits prec64 emax64 f).

Definition pack_value_to_registers (value : pyval) (data_type : dtype) : list Z :=
  let r :=
    match data_type with
    | int16 => res_map (fun z => [Z.land z 0xFFFF]) (py_int value)
    | uint16 => res_map (fun z => [Z.land z 0xFFFF]) (py_int value)
    | int32 =>
        res_map (fun int_val =>
                   [Z.land (Z.shiftr int_val 16) 0xFFFF; Z.land int_val 0xFFFF])
                (py_int value)
    | uint32 =>
        res_map (fun z =>
                   let uint_val := Z.land z 0xFFFFFFFF in
                   [Z.land (Z.shiftr uint_val 16) 0xFFFF; Z.land uint_val 0xFFFF])
                (py_int value)
    | float32 => res_bind (py_float value) pack_f32
    | float64 => res_map pack_f64 (py_float value)
    | bool_t => Ok [if py_bool value then 1 else 0]
    | string_t =>
        Ok (map (fun c => Z.land c 0xFFFF) (firstn 125 (py_str value)))
    | other_t => res_map (fun z => [Z.land z 0xFFFF]) (py_int value)
    end in
  match r with
  | Ok regs => regs
  | Raise _ => [0]
  end.

(** The width is measured on the sample value 0. *)
Definition get_register_count (data_type : dtype) : Z :=
  Z.of_nat (length (pack_value_to_registers (VInt 0) data_type)).

End Builtins.

(** ** Bytes, slices and [struct] *)

Definition byte := Init.Byte.byte.

Definition byte_val (b : byte) : Z := Z.of_N (Byte.to_N b).

Definition byte_of_Z (v : Z) : option byte :=
  if (0 <=? v) && (v <? 256) then Byte.of_N (Z.to_N v) else None.

Definition len {A} (l : list A) : Z := Z.of_nat (length l).

(** Python's normalisation of a slice bound against a length. *)
Definition slice_bound (n i : Z) : Z :=
  if i <? 0 then Z.max 0 (n + i) else Z.min i n.

(** [l[a:b]] *)
Definition py_slice {A} (l : list A) (a b : Z) : list A :=
  let a' := slice_bound (len l) a in
  let b' := slice_bound (len l) b in
  firstn (Z.to_nat (b' - a')) (skipn (Z.to_nat a') l).

(** [l[a:]] *)
Definition py_slice_from {A} (l : list A) (a : Z) : list A :=
  skipn (Z.to_nat (slice_bound (len l) a)) l.

(** [l[a:b] = r] *)
Definition py_slice_assign {A} (l : list A) (a b : Z) (r : list A) : list A :=
  let a' := slice_bound (len l) a in
  let b' := Z.max a' (slice_bound (len l) b) in
  firstn (Z.to_nat a') l ++ r ++ skipn (Z.to_nat b') l.

(** [l[i] = x] for an index inside the list. *)
Fixpoint list_set {A} (l : list A) (i : nat) (x : A) : list A :=
  match l, i with
  | [], _ => []
  | _ :: t, O => x :: t
  | h :: t, S i' => h :: list_set t i' x
  end.

(** [struct.pack('>B', v)] *)
Definition pack_B (v : Z) : res (list byte) :=
  match byte_of_Z v with
  | Some b => Ok [b]
  | None => Raise StructError
  end.

(** [struct.pack('>H', v)] *)
Definition pack_H (v : Z) : res (list byte) :=
  if (0 <=? v) && (v <? 65536) then
    match byte_of_Z (v / 256), byte_of_Z (v mod 256) with
    | Some hi, Some lo => Ok [hi; lo]
    | _, _ => Raise StructError
    end
  else Raise StructError.

Definition pack_cat (a b : res (list byte)) : res (list byte) :=
  res_bind a (fun x => res_bind b (fun y => Ok (x ++ y))).

Infix "+++" := pack_cat (at level 60, right associativity).

(** [struct.pack('>HHHB', a, b, c, d)] *)
Definition pack_HHHB (a b c d : Z) : res (list byte) :=
  pack_H a +++ pack_H b +++ pack_H c +++ pack_B d.

(** [struct.pack('>HHHBB', a, b, c, d, e)] *)
Definition pack_HHHBB (a b c d e : Z) : res (list byte) :=
  pack_H a +++ pack_H b +++ pack_H c +++ pack_B d +++ pack_B e.

Definition word_of (hi lo : byte) : Z := 256 * byte_val hi + byte_val lo.

(** [struct.unpack('>HHHB', buf)] *)
Definition unpack_HHHB (buf : list byte) : res (Z * Z * Z * Z) :=
  match buf with
  | [a1; a0; b1; b0; c1; c0; d] =>
      Ok (word_of a1 a0, word_of b1 b0, word_of c1 c0, byte_val d)
  | _ => Raise StructError
  end.

(** [struct.unpack('>B', buf)[0]] *)
Definition unpack_B (buf : list byte) : res Z :=
  match buf with
  | [b] => Ok (byte_val b)
  | _ => Raise StructError
  end.

(** [struct.unpack('>HH', buf)] *)
Definition unpack_HH (buf : list byte) : res (Z * Z) :=
  match buf with
  | [a1; a0; b1; b0] => Ok (word_of a1 a0, word_of b1 b0)
  | _ => Raise StructError
  end.

(** ** Codec *)

Record request : Type := {
  transaction_id : Z;
  unit_id : Z;
  function_code : Z;
  data : list byte
}.

Section Codec.
Context {T : PyText}.

(** One byte of a bit response: [data[8i .. 8i+7]], least significant
    bit first. *)
Definition coil_byte (data : list pyval) (i : nat) : Z :=
  fold_left
    (fun byte_val bit =>
       match nth_error data (i * 8 + bit) with
       | Some v => if py_bool v then Z.lor byte_val (Z.shiftl 1 (Z.of_nat bit)) else byte_val
       | None => byte_val
       end)
    (seq 0 8) 0.

Fixpoint pack_all (p : Z -> res (list byte)) (vs : list Z) : res (list byte) :=
  match vs with
  | [] => Ok []
  | v :: vs' => p v +++ pack_all p vs'
  end.

Fixpoint int_all (vs : list pyval) : res (list Z) :=
  match vs with
  | [] => Ok []
  | v :: vs' =>
      res_bind (py_int v) (fun z =>
      res_bind (int_all vs') (fun zs => Ok (Z.land z 0xFFFF :: zs)))
  end.

(** The body of a response, with the function code to send. *)
Definition response_body (function_code : Z) (data : list pyval) : res (Z * list byte) :=
  if (function_code =? 1) || (function_code =? 2) then
    let byte_count := (len data + 7) / 8 in
    res_map (pair function_code)
      (pack_B byte_count
       +++ pack_all pack_B (map (coil_byte data) (seq 0 (Z.to_nat byte_count))))
  else if (function_code =? 3) || (function_code =? 4) then
    res_bind (int_all data) (fun register_data =>
    let byte_count := len register_data * 2 in
    res_map (pair function_code)
      (pack_B byte_count +++ pack_all pack_H register_data))
  else
    res_map (pair (Z.lor function_code 0x80)) (pack_B 0x01).

(** MBAP header, function code and body. *)
Definition mbap_frame (transaction_id unit_id function_code : Z)
    (response_body : list byte) : res (list byte) :=
  let length := 1 + 1 + len response_body in
  pack_HHHB transaction_id 0 length unit_id
  +++ pack_B function_code
  +++ Ok response_body.

Definition exception_frame (transaction_id unit_id function_code code : Z)
    : res (list byte) :=
  pack_HHHBB transaction_id 0 3 unit_id (Z.lor function_code 0x80) +++ pack_B code.

Definition create_modbus_response (transaction_id unit_id function_code : Z)
    (data : list pyval) : res (list byte) :=
  match response_body function_code data with
  | Ok (function_code', body) =>
      try_except (mbap_frame transaction_id unit_id function_code' body)
                 (exception_frame transaction_id unit_id function_code' 0x04)
  | Raise _ => exception_frame transaction_id unit_id function_code 0x04
  end.

End Codec.

Definition parse_modbus_request (data : list byte) : option request :=
  if len data <? 8 then None
  else
    let r :=
      res_bind (unpack_HHHB (py_slice data 0 7)) (fun '(transaction_id, protocol_id, length, unit_id) =>
      res_bind (unpack_B (py_slice data 7 8)) (fun function_code =>
      let request_data := py_slice data 8 (8 + length - 2) in
      Ok {| transaction_id := transaction_id;
            unit_id := unit_id;
            function_code := function_code;
            data := request_data |})) in
    match r with
    | Ok request => Some request
    | Raise _ => None
    end.

(** ** Comparison of Python values ([<], [==], [min], [max]) *)

(** A number on the extended rational line. *)
Inductive ext : Type :=
| ENan
| EInf (neg : bool)
| EFin (q : Q).

Definition ext_of (v : pyval) : option ext :=
  match v with
  | VBool b => Some (EFin (inject_Z (if b then 1 else 0)))
  | VInt z => Some (EFin (inject_Z z))
  | VFloat (S754_zero _) => Some (EFin 0%Q)
  | VFloat (S754_infinity s) => Some (EInf s)
  | VFloat S754_nan => Some ENan
  | VFloat (S754_finite s m e) =>
      let a := if 0 <=? e then inject_Z (Z.shiftl (Zpos m) e)
               else Qmake (Zpos m) (Z.to_pos (Z.shiftl 1 (- e))) in
      Some (EFin (if s then Qopp a else a))
  | _ => None
  end.

Definition ext_lt (a b : ext) : bool :=
  match a, b with
  | ENan, _ | _, ENan => false
  | EInf true, EInf true => false
  | EInf true, _ => true
  | _, EInf true => false
  | EInf false, _ => false
  | _, EInf false => true
  | EFin p, EFin q => match Qcompare p q with Lt => true | _ => false end
  end.

Definition ext_eq (a b : ext) : bool :=
  match a, b with
  | EInf s, EInf s' => Bool.eqb s s'
  | EFin p, EFin q => Qeq_bool p q
  | _, _ => false
  end.

Fixpoint str_lt (s t : pystr) : bool :=
  match s, t with
  | _, [] => false
  | [], _ :: _ => true
  | c :: s', d :: t' => (c <? d) || ((c =? d) && str_lt s' t')
  end.

Fixpoint str_eq (s t : pystr) : bool :=
  match s, t with
  | [], [] => true
  | c :: s', d :: t' => (c =? d) && str_eq s' t'
  | _, _ => false
  end.

(** [a == b] *)
Fixpoint py_eq (a b : pyval) : bool :=
  match a, b with
  | VNone, VNone => true
  | VStr s, VStr t => str_eq s t
  | VFunc i, VFunc j => Nat.eqb i j
  | VList xs, VList ys =>
      (fix all_eq (xs ys : list pyval) : bool :=
         match xs, ys with
         | [], [] => true
         | x :: xs', y :: ys' => py_eq x y && all_eq xs' ys'
         | _, _ => false
         end) xs ys
  | _, _ =>
      match ext_of a, ext_of b with
      | Some p, Some q => ext_eq p q
      | _, _ => false
      end
  end.

(** [a < b] *)
Fixpoint py_lt (a b : pyval) : res bool :=
  match a, b with
  | VStr s, VStr t => Ok (str_lt s t)
  | VList xs, VList ys =>
      (fix first_lt (xs ys : list pyval) : res bool :=
         match xs, ys with
         | [], [] => Ok false
         | [], _ :: _ => Ok true
         | _ :: _, [] => Ok false
         | x :: xs', y :: ys' => if py_eq x y then first_lt xs' ys' else py_lt x y
         end) xs ys
  | _, _ =>
      match ext_of a, ext_of b with
      | Some p, Some q => Ok (ext_lt p q)
      | _, _ => Raise TypeError
      end
  end.

(** [min(a, b)] and [max(a, b)] *)
Definition py_min (a b : pyval) : res pyval :=
  res_map (fun lt => if lt : bool then b else a) (py_lt b a).

Definition py_max (a b : pyval) : res pyval :=
  res_map (fun lt => if lt : bool then b else a) (py_lt a b).

(** [v[i]] for a literal index. *)
Definition py_index (v : pyval) (i : nat) : res pyval :=
  match v with
  | VList l => match nth_error l i with Some x => Ok x | None => Raise IndexError end
  | VStr s => match nth_error s i with Some c => Ok (VStr [c]) | None => Raise IndexError end
  | _ => Raise TypeError
  end.

(** [needle in haystack] for two strings. *)
Fixpoint is_prefix (p s : pystr) : bool :=
  match p, s with
  | [], _ => true
  | c :: p', d :: s' => (c =? d) && is_prefix p' s'
  | _ :: _, [] => false
  end.

Fixpoint str_contains (needle haystack : pystr) : bool :=
  is_prefix needle haystack ||
  match haystack with
  | [] => false
  | _ :: tl => str_contains needle tl
  end.

(** ** Function objects

    A function object has an identity (its index in the heap), a
    signature, a body and closure cells. The cells modelled are those
    holding Python lists, the mutable state of a generator; other captured
    values are part of [body]. A call receives the clock and a random
    draw. *)

Record env : Type := { clock : Q; entropy : Z }.

Record func : Type := {
  signature : res nat;
  body : list pyval -> env -> list pyval -> res pyval * list pyval;
  cells : list pyval
}.

(** ** The simulator object *)

Definition dict (A : Type) : Type := list (Z * A).

Fixpoint dict_get {A} (d : dict A) (k : Z) : option A :=
  match d with
  | [] => None
  | (k', v) :: d' => if k' =? k then Some v else dict_get d' k
  end.

(** [d[k] = v]: an existing key keeps its position. *)
Fixpoint dict_set {A} (d : dict A) (k : Z) (v : A) : dict A :=
  match d with
  | [] => [(k, v)]
  | (k', v') :: d' => if k' =? k then (k, v) :: d' else (k', v') :: dict_set d' k v
  end.

Definition dict_mem {A} (d : dict A) (k : Z) : bool :=
  match dict_get d k with Some _ => true | None => false end.

Definition keys {A} (d : dict A) : list Z := map fst d.

Record config : Type := {
  value : pyval;
  interval : Q;
  last_update : Q;
  data_range : pyval;
  data_type : dtype;
  current_value : option pyval;
  description : option pystr;
  is_bit_config : bool
}.

Definition with_last_update (c : config) (t : Q) : config :=
  {| value := value c; interval := interval c; last_update := t;
     data_range := data_range c; data_type := data_type c;
     current_value := current_value c; description := description c;
     is_bit_config := is_bit_config c |}.

Definition with_current_value (c : config) (v : pyval) : config :=
  {| value := value c; interval := interval c; last_update := last_update c;
     data_range := data_range c; data_type := data_type c;
     current_value := Some v; description := description c;
     is_bit_config := is_bit_config c |}.

Inductive space : Set :=
| coils | discrete_inputs | holding_registers | input_registers.

Definition space_eqb (a b : space) : bool :=
  match a, b with
  | coils, coils | discrete_inputs, discrete_inputs
  | holding_registers, holding_registers
  | input_registers, input_registers => true
  | _, _ => false
  end.

Definition space_of_name (address_type : string) : option space :=
  if String.eqb address_type "coils" then Some coils
  else if String.eqb address_type "discrete_inputs" then Some discrete_inputs
  else if String.eqb address_type "holding_registers" then Some holding_registers
  else if String.eqb address_type "input_registers" then Some input_registers
  else None.

(** The keys of [self.bit_config]. *)
Definition has_bits (sp : space) : bool :=
  match sp with
  | holding_registers | input_registers => true
  | _ => false
  end.

Inductive simclass : Set :=
| ModbusTCPSimulator
| ExtendedModbusTCPSimulator.

(** [self.original_data_config]: empty, a deep copy, or (after a reset)
    the very object [self.data_config]. *)
Inductive snapshot : Type :=
| NoSnapshot
| Copy (d : space -> dict config)
| SameObject.

Record simulator : Type := {
  class : simclass;
  data_config : space -> dict config;
  bit_config : space -> dict (dict config);
  original_data_config : snapshot;
  heap : list func;
  calls : list nat;
  rng : nat -> Z
}.

Definition with_data_config (s : simulator) (d : space -> dict config) : simulator :=
  {| class := class s; data_config := d; bit_config := bit_config s;
     original_data_config := original_data_config s;
     heap := heap s; calls := calls s; rng := rng s |}.

Definition with_bit_config (s : simulator) (b : space -> dict (dict config)) : simulator :=
  {| class := class s; data_config := data_config s; bit_config := b;
     original_data_config := original_data_config s;
     heap := heap s; calls := calls s; rng := rng s |}.

Definition with_original (s : simulator) (o : snapshot) : simulator :=
  {| class := class s; data_config := data_config s; bit_config := bit_config s;
     original_data_config := o;
     heap := heap s; calls := calls s; rng := rng s |}.

Definition with_heap (s : simulator) (h : list func) (c : list nat) : simulator :=
  {| class := class s; data_config := data_config s; bit_config := bit_config s;
     original_data_config := original_data_config s;
     heap := h; calls := c; rng := rng s |}.

Definition upd {A} (f : space -> A) (sp : space) (a : A) : space -> A :=
  fun sp' => if space_eqb sp sp' then a else f sp'.

(** Where a configuration dict lives: a register entry, or one bit of an
    overlay. *)
Inductive loc : Set :=
| DataLoc (sp : space) (address : Z)
| BitLoc (sp : space) (address : Z) (bit : Z).

Definition load (l : loc) (s : simulator) : option config :=
  match l with
  | DataLoc sp address => dict_get (data_config s sp) address
  | BitLoc sp address bit =>
      match dict_get (bit_config s sp) address with
      | Some bits => dict_get bits bit
      | None => None
      end
  end.

Definition store (l : loc) (c : config) (s : simulator) : simulator :=
  match l with
  | DataLoc sp address =>
      with_data_config s (upd (data_config s) sp (dict_set (data_config s sp) address c))
  | BitLoc sp address bit =>
      let bits := match dict_get (bit_config s sp) address with
                  | Some bits => bits
                  | None => []
                  end in
      with_bit_config s
        (upd (bit_config s) sp (dict_set (bit_config s sp) address (dict_set bits bit c)))
  end.

(** ** Stateful computations: a result and the simulator as it was left,
    also when an exception is raised. *)

Definition M (A : Type) : Type := simulator -> res A * simulator.

Definition ret {A} (a : A) : M A := fun s => (Ok a, s).

Definition raise {A} (e : exn) : M A := fun s => (Raise e, s).

Definition bind {A B} (m : M A) (k : A -> M B) : M B :=
  fun s =>
    match m s with
    | (Ok a, s') => k a s'
    | (Raise e, s') => (Raise e, s')
    end.

Definition lift {A} (r : res A) : M A := fun s => (r, s).

Definition try_M {A} (m : M A) (h : M A) : M A :=
  fun s =>
    match m s with
    | (Ok a, s') => (Ok a, s')
    | (Raise _, s') => h s'
    end.

Notation "x <- m ;; k" := (bind m (fun x => k))
  (at level 61, m at next level, right associativity).
Notation "m ;;; k" := (bind m (fun _ => k))
  (at level 61, right associativity).

Fixpoint for_each {A} (xs : list A) (f : A -> M unit) : M unit :=
  match xs with
  | [] => ret tt
  | x :: xs' => f x ;;; for_each xs' f
  end.

(** A loop that threads an accumulator (a local variable of the source). *)
Fixpoint fold_M {A B} (xs : list A) (f : B -> A -> M B) (b : B) : M B :=
  match xs with
  | [] => ret b
  | x :: xs' => b' <- f b x ;; fold_M xs' f b'
  end.

(** ** Generator engine *)

Section Simulator.
Context {T : PyText}.

(** A call of the function object [id] on [args]: the call is logged in
    [calls], and the closure cells are left as the body left them. *)
Definition call (id : nat) (args : list pyval) (current_time : Q) : M pyval :=
  fun s =>
    match nth_error (heap s) id with
    | None => (Raise TypeError, s)
    | Some f =>
        let e := {| clock := current_time; entropy := rng s (length (calls s)) |} in
        let '(r, cells') := body f args e (cells f) in
        (r, with_heap s
              (list_set (heap s) id
                 {| signature := signature f; body := body f; cells := cells' |})
              (calls s ++ [id]))
    end.

(** [len(inspect.signature(f).parameters)] *)
Definition param_count (id : nat) : M nat :=
  fun s =>
    match nth_error (heap s) id with
    | None => (Raise TypeError, s)
    | Some f => (signature f, s)
    end.

(** [f.__closure__] contents *)
Definition closure (id : nat) : M (list pyval) :=
  fun s =>
    match nth_error (heap s) id with
    | None => (Raise TypeError, s)
    | Some f => (Ok (cells f), s)
    end.

(** The [try] block of [ModbusTCPSimulator.generate_data] up to the call. *)
Definition produce (id : nat) (config : config) (current_time : Q) : M pyval :=
  n <- param_count id ;;
  if py_bool (data_range config) then
    if Nat.eqb n 2 then
      lo <- lift (py_index (data_range config) 0) ;;
      hi <- lift (py_index (data_range config) 1) ;;
      call id [lo; hi] current_time
    else if Nat.eqb n 1 then call id [data_range config] current_time
    else call id [] current_time
  else call id [] current_time.

Definition generate_value (config : config) (current_time : Q) : M pyval :=
  match value config with
  | VFunc id =>
      try_M (raw_value <- produce id config current_time ;;
             lift (convert_to_data_type raw_value (data_type config)))
            (lift (convert_to_data_type (VInt 0) (data_type config)))
  | value => lift (convert_to_data_type value (data_type config))
  end.

(** [ModbusTCPSimulator.generate_data]: the branch for bit entries
    repeats the general one. *)
Definition generate_data_base (config : config) (current_time : Q) : M pyval :=
  if is_bit_config config then generate_value config current_time
  else generate_value config current_time.

(** The text "随机递增计数". *)
Definition random_increment_mark : pystr :=
  [38543; 26426; 36882; 22686; 35745; 25968].

(** A closure cell holding a one-element list of an [int]. *)
Definition is_counter_cell (var : pyval) : bool :=
  match var with
  | VList [VInt _] | VList [VBool _] => true
  | _ => false
  end.

Definition long_list (v : pyval) : bool :=
  match v with
  | VList l => 2 <? len l
  | _ => false
  end.

(** [result < lo or result > hi] on [data_range] *)
Definition out_of_range (result range : pyval) : res bool :=
  res_bind (py_index range 0) (fun lo =>
  res_bind (py_lt result lo) (fun below =>
  if below : bool then Ok true
  else res_bind (py_index range 1) (fun hi => py_lt hi result))).

(** [max(range[0], min(range[1], result))] *)
Definition clamp_to_range (result range : pyval) : res pyval :=
  res_bind (py_index range 0) (fun lo =>
  res_bind (py_index range 1) (fun hi =>
  res_bind (py_min hi result) (fun m => py_max lo m))).

(** [ExtendedModbusTCPSimulator.generate_data] *)
Definition generate_data_extended (config : config) (current_time : Q) : M pyval :=
  let data_type := data_type config in
  match value config with
  | VFunc id =>
      try_M
        (n <- param_count id ;;
         if py_bool (data_range config) then
           if long_list (data_range config) then
             result <- call id [] current_time ;;
             lift (convert_to_data_type result data_type)
           else if Nat.eqb n 2 then
             lo <- lift (py_index (data_range config) 0) ;;
             hi <- lift (py_index (data_range config) 1) ;;
             result <- call id [lo; hi] current_time ;;
             lift (convert_to_data_type result data_type)
           else if Nat.eqb n 1 then
             result <- call id [data_range config] current_time ;;
             lift (convert_to_data_type result data_type)
           else
             result <- call id [] current_time ;;
             out <- lift (out_of_range result (data_range config)) ;;
             result <-
               (if out : bool then
                  let description :=
                    match description config with Some d => d | None => [] end in
                  cells <- closure id ;;
                  let is_random_increment := existsb is_counter_cell cells in
                  if str_contains random_increment_mark description
                     || is_random_increment
                  then ret result
                  else lift (clamp_to_range result (data_range config))
                else ret result) ;;
             lift (convert_to_data_type result data_type)
         else
           result <- call id [] current_time ;;
           lift (convert_to_data_type result data_type))
        (lift (convert_to_data_type (VInt 0) data_type))
  | value => lift (convert_to_data_type value data_type)
  end.

(** [self.generate_data], by the class of the object. *)
Definition generate_data (config : config) (current_time : Q) : M pyval :=
  fun s =>
    match class s with
    | ModbusTCPSimulator => generate_data_base config current_time s
    | ExtendedModbusTCPSimulator => generate_data_extended config current_time s
    end.

(** ** RegisterStore *)

(** [current_time - config['last_update'] >= config['interval']] *)
Definition due (config : config) (current_time : Q) : bool :=
  Qle_bool (interval config) (current_time - last_update config).

(** [config.get('current_value', config['value'])] *)
Definition cached (config : config) : pyval :=
  match current_value config with
  | Some v => v
  | None => value config
  end.

Definition get_config (l : loc) : M config :=
  fun s =>
    match load l s with
    | Some config => (Ok config, s)
    | None => (Raise KeyError, s)
    end.

(** Refresh-if-due, as the source writes it at every read:
    [[
      if current_time - config['last_update'] >= config['interval']:
          config['last_update'] = current_time
          config['current_value'] = self.generate_data(config, current_time)
    ]] *)
Definition refresh (l : loc) (current_time : Q) : M unit :=
  config <- get_config l ;;
  if due config current_time then
    let config := with_last_update config current_time in
    (fun s => (Ok tt, store l config s)) ;;;
    v <- generate_data config current_time ;;
    fun s => (Ok tt, store l (with_current_value config v) s)
  else ret tt.

(** [self.bit_config.get(address_type, {})] *)
Definition bit_dict (s : simulator) (sp : space) : dict (dict config) :=
  if has_bits sp then bit_config s sp else [].

(** [1 << bit] *)
Definition bit_mask (bit : Z) : res Z :=
  if bit <? 0 then Raise ValueError else Ok (Z.shiftl 1 bit).

Definition apply_bit (sp : space) (address : Z) (current_time : Q)
    (register_value : Z) (bit : Z) : M Z :=
  refresh (BitLoc sp address bit) current_time ;;;
  config <- get_config (BitLoc sp address bit) ;;
  let bit_value := cached config in
  mask <- lift (bit_mask bit) ;;
  if py_bool bit_value then ret (Z.lor register_value mask)
  else ret (Z.land register_value (Z.lnot mask)).

Definition generate_register_with_bits (sp : space) (address : Z)
    (current_time : Q) : M Z :=
  register_value <-
    (fun s =>
       if dict_mem (data_config s sp) address then
         (refresh (DataLoc sp address) current_time ;;;
          config <- get_config (DataLoc sp address) ;;
          let base_value := cached config in
          if is_number base_value
          then lift (res_map (fun z => Z.land z 0xFFFF) (py_int base_value))
          else ret 0) s
       else (Ok 0, s)) ;;
  fun s =>
    match dict_get (bit_dict s sp) address with
    | Some bits =>
        fold_M (keys bits) (apply_bit sp address current_time) register_value s
    | None => (Ok register_value, s)
    end.

Definition address_type_map (function_code : Z) : option space :=
  if function_code =? 1 then Some coils
  else if function_code =? 2 then Some discrete_inputs
  else if function_code =? 3 then Some holding_registers
  else if function_code =? 4 then Some input_registers
  else None.

Definition max_quantity (function_code : Z) : Z :=
  if function_code =? 1 then 2000
  else if function_code =? 2 then 2000
  else if function_code =? 3 then 125
  else if function_code =? 4 then 125
  else 125.

(** One iteration of the coil loop. *)
Definition read_bit (sp : space) (start_address : Z) (current_time : Q)
    (response_data : list pyval) (i : nat) : M (list pyval) :=
  let addr := start_address + Z.of_nat i in
  fun s =>
    if dict_mem (data_config s sp) addr then
      (refresh (DataLoc sp addr) current_time ;;;
       config <- get_config (DataLoc sp addr) ;;
       ret (response_data ++ [VBool (py_bool (cached config))])) s
    else (Ok (response_data ++ [VBool false]), s).

(** One iteration of the loop over the configured registers. *)
Definition copy_entry (sp : space) (start_address quantity : Z)
    (current_time : Q) (response_data : list Z) (addr : Z) : M (list Z) :=
  config <- get_config (DataLoc sp addr) ;;
  if (start_address <=? addr) && (addr <? start_address + quantity) then
    refresh (DataLoc sp addr) current_time ;;;
    config <- get_config (DataLoc sp addr) ;;
    let registers := pack_value_to_registers (cached config) (data_type config) in
    let n := len registers in
    let start_index := addr - start_address in
    let end_index := start_index + n in
    if end_index <=? quantity then
      ret (py_slice_assign response_data start_index end_index registers)
    else
      ret (py_slice_assign response_data start_index quantity
             (py_slice registers 0 (quantity - start_index)))
  else
    let data_type := data_type config in
    let register_count := get_register_count data_type in
    let config_end_addr := addr + register_count - 1 in
    if (addr <? start_address) && (start_address <=? config_end_addr) then
      refresh (DataLoc sp addr) current_time ;;;
      config <- get_config (DataLoc sp addr) ;;
      let registers := pack_value_to_registers (cached config) data_type in
      let overlap_start := start_address - addr in
      let registers_to_copy := py_slice_from registers overlap_start in
      let copy_count := Z.min (len registers_to_copy) quantity in
      ret (py_slice_assign response_data 0 copy_count
             (py_slice registers_to_copy 0 copy_count))
    else ret response_data.

(** [l[i] = x] *)
Definition py_setitem {A} (l : list A) (i : nat) (x : A) : res (list A) :=
  if Nat.ltb i (length l) then Ok (list_set l i x) else Raise IndexError.

(** One iteration of the overlay loop. *)
Definition overlay (sp : space) (start_address : Z) (current_time : Q)
    (response_data : list Z) (i : nat) : M (list Z) :=
  let addr := start_address + Z.of_nat i in
  fun s =>
    if dict_mem (bit_dict s sp) addr then
      (register_value <- generate_register_with_bits sp addr current_time ;;
       lift (py_setitem response_data i register_value)) s
    else (Ok response_data, s).

Definition handle_read_request (function_code start_address quantity : Z)
    (current_time : Q) : M (list pyval) :=
  match address_type_map function_code with
  | None => ret []
  | Some address_type =>
      let quantity :=
        if max_quantity function_code <? quantity
        then max_quantity function_code else quantity in
      if (function_code =? 1) || (function_code =? 2) then
        fold_M (seq 0 (Z.to_nat quantity))
               (read_bit address_type start_address current_time) []
      else
        fun s =>
          (response_data <-
             fold_M (keys (data_config s address_type))
                    (copy_entry address_type start_address quantity current_time)
                    (repeat 0 (Z.to_nat quantity)) ;;
           response_data <-
             fold_M (seq 0 (Z.to_nat quantity))
                    (overlay address_type start_address current_time)
                    response_data ;;
           ret (map VInt response_data)) s
  end.

(** ** Server: one received frame *)

Definition is_read (function_code : Z) : bool :=
  (function_code =? 1) || (function_code =? 2)
  || (function_code =? 3) || (function_code =? 4).

Definition is_write (function_code : Z) : bool :=
  (function_code =? 5) || (function_code =? 6)
  || (function_code =? 15) || (function_code =? 16).

(** The body of the loop of [handle_client] after [recv]: the bytes to
    send, if any. *)
Definition handle_frame (received : list byte) (current_time : Q)
    : M (option (list byte)) :=
  match parse_modbus_request received with
  | None => ret None
  | Some request =>
      let function_code := function_code request in
      let request_data := data request in
      response <-
        (if is_read function_code then
           if 4 <=? len request_data then
             try_M
               (sq <- lift (unpack_HH (py_slice request_data 0 4)) ;;
                response_data <-
                  handle_read_request function_code (fst sq) (snd sq) current_time ;;
                lift (create_modbus_response (transaction_id request)
                        (unit_id request) function_code response_data))
               (lift (exception_frame (transaction_id request) (unit_id request)
                        function_code 0x04))
           else
             lift (exception_frame (transaction_id request) (unit_id request)
                     function_code 0x02)
         else if is_write function_code then ret received
         else
           lift (exception_frame (transaction_id request) (unit_id request)
                   function_code 0x01)) ;;
      match response with
      | [] => ret None
      | _ => ret (Some response)
      end
  end.

(** ** ConfigIngest *)

Definition put (l : loc) (config : config) : M unit :=
  fun s => (Ok tt, store l config s).

(** The tail shared by both installers:
    [[
      current_time = time.time()
      config['last_update'] = current_time
      config['current_value'] = self.generate_data(config, current_time)
    ]] *)
Definition initialise (l : loc) (current_time : Q) : M unit :=
  config <- get_config l ;;
  let config := with_last_update config current_time in
  put l config ;;;
  v <- generate_data config current_time ;;
  put l (with_current_value config v).

Definition set_data_config (address_type : string) (address : Z) (value : pyval)
    (interval : Q) (data_range : pyval) (data_type : dtype)
    (current_time : Q) : M unit :=
  match space_of_name address_type with
  | None => raise ValueError
  | Some sp =>
      put (DataLoc sp address)
          {| value := value; interval := interval; last_update := 0%Q;
             data_range := data_range; data_type := data_type;
             current_value := None; description := None;
             is_bit_config := false |} ;;;
      initialise (DataLoc sp address) current_time
  end.

(** One value of the [bit_configs] argument; an absent key is [None]. *)
Record bit_spec : Type := {
  spec_value : option pyval;
  spec_interval : option Q;
  spec_data_range : option pyval;
  spec_description : option pystr
}.

Definition default {A} (o : option A) (d : A) : A :=
  match o with Some a => a | None => d end.

Definition set_bit (sp : space) (address : Z) (current_time : Q)
    (item : Z * bit_spec) : M unit :=
  let '(bit, config) := item in
  if (bit <? 0) || (15 <? bit) then raise ValueError
  else
    put (BitLoc sp address bit)
        {| value := default (spec_value config) (VInt 0);
           interval := default (spec_interval config) 1%Q;
           last_update := 0%Q;
           data_range := default (spec_data_range config) VNone;
           data_type := bool_t;
           current_value := None;
           description :=
             Some (default (spec_description config)
                           (codes "Bit" ++ py_str (VInt bit)));
           is_bit_config := true |} ;;;
    initialise (BitLoc sp address bit) current_time.

Definition set_bit_config (address_type : string) (address : Z)
    (bit_configs : dict bit_spec) (current_time : Q) : M unit :=
  match space_of_name address_type with
  | None => raise ValueError
  | Some sp =>
      if has_bits sp then
        (fun s =>
           if dict_mem (bit_config s sp) address then (Ok tt, s)
           else (Ok tt, with_bit_config s
                          (upd (bit_config s) sp
                               (dict_set (bit_config s sp) address [])))) ;;;
        for_each bit_configs (set_bit sp address current_time)
      else raise ValueError
  end.

(** ** The generator factories of the editor *)

Definition Qlt_bool (a b : Q) : bool :=
  match Qcompare a b with Lt => true | _ => false end.

(** [a % p] and [p // d] on exact numbers *)
Definition Qmod (a p : Q) : Q := (a - p * inject_Z (Qfloor (a / p)))%Q.
Definition Qfloordiv (p d : Q) : Z := Qfloor (p / d).

(** [int(t)]: truncation towards zero *)
Definition Qint (t : Q) : Z := let (n, d) := t in Z.quot n (Zpos d).

(** [periodic_boolean_func] of [create_robust_periodic_boolean_function] *)
Definition periodic_boolean_func (period : Q) (now : Q) : res Z :=
  if Qeq_bool period 0%Q then Raise ZeroDivisionError
  else
    Ok (if Qlt_bool (Qmod (inject_Z (Qint now)) period)
                    (inject_Z (Qfloordiv period 2%Q))
        then 1 else 0).

Definition no_arguments {A} (args : list pyval) (r : res A) : res A :=
  match args with
  | [] => r
  | _ => Raise TypeError
  end.

Definition create_robust_periodic_boolean_function (period : Q) : func :=
  {| signature := Ok 0%nat;
     body := fun args e cells =>
               (no_arguments args (res_map VInt (periodic_boolean_func period (clock e))),
                cells);
     cells := [] |}.

(** [random.choice([0, 1])] on the draw the call receives *)
Definition create_robust_boolean_function : func :=
  {| signature := Ok 0%nat;
     body := fun args e cells =>
               (no_arguments args (Ok (VInt (entropy e mod 2))), cells);
     cells := [] |}.

(** [create_ramp_function] for integer [start], [step] and [max_value]:
    the counter lives in the cell [current]. *)
Definition ramp_func (step max_value : Z) (args : list pyval) (e : env)
    (cells : list pyval) : res pyval * list pyval :=
  match args, cells with
  | [], [VList [VInt current]] =>
      if max_value =? 0 then (Raise ZeroDivisionError, cells)
      else
        let current := (current + step) mod max_value in
        (Ok (VInt current), [VList [VInt current]])
  | _, _ => (Raise TypeError, cells)
  end.

Definition create_ramp_function (start step max_value : Z) : func :=
  {| signature := Ok 0%nat;
     body := ramp_func step max_value;
     cells := [VList [VInt start]] |}.

(** ** The editor's side of the server life cycle *)

(** A new function object. *)
Definition alloc (f : func) : M pyval :=
  fun s => (Ok (VFunc (length (heap s))), with_heap s (heap s ++ [f]) (calls s)).

Definition save_original_config : M unit :=
  fun s => (Ok tt, with_original s (Copy (data_config s))).

Definition spaces : list space :=
  [coils; discrete_inputs; holding_registers; input_registers].

Definition reseed (sp : space) (current_time : Q) (address : Z) : M unit :=
  initialise (DataLoc sp address) current_time.

(** The inner loop of [reset_data], over the entries of one space. *)
Definition reseed_space (current_time : Q) (address_type : space) : M unit :=
  fun s =>
    for_each (keys (data_config s address_type))
             (reseed address_type current_time) s.

Definition reset_data (current_time : Q) : M unit :=
  fun s =>
    match original_data_config s with
    | Copy d =>
        (Ok tt, with_original (with_data_config s d) SameObject)
    | SameObject => (Ok tt, s)
    | NoSnapshot => for_each spaces (reseed_space current_time) s
    end.

(** One entry of [bit_config] in the editor's table. *)
Record gui_bit : Type := {
  change_type : option string;
  gui_bit_interval : option Q;
  gui_bit_description : option pystr
}.

(** One row of the editor's table. *)
Record gui_config : Type := {
  gui_address : Z;
  gui_value : pyval;
  gui_interval : Q;
  gui_data_range : option pyval;
  gui_data_type : option dtype;
  gui_bit_config : list (pyval * gui_bit)
}.

Definition name_of (sp : space) : string :=
  match sp with
  | coils => "coils"
  | discrete_inputs => "discrete_inputs"
  | holding_registers => "holding_registers"
  | input_registers => "input_registers"
  end.

Definition make_bit (bit_configs : dict bit_spec) (item : pyval * gui_bit)
    : M (dict bit_spec) :=
  let '(bit, bit_cfg) := item in
  let interval := default (gui_bit_interval bit_cfg) 2%Q in
  value_func <-
    (if String.eqb (default (change_type bit_cfg) "periodic"%string) "periodic"
     then alloc (create_robust_periodic_boolean_function interval)
     else alloc create_robust_boolean_function) ;;
  key <- lift (py_int bit) ;;
  ret (dict_set bit_configs key
         {| spec_value := Some value_func;
            spec_interval := Some interval;
            spec_data_range := None;
            spec_description :=
              Some (default (gui_bit_description bit_cfg)
                            (codes "Bit" ++ py_str bit)) |}).

Definition apply_config (reg_type : space) (current_time : Q)
    (config : gui_config) : M unit :=
  set_data_config (name_of reg_type) (gui_address config) (gui_value config)
    (gui_interval config) (default (gui_data_range config) VNone)
    (default (gui_data_type config) int16) current_time ;;;
  if has_bits reg_type then
    match gui_bit_config config with
    | [] => ret tt
    | bits =>
        bit_configs <- fold_M bits make_bit [] ;;
        match bit_configs with
        | [] => ret tt
        | _ => set_bit_config (name_of reg_type) (gui_address config)
                 bit_configs current_time
        end
    end
  else ret tt.

Definition empty_config {A} : space -> dict A := fun _ => [].

(** Rebinding [self.data_config]: the snapshot, if it was the same
    object, keeps the old contents. *)
Definition rebind_data_config (d : space -> dict config) : M unit :=
  fun s =>
    let o := match original_data_config s with
             | SameObject => Copy (data_config s)
             | o => o
             end in
    (Ok tt, with_original (with_data_config s d) o).

Definition apply_config_to_simulator (configs : space -> list gui_config)
    (current_time : Q) : M unit :=
  rebind_data_config empty_config ;;;
  (fun s => (Ok tt, with_bit_config s empty_config)) ;;;
  for_each spaces
    (fun reg_type =>
       for_each (configs reg_type) (apply_config reg_type current_time)).

(** [ExtendedModbusTCPSimulator(ip, port, callback)]: a new object; the
    function objects of the process stay. *)
Definition new_extended_simulator (s : simulator) : simulator :=
  {| class := ExtendedModbusTCPSimulator;
     data_config := empty_config;
     bit_config := empty_config;
     original_data_config := NoSnapshot;
     heap := heap s; calls := calls s; rng := rng s |}.

(** The body of [start_server] is one [try] block whose handler shows an
    error box and returns: an exception raised while the table is applied
    is not propagated, and the simulator stays as the failure left it. *)
Definition start_server (configs : space -> list gui_config)
    (current_time : Q) : M unit :=
  try_M
    ((fun s => (Ok tt, new_extended_simulator s)) ;;;
     save_original_config ;;;
     apply_config_to_simulator configs current_time)
    (ret tt).

Definition stop_server (current_time : Q) : M unit :=
  reset_data current_time.

End Simulator.

(** ** Vocabulary of the statements *)

(** The length field of an MBAP header (bytes 4 and 5). *)
Definition length_field (buf : list byte) : Z :=
  match buf with
  | _ :: _ :: _ :: _ :: c1 :: c0 :: _ => word_of c1 c0
  | _ => 0
  end.

(** The length field counts exactly the bytes that follow it. *)
Definition length_consistent (buf : list byte) : Prop :=
  len buf = 6 + length_field buf.

(** What [create_modbus_response] can encode as a normal response. *)
Definition encodable {T : PyText} (function_code : Z) (data : list pyval) : Prop :=
  if (function_code =? 1) || (function_code =? 2) then len data <= 2040
  else len data <= 127 /\ exists zs, int_all data = Ok zs.

(** An 8-byte buffer whose length field announces 6 bytes. *)
Definition truncated_frame : list byte :=
  [Byte.x00; Byte.x01; Byte.x00; Byte.x00; Byte.x00; Byte.x06; Byte.x01; Byte.x03].

(** The text conversions used by the closed examples, none of which
    converts text: every literal is unreadable and every [repr] empty. *)
#[export] Instance no_text : PyText :=
  {| int_of_str := fun _ => None; float_of_str := fun _ => None; repr := fun _ => [] |}.

(** The byte count of a read response, by the function code. *)
Definition byte_count_of (function_code : Z) (data : list pyval) : Z :=
  if (function_code =? 1) || (function_code =? 2)
  then (len data + 7) / 8 else 2 * len data.

(** A relation between the state before and after a computation. *)
Definition preserves {A} (R : simulator -> simulator -> Prop) (m : M A) : Prop :=
  forall s r s', m s = (r, s') -> R s s'.

(** Only the heap and the call log differ. *)
Definition heap_only (s s' : simulator) : Prop :=
  s' = with_heap s (heap s') (calls s').

(** The values of a declared type. *)
Definition typed (data_type : dtype) (v : pyval) : Prop :=
  match data_type with
  | int16 | uint16 | other_t => exists z, v = VInt z /\ 0 <= z < 65536
  | int32 => exists z, v = VInt z
  | uint32 => exists z, v = VInt z /\ 0 <= z < 4294967296
  | float32 | float64 => exists f, v = VFloat f
  | bool_t => exists b, v = VBool b
  | string_t => exists s, v = VStr s
  end.

(** No producer is called. *)
Definition no_call (s s' : simulator) : Prop := calls s' = calls s.

(** At most one call, and of the function [id]. *)
Definition one_call (id : nat) (s s' : simulator) : Prop :=
  calls s' = calls s \/ calls s' = calls s ++ [id].

(** [ModbusTCPSimulator(ip, port)] in a process that has created no
    function object yet: every table is empty. *)
Definition new_simulator : simulator :=
  {| class := ModbusTCPSimulator;
     data_config := empty_config;
     bit_config := empty_config;
     original_data_config := NoSnapshot;
     heap := [];
     calls := [];
     rng := fun _ => 0 |}.

(** The interval boundaries [last_update + k * interval] that lie at or
    before [now]. *)
Definition boundaries_crossed (c : config) (now : Q) : Z :=
  Qfloor ((now - last_update c) / interval c).

(** A counter entry refreshed every second and last refreshed at time 0,
    in a store whose only function object is the counter. *)
Definition ramp_entry : config :=
  {| value := VFunc 0; interval := 1%Q; last_update := 0%Q;
     data_range := VNone; data_type := uint16;
     current_value := Some (VInt 0); description := None;
     is_bit_config := false |}.

Definition ramp_store : simulator :=
  {| class := ModbusTCPSimulator;
     data_config := upd empty_config holding_registers [(0, ramp_entry)];
     bit_config := empty_config;
     original_data_config := NoSnapshot;
     heap := [create_ramp_function 0 1 65536];
     calls := [];
     rng := fun _ => 0 |}.

(** The constant [float('inf')] declared as ['int16']. *)
Definition overflow_entry : config :=
  {| value := VFloat (S754_infinity false); interval := 1%Q; last_update := 0%Q;
     data_range := VNone; data_type := int16;
     current_value := None; description := None;
     is_bit_config := false |}.

(** The request "read 1 holding register at address 0", transaction 9. *)
Definition read_holding_0 : list byte :=
  [Byte.x00; Byte.x09; Byte.x00; Byte.x00; Byte.x00; Byte.x06; Byte.x01;
   Byte.x03; Byte.x00; Byte.x00; Byte.x00; Byte.x01].

(** The register entries are the same. *)
Definition same_registers (s s' : simulator) : Prop :=
  data_config s' = data_config s.

(** What a computation returns, when it returns. *)
Definition returns {A} (P : A -> Prop) (m : M A) : Prop :=
  forall s v s', m s = (Ok v, s') -> P v.

(** The fields of an entry that no refresh writes. *)
Definition static_fields (c : config)
    : pyval * Q * pyval * dtype * option pystr * bool :=
  (value c, interval c, data_range c, data_type c, description c, is_bit_config c).

(** An entry stamped [t] that holds a cached value. *)
Definition seeded (t : Q) (l : loc) (s : simulator) : Prop :=
  exists c, load l s = Some c /\ last_update c = t /\ current_value c <> None.

(** The same addresses with the same static fields; class, overlays and
    snapshot untouched. *)
Definition same_entries (s s' : simulator) : Prop :=
  class s' = class s /\
  bit_config s' = bit_config s /\
  original_data_config s' = original_data_config s /\
  forall sp,
    keys (data_config s' sp) = keys (data_config s sp) /\
    forall a, option_map static_fields (dict_get (data_config s' sp) a)
              = option_map static_fields (dict_get (data_config s sp) a).

(** The editor's table with one constant holding register, 7 at address 0. *)
Definition one_register (sp : space) : list gui_config :=
  match sp with
  | holding_registers =>
      [{| gui_address := 0; gui_value := VInt 7; gui_interval := 1%Q;
          gui_data_range := None; gui_data_type := None; gui_bit_config := [] |}]
  | _ => []
  end.

(** A store whose only entry is the text "Hello" at holding register 4,
    installed at time 10 and refreshed every 10 seconds. *)
Definition hello_store : simulator :=
  snd (set_data_config "holding_registers" 4 (VStr (codes "Hello")) 10 VNone
         string_t 10 new_simulator).

(** The extended simulator with the table and the counter of
    [ramp_store], a snapshot saved and the counter then read at times 1,
    2 and 3. *)
Definition ramp_store_read : simulator :=
  snd ((save_original_config ;;;
        refresh (DataLoc holding_registers 0) 1 ;;;
        refresh (DataLoc holding_registers 0) 2 ;;;
        refresh (DataLoc holding_registers 0) 3)
         {| class := ExtendedModbusTCPSimulator;
            data_config := data_config ramp_store;
            bit_config := bit_config ramp_store;
            original_data_config := NoSnapshot;
            heap := heap ramp_store;
            calls := calls ramp_store;
            rng := rng ramp_store |}).

(** The locations of one register address: its entry and the bits of its
    overlay. *)
Definition at_address (sp : space) (a : Z) (l : loc) : Prop :=
  l = DataLoc sp a \/ exists b, l = BitLoc sp a b.

(** Nothing is written outside the locations [P], and no overlay appears
    or disappears. *)
Definition only_at (P : loc -> Prop) (s s' : simulator) : Prop :=
  (forall l, ~ P l -> load l s' = load l s) /\
  (forall sp a, dict_mem (bit_config s' sp) a = dict_mem (bit_config s sp) a).

(** The base of an overlay word: the low 16 bits of the entry's cached
    number, 0 when there is no entry or its cached value is no number. *)
Definition overlay_base {T : PyText} (entry : option config) (base : Z) : Prop :=
  match entry with
  | Some c =>
      if is_number (cached c)
      then res_map (fun z => Z.land z 0xFFFF) (py_int (cached c)) = Ok base
      else base = 0
  | None => base = 0
  end.

(** The word [w] of an address with an overlay, read off the store: each
    configured bit is the truth value of its cached value, every other
    bit is the bit of the base. *)
Definition overlay_word {T : PyText} (sp : space) (a : Z) (s : simulator) (w : Z)
    : Prop :=
  exists base,
    overlay_base (load (DataLoc sp a) s) base /\
    forall b, 0 <= b ->
      Z.testbit w b = match load (BitLoc sp a b) s with
                      | Some c => py_bool (cached c)
                      | None => Z.testbit base b
                      end.

(** The entries themselves, as opposed to overlay bits. *)
Definition is_entry (l : loc) : Prop := exists sp a, l = DataLoc sp a.

(** The 32-bit constant 0x00010002 at holding register 100, with an
    overlay that holds bit 0 at [False]; both installed at time 10. *)
Definition wide_overlay_store : simulator :=
  snd ((set_data_config "holding_registers" 100 (VInt 0x00010002) 1 VNone int32 10 ;;;
        set_bit_config "holding_registers" 100
          [(0, {| spec_value := Some (VBool false); spec_interval := None;
                  spec_data_range := None; spec_description := None |})] 10)
         new_simulator).

(** A store whose only entry is the coil at address 8, the constant 1,
    installed at time 0. *)
Definition coil_store : simulator :=
  snd (set_data_config "coils" 8 (VInt 1) 1 VNone int16 0 new_simulator).

(** Every entry and every overlay bit is where it was, with the static
    fields it had. *)
Definition same_static (s s' : simulator) : Prop :=
  forall l, option_map static_fields (load l s')
            = option_map static_fields (load l s).

(** The snapshot is the one it was. *)
Definition same_snapshot (s s' : simulator) : Prop :=
  original_data_config s' = original_data_config s.

(** The function object [id] raises whatever it is called with. *)
Definition always_raises (id : nat) (s : simulator) : Prop :=
  exists f, nth_error (heap s) id = Some f /\
            forall args e cells, exists ex cells', body f args e cells = (Raise ex, cells').

(** A function object that always raises [ZeroDivisionError]: a ramp
    whose maximum is 0. *)
Definition broken_ramp_store : simulator :=
  {| class := ModbusTCPSimulator;
     data_config := upd empty_config holding_registers [(0, ramp_entry)];
     bit_config := empty_config;
     original_data_config := NoSnapshot;
     heap := [{| signature := Ok 0%nat;
                 body := fun _ _ cells => (Raise ZeroDivisionError, cells);
                 cells := [] |}];
     calls := [];
     rng := fun _ => 0 |}.

(** An extended simulator whose only function object is the random
    switch, with an entry that gives it the range 5 to 10. *)
Definition switch_entry : config :=
  {| value := VFunc 0; interval := 1%Q; last_update := 0%Q;
     data_range := VList [VInt 5; VInt 10]; data_type := int16;
     current_value := None; description := None;
     is_bit_config := false |}.

Definition switch_store : simulator :=
  {| class := ExtendedModbusTCPSimulator;
     data_config := upd empty_config holding_registers [(0, switch_entry)];
     bit_config := empty_config;
     original_data_config := NoSnapshot;
     heap := [create_robust_boolean_function];
     calls := [];
     rng := fun _ => 0 |}.

(** The loop of [handle_client] over the buffers that [recv] returns,
    each with the time of its handling: the responses sent, in order
    ([None] where nothing is sent). An empty buffer means that the peer
    has closed the connection and ends the loop. *)
Fixpoint handle_client {T : PyText} (received : list (list byte * Q))
    : M (list (option (list byte))) :=
  match received with
  | [] => ret []
  | (data, current_time) :: rest =>
      match data with
      | [] => ret []
      | _ =>
          response <- handle_frame data current_time ;;
          sent <- handle_client rest ;;
          ret (response :: sent)
      end
  end.

(** The buffers received before the connection is closed. *)
Fixpoint until_close (received : list (list byte * Q)) : list (list byte * Q) :=
  match received with
  | [] => []
  | (data, current_time) :: rest =>
      match data with
      | [] => []
      | _ => (data, current_time) :: until_close rest
      end
  end.

(** The truth value an address reads as: that of the cached value of its
    entry, [False] without entry. *)
Definition cached_truth (entry : option config) : bool :=
  match entry with
  | Some c => py_bool (cached c)
  | None => false
  end.

(** Item [i] of the response array [rd] once the words [regs] have been
    laid over it from index [offset] on, which may be negative. *)
Definition placed (rd regs : list Z) (offset : Z) (i : nat) : option Z :=
  if (offset <=? Z.of_nat i) && (Z.of_nat i <? offset + len regs)
  then nth_error regs (Z.to_nat (Z.of_nat i - offset))
  else nth_error rd i.

(** * Theorems *)
(** * Properties *)

(** ** Bytes and slices *)

Lemma byte_val_range (b : byte) : 0 <= byte_val b < 256.
Proof.
  unfold byte_val. pose proof (Byte.to_N_bounded b). lia.
Qed.

Lemma byte_of_Z_val (v : Z) (b : byte) : byte_of_Z v = Some b -> byte_val b = v.
Proof.
  unfold byte_of_Z, byte_val.
  destruct ((0 <=? v) && (v <? 256)) eqn:E; [|discriminate].
  intros H. apply Byte.to_of_N in H. rewrite H. lia.
Qed.

Lemma byte_of_Z_some (v : Z) : 0 <= v < 256 -> exists b, byte_of_Z v = Some b.
Proof.
  intros H. unfold byte_of_Z.
  replace ((0 <=? v) && (v <? 256)) with true by lia.
  destruct (Byte.of_N (Z.to_N v)) as [b|] eqn:E; [eauto|].
  apply Byte.of_N_None_iff in E. lia.
Qed.

Lemma byte_of_Z_byte_val (b : byte) : byte_of_Z (byte_val b) = Some b.
Proof.
  unfold byte_of_Z. pose proof (byte_val_range b).
  replace ((0 <=? byte_val b) && (byte_val b <? 256)) with true by lia.
  unfold byte_val. rewrite N2Z.id. apply Byte.of_to_N.
Qed.

Lemma pack_B_ok (v : Z) : 0 <= v < 256 ->
  exists b, pack_B v = Ok [b] /\ byte_val b = v.
Proof.
  intros H. destruct (byte_of_Z_some v H) as [b Hb].
  exists b. unfold pack_B. rewrite Hb. split; [reflexivity|].
  now apply byte_of_Z_val.
Qed.

Lemma pack_H_ok (v : Z) : 0 <= v < 65536 ->
  exists hi lo, pack_H v = Ok [hi; lo] /\ word_of hi lo = v.
Proof.
  intros H. unfold pack_H.
  replace ((0 <=? v) && (v <? 65536)) with true by lia.
  destruct (byte_of_Z_some (v / 256)) as [hi Hhi].
  { split; [apply Z.div_pos; lia | apply Z.div_lt_upper_bound; lia]. }
  destruct (byte_of_Z_some (v mod 256)) as [lo Hlo].
  { apply Z.mod_pos_bound; lia. }
  exists hi, lo. rewrite Hhi, Hlo. split; [reflexivity|].
  unfold word_of. rewrite (byte_of_Z_val _ _ Hhi), (byte_of_Z_val _ _ Hlo).
  pose proof (Z.div_mod v 256). lia.
Qed.

Lemma word_of_range (hi lo : byte) : 0 <= word_of hi lo < 65536.
Proof.
  unfold word_of. pose proof (byte_val_range hi). pose proof (byte_val_range lo). lia.
Qed.

Lemma len_nonneg {A} (l : list A) : 0 <= len l.
Proof. unfold len. lia. Qed.

Lemma len_app {A} (l r : list A) : len (l ++ r) = len l + len r.
Proof. unfold len. rewrite length_app. lia. Qed.

Lemma len_cons {A} (x : A) (l : list A) : len (x :: l) = 1 + len l.
Proof. unfold len. simpl length. lia. Qed.

Lemma slice_bound_nonneg (n i : Z) : 0 <= n -> 0 <= i -> slice_bound n i = Z.min i n.
Proof.
  intros Hn Hi. unfold slice_bound. destruct (i <? 0) eqn:E; [lia | reflexivity].
Qed.

(** For bounds that are not negative, a slice is a [firstn] of a [skipn]. *)
Lemma py_slice_nonneg {A} (l : list A) (a b : Z) :
  0 <= a -> 0 <= b ->
  py_slice l a b = firstn (Z.to_nat (b - a)) (skipn (Z.to_nat a) l).
Proof.
  intros Ha Hb. unfold py_slice.
  rewrite !slice_bound_nonneg by (auto using len_nonneg).
  unfold len.
  destruct (Z_le_gt_dec a (Z.of_nat (length l))) as [Hal|Hal].
  - rewrite (Z.min_l a) by lia.
    destruct (Z_le_gt_dec b (Z.of_nat (length l))) as [Hbl|Hbl].
    + rewrite (Z.min_l b) by lia. reflexivity.
    + rewrite (Z.min_r b) by lia.
      rewrite !firstn_all2; [reflexivity | |]; rewrite length_skipn; lia.
  - rewrite (Z.min_r a) by lia.
    rewrite !skipn_all2 by lia. now rewrite !firstn_nil.
Qed.

(** ** Codec *)

Lemma parse_cons8 (a1 a0 b1 b0 c1 c0 u f : byte) (rest : list byte) :
  parse_modbus_request (a1 :: a0 :: b1 :: b0 :: c1 :: c0 :: u :: f :: rest) =
  Some {| transaction_id := word_of a1 a0;
          unit_id := byte_val u;
          function_code := byte_val f;
          data := firstn (Z.to_nat (word_of c1 c0 - 2)) rest |}.
Proof.
  unfold parse_modbus_request.
  set (buf := a1 :: a0 :: b1 :: b0 :: c1 :: c0 :: u :: f :: rest).
  assert (Hlen : len buf = 8 + len rest).
  { unfold buf. rewrite !len_cons. lia. }
  pose proof (len_nonneg rest) as Hr.
  replace (len buf <? 8) with false by lia.
  pose proof (word_of_range c1 c0) as Hc.
  rewrite !py_slice_nonneg by lia.
  change (Z.to_nat (7 - 0)) with 7%nat. change (Z.to_nat (8 - 7)) with 1%nat.
  change (Z.to_nat 0) with 0%nat. change (Z.to_nat 7) with 7%nat.
  unfold buf. cbn [firstn skipn unpack_HHHB unpack_B res_bind].
  rewrite py_slice_nonneg by lia.
  replace (8 + word_of c1 c0 - 2 - 8) with (word_of c1 c0 - 2) by lia.
  reflexivity.
Qed.

Lemma parse_short (buf : list byte) : len buf < 8 -> parse_modbus_request buf = None.
Proof.
  intros H. unfold parse_modbus_request.
  now replace (len buf <? 8) with true by lia.
Qed.

Lemma long_buffer (buf : list byte) : 8 <= len buf ->
  exists a1 a0 b1 b0 c1 c0 u f rest,
    buf = a1 :: a0 :: b1 :: b0 :: c1 :: c0 :: u :: f :: rest.
Proof.
  intros H.
  do 8 (destruct buf as [|? buf]; [unfold len in H; simpl in H; lia|]).
  repeat eexists.
Qed.

(** C7 (as amended). Parsing fails exactly on buffers shorter than 8
    bytes, whatever the length field says. On a longer buffer it returns
    the transaction id, unit id and function code of the header, and as
    payload the bytes after the function code, at most [length - 2] of
    them: the payload has [length - 2] bytes only if the buffer holds that
    many. *)
Theorem parse_modbus_request_contract (buf : list byte) :
  (parse_modbus_request buf = None <-> len buf < 8) /\
  (8 <= len buf ->
   exists a1 a0 b1 b0 c1 c0 u f rest,
     buf = a1 :: a0 :: b1 :: b0 :: c1 :: c0 :: u :: f :: rest /\
     parse_modbus_request buf =
       Some {| transaction_id := word_of a1 a0;
               unit_id := byte_val u;
               function_code := byte_val f;
               data := firstn (Z.to_nat (length_field buf - 2)) rest |} /\
     len (firstn (Z.to_nat (length_field buf - 2)) rest)
       = Z.min (Z.max 0 (length_field buf - 2)) (len buf - 8)).
Proof.
  split.
  - split.
    + intros H. destruct (Z_lt_ge_dec (len buf) 8) as [|Hge]; [assumption|].
      destruct (long_buffer buf) as (a1&a0&b1&b0&c1&c0&u&f&rest&->); [lia|].
      rewrite parse_cons8 in H. discriminate.
    + apply parse_short.
  - intros H.
    destruct (long_buffer buf H) as (a1&a0&b1&b0&c1&c0&u&f&rest&->).
    exists a1, a0, b1, b0, c1, c0, u, f, rest.
    split; [reflexivity|]. split; [apply parse_cons8|].
    cbn [length_field]. rewrite !len_cons.
    unfold len. rewrite length_firstn. lia.
Qed.

(** C7 (as stated) fails: the 8-byte buffer [00 01 00 00 00 06 01 03]
    announces 6 bytes after the length field and carries 2, yet it is
    parsed, with an empty payload instead of one of [6 - 2] bytes. *)
Lemma parse_accepts_inconsistent_length :
  len truncated_frame = 8 /\
  length_field truncated_frame = 6 /\
  ~ length_consistent truncated_frame /\
  parse_modbus_request truncated_frame =
    Some {| transaction_id := 1; unit_id := 1; function_code := 3; data := [] |} /\
  ~ (parse_modbus_request truncated_frame = None <->
     len truncated_frame < 8 \/ ~ length_consistent truncated_frame).
Proof.
  assert (Hc : ~ length_consistent truncated_frame).
  { unfold length_consistent. vm_compute. discriminate. }
  repeat split; try reflexivity; try assumption.
  intros [_ H]. specialize (H (or_intror Hc)). discriminate H.
Qed.

Lemma mbap_frame_ok (tid uid fc : Z) (body : list byte) :
  0 <= tid < 65536 -> 0 <= uid < 256 -> 0 <= fc < 256 -> len body <= 65533 ->
  exists a1 a0 z1 z0 c1 c0 u f,
    mbap_frame tid uid fc body = Ok (a1 :: a0 :: z1 :: z0 :: c1 :: c0 :: u :: f :: body) /\
    word_of a1 a0 = tid /\ word_of c1 c0 = 1 + 1 + len body /\
    byte_val u = uid /\ byte_val f = fc.
Proof.
  intros Ht Hu Hf Hb. pose proof (len_nonneg body).
  destruct (pack_H_ok tid Ht) as (a1 & a0 & Ea & Wa).
  destruct (pack_H_ok 0) as (z1 & z0 & Ez & Wz); [lia|].
  destruct (pack_H_ok (1 + 1 + len body)) as (c1 & c0 & Ec & Wc); [lia|].
  destruct (pack_B_ok uid Hu) as (u & Eu & Wu).
  destruct (pack_B_ok fc Hf) as (f & Ef & Wf).
  exists a1, a0, z1, z0, c1, c0, u, f.
  unfold mbap_frame, pack_HHHB, pack_cat. rewrite Ea, Ez, Ec, Eu, Ef. cbn.
  auto.
Qed.

(** Header, function code and body: parsing gives every part back. *)
Lemma mbap_frame_round_trip (tid uid fc : Z) (body : list byte) :
  0 <= tid < 65536 -> 0 <= uid < 256 -> 0 <= fc < 256 -> len body <= 65533 ->
  exists frame,
    mbap_frame tid uid fc body = Ok frame /\
    length_field frame = 1 + 1 + len body /\
    parse_modbus_request frame =
      Some {| transaction_id := tid; unit_id := uid; function_code := fc; data := body |}.
Proof.
  intros Ht Hu Hf Hb.
  destruct (mbap_frame_ok tid uid fc body Ht Hu Hf Hb)
    as (a1&a0&z1&z0&c1&c0&u&f&E&Wa&Wc&Wu&Wf).
  eexists. split; [exact E|]. split; [exact Wc|].
  rewrite parse_cons8, Wa, Wc, Wu, Wf. do 2 f_equal.
  apply firstn_all2. unfold len. lia.
Qed.

Lemma land_FFFF_range (z : Z) : 0 <= Z.land z 0xFFFF < 65536.
Proof.
  change 0xFFFF with (Z.ones 16). rewrite Z.land_ones by lia.
  change (2 ^ 16) with 65536. apply Z.mod_pos_bound. lia.
Qed.

Lemma lor_below (n a b : Z) :
  0 <= n -> 0 <= a < 2 ^ n -> 0 <= b < 2 ^ n -> 0 <= Z.lor a b < 2 ^ n.
Proof.
  intros Hn Ha Hb.
  assert (H0 : 0 <= Z.lor a b) by (apply Z.lor_nonneg; lia).
  split; [assumption|].
  destruct (Z.eq_dec (Z.lor a b) 0) as [E|E].
  - rewrite E. apply Z.pow_pos_nonneg; lia.
  - assert (Hpos : 0 < n).
    { destruct (Z.eq_dec n 0) as [->|]; [|lia].
      change (2 ^ 0) with 1 in *. assert (a = 0) by lia. assert (b = 0) by lia.
      subst. now elim E. }
    apply Z.log2_lt_pow2; [lia|].
    rewrite Z.log2_lor by lia.
    apply Z.max_lub_lt.
    + destruct (Z.eq_dec a 0) as [->|]; [simpl; lia|]. apply Z.log2_lt_pow2; lia.
    + destruct (Z.eq_dec b 0) as [->|]; [simpl; lia|]. apply Z.log2_lt_pow2; lia.
Qed.

Section CodecFacts.
Context {T : PyText}.

Lemma coil_byte_range (data : list pyval) (i : nat) : 0 <= coil_byte data i < 256.
Proof.
  unfold coil_byte.
  assert (G : forall bits acc,
             Forall (fun b => (b < 8)%nat) bits -> 0 <= acc < 2 ^ 8 ->
             0 <= fold_left
                    (fun byte_val bit =>
                       match nth_error data (i * 8 + bit) with
                       | Some v =>
                           if py_bool v
                           then Z.lor byte_val (Z.shiftl 1 (Z.of_nat bit))
                           else byte_val
                       | None => byte_val
                       end) bits acc < 2 ^ 8).
  { induction bits as [|b bits IH]; intros acc Hb Hacc; [exact Hacc|].
    inversion Hb as [|? ? Hb1 Hb2]; subst. cbn [fold_left]. apply IH; [assumption|].
    destruct (nth_error data (i * 8 + b)) as [v|]; [|assumption].
    destruct (py_bool v); [|assumption].
    apply lor_below; [lia | assumption |].
    rewrite Z.shiftl_1_l. split; [apply Z.pow_nonneg; lia|].
    apply Z.pow_lt_mono_r; lia. }
  apply G; [|change (2 ^ 8) with 256; lia].
  repeat constructor.
Qed.

Lemma pack_all_B_ok (vs : list Z) :
  Forall (fun v => 0 <= v < 256) vs ->
  exists bs, pack_all pack_B vs = Ok bs /\ len bs = len vs /\ map byte_val bs = vs.
Proof.
  induction vs as [|v vs IH]; intros H.
  - exists []. auto.
  - inversion H as [|? ? Hv Hvs]; subst.
    destruct (IH Hvs) as (bs & E & L & Mp).
    destruct (pack_B_ok v Hv) as (b & Eb & Wb).
    exists (b :: bs). cbn [pack_all]. unfold pack_cat. rewrite Eb, E. cbn [res_bind app map].
    rewrite !len_cons, L, Wb, Mp. auto.
Qed.

Lemma pack_all_H_ok (vs : list Z) :
  Forall (fun v => 0 <= v < 65536) vs ->
  exists bs, pack_all pack_H vs = Ok bs /\ len bs = 2 * len vs.
Proof.
  induction vs as [|v vs IH]; intros H.
  - exists []. auto.
  - inversion H as [|? ? Hv Hvs]; subst.
    destruct (IH Hvs) as (bs & E & L).
    destruct (pack_H_ok v Hv) as (hi & lo & Eb & Wb).
    exists (hi :: lo :: bs). cbn [pack_all]. unfold pack_cat. rewrite Eb, E. cbn [res_bind app].
    rewrite !len_cons, L. split; [reflexivity | lia].
Qed.

Lemma int_all_words (data : list pyval) (zs : list Z) :
  int_all data = Ok zs ->
  len zs = len data /\ Forall (fun v => 0 <= v < 65536) zs.
Proof.
  revert zs. induction data as [|v data IH]; intros zs H.
  - injection H as <-. auto.
  - cbn [int_all] in H. destruct (py_int v) as [z|]; [|discriminate].
    cbn [res_bind] in H. destruct (int_all data) as [zs'|]; [|discriminate].
    injection H as <-. destruct (IH zs' eq_refl) as [L F].
    rewrite !len_cons, L. split; [reflexivity|].
    constructor; [apply land_FFFF_range | assumption].
Qed.

Lemma int_all_VInt (zs : list Z) :
  int_all (map VInt zs) = Ok (map (fun z => Z.land z 0xFFFF) zs).
Proof.
  induction zs as [|z zs IH]; [reflexivity|].
  cbn [map int_all py_int res_bind]. now rewrite IH.
Qed.

Lemma response_body_ok (fc : Z) (data : list pyval) :
  is_read fc = true -> encodable fc data ->
  exists bc rest,
    response_body fc data = Ok (fc, bc :: rest) /\
    byte_val bc = byte_count_of fc data /\
    len rest = byte_count_of fc data /\
    byte_count_of fc data <= 255.
Proof.
  intros Hr He. pose proof (len_nonneg data) as Hd.
  unfold encodable in He. unfold response_body, byte_count_of.
  destruct ((fc =? 1) || (fc =? 2)) eqn:E12.
  - assert (Hbc : 0 <= (len data + 7) / 8 < 256).
    { split; [apply Z.div_pos; lia | apply Z.div_lt_upper_bound; lia]. }
    destruct (pack_B_ok _ Hbc) as (bc & Ebc & Wbc).
    destruct (pack_all_B_ok
                (map (coil_byte data) (seq 0 (Z.to_nat ((len data + 7) / 8)))))
      as (bs & Ebs & Lbs & _).
    { apply Forall_forall. intros v Hv. apply in_map_iff in Hv.
      destruct Hv as (i & <- & _). apply coil_byte_range. }
    exists bc, bs. unfold pack_cat. rewrite Ebc, Ebs. cbn [res_bind res_map app].
    repeat split; [assumption | | lia].
    rewrite Lbs. unfold len at 1. rewrite length_map, length_seq.
    apply Z2Nat.id. lia.
  - assert (E34 : (fc =? 3) || (fc =? 4) = true).
    { unfold is_read in Hr. rewrite <- !orb_assoc in *.
      rewrite (orb_assoc (fc =? 1)) in Hr. rewrite E12 in Hr. exact Hr. }
    rewrite E34. destruct He as (Hl & zs & Ez). rewrite Ez. cbn [res_bind].
    destruct (int_all_words _ _ Ez) as [L F].
    assert (Hbc : 0 <= len zs * 2 < 256) by lia.
    destruct (pack_B_ok _ Hbc) as (bc & Ebc & Wbc).
    destruct (pack_all_H_ok zs F) as (bs & Ebs & Lbs).
    exists bc, bs. unfold pack_cat. rewrite Ebc, Ebs. cbn [res_bind res_map app].
    repeat split; lia.
Qed.

Lemma is_read_range (fc : Z) : is_read fc = true -> 0 <= fc < 256.
Proof. unfold is_read. lia. Qed.

(** C4. A normal response is header, function code and body, with the
    length field [1 + 1 + len body]; parsing it gives back the
    transaction id, the unit id, the function code and the body. This
    holds of the framing for every body, and of [create_modbus_response]
    for every read function code and every data it encodes. *)
Theorem response_round_trip (tid uid fc : Z) :
  0 <= tid < 65536 -> 0 <= uid < 256 ->
  (forall body, 0 <= fc < 256 -> len body <= 65533 ->
     exists frame,
       mbap_frame tid uid fc body = Ok frame /\
       length_field frame = 1 + 1 + len body /\
       parse_modbus_request frame =
         Some {| transaction_id := tid; unit_id := uid;
                 function_code := fc; data := body |}) /\
  (forall data, is_read fc = true -> encodable fc data ->
     exists body frame,
       response_body fc data = Ok (fc, body) /\
       create_modbus_response tid uid fc data = Ok frame /\
       length_field frame = 1 + 1 + len body /\
       parse_modbus_request frame =
         Some {| transaction_id := tid; unit_id := uid;
                 function_code := fc; data := body |}).
Proof.
  intros Ht Hu. split.
  - intros body Hf Hb. now apply mbap_frame_round_trip.
  - intros data Hr He.
    destruct (response_body_ok fc data Hr He) as (bc & rest & E & _ & L & B).
    pose proof (is_read_range fc Hr) as Hf.
    destruct (mbap_frame_round_trip tid uid fc (bc :: rest) Ht Hu Hf)
      as (frame & Ef & Lf & Pf).
    { rewrite len_cons. lia. }
    exists (bc :: rest), frame.
    unfold create_modbus_response. rewrite E, Ef. cbn [try_except]. auto.
Qed.

End CodecFacts.

Lemma response_round_trip_witness :
  (0 <= 1 < 65536) /\ (0 <= 1 < 256) /\
  is_read 3 = true /\ encodable 3 [VInt 1000] /\
  exists body frame,
    response_body 3 [VInt 1000] = Ok (3, body) /\
    create_modbus_response 1 1 3 [VInt 1000] = Ok frame /\
    length_field frame = 1 + 1 + len body /\
    parse_modbus_request frame =
      Some {| transaction_id := 1; unit_id := 1; function_code := 3; data := body |}.
Proof.
  assert (Ht : 0 <= 1 < 65536) by lia.
  assert (Hu : 0 <= 1 < 256) by lia.
  assert (He : encodable 3 [VInt 1000]).
  { split; [vm_compute; discriminate | eexists; reflexivity]. }
  split; [exact Ht|]. split; [exact Hu|]. split; [reflexivity|]. split; [exact He|].
  exact (proj2 (response_round_trip 1 1 3 Ht Hu) [VInt 1000] eq_refl He).
Defined.

(** ** Generators *)

Lemma Qint_floor (t : Q) : (0 <= t)%Q -> Qint t = Qfloor t.
Proof.
  destruct t as [n d]. unfold Qle, Qint, Qfloor. cbn. intros H.
  apply Z.quot_div_nonneg; lia.
Qed.

Lemma Qlt_bool_iff (a b : Q) : Qlt_bool a b = true <-> (a < b)%Q.
Proof.
  unfold Qlt_bool. rewrite Qlt_alt. destruct (a ?= b)%Q; split; congruence.
Qed.

(** [a % p] for a positive [p]: the remainder of the floored division. *)
Lemma Qmod_spec (a p : Q) : (0 < p)%Q ->
  (a == inject_Z (Qfloor (a / p)) * p + Qmod a p)%Q /\
  (0 <= Qmod a p)%Q /\ (Qmod a p < p)%Q.
Proof.
  intros Hp. unfold Qmod.
  assert (Hx : (a == (a / p) * p)%Q).
  { field. intros E. rewrite E in Hp. discriminate Hp. }
  pose proof (Qfloor_le (a / p)) as Hlo.
  pose proof (Qlt_floor (a / p)) as Hhi.
  rewrite inject_Z_plus in Hhi.
  set (k := inject_Z (Qfloor (a / p))) in *.
  set (x := (a / p)%Q) in *.
  split; [ring|].
  split.
  - setoid_replace (a - p * k)%Q with (p * (x - k))%Q by (rewrite Hx at 1; ring).
    apply Qmult_le_0_compat; [apply Qlt_le_weak; assumption|].
    unfold Qminus. rewrite <- Qle_minus_iff. assumption.
  - setoid_replace (a - p * k)%Q with (p * (x - k))%Q by (rewrite Hx at 1; ring).
    setoid_replace p with (p * 1)%Q at 2 by ring.
    apply Qmult_lt_l; [assumption|].
    apply Qplus_lt_l with (z := k).
    setoid_replace (x - k + k)%Q with x by ring.
    setoid_replace (1 + k)%Q with (k + 1)%Q by ring. assumption.
Qed.

(** C8 (as amended). For a period [p > 0] the generator returns 1 when
    [floor(now) mod p < floor(p / 2)] and 0 otherwise: the threshold is
    the floored half of the period, [p // 2]. It is the exact half, as C8
    has it, when [p] is an even integer. *)
Theorem periodic_boolean_func_spec (p now : Q) :
  (0 < p)%Q -> (0 <= now)%Q ->
  exists (k : Z) (r : Q),
    (inject_Z (Qfloor now) == inject_Z k * p + r)%Q /\
    (0 <= r)%Q /\ (r < p)%Q /\
    periodic_boolean_func p now =
      Ok (if Qlt_le_dec r (inject_Z (Qfloor (p / 2))) then 1 else 0) /\
    (forall h : Z, (p == inject_Z (2 * h))%Q ->
       (inject_Z (Qfloor (p / 2)) == p / 2)%Q).
Proof.
  intros Hp Hnow.
  destruct (Qmod_spec (inject_Z (Qfloor now)) p Hp) as (Hdiv & Hlo & Hhi).
  exists (Qfloor (inject_Z (Qfloor now) / p)), (Qmod (inject_Z (Qfloor now)) p).
  repeat split; try assumption.
  - unfold periodic_boolean_func.
    assert (E : Qeq_bool p 0 = false).
    { destruct (Qeq_bool p 0) eqn:B; [|reflexivity].
      apply Qeq_bool_iff in B. rewrite B in Hp. discriminate Hp. }
    rewrite E, Qint_floor by assumption. unfold Qfloordiv. f_equal.
    destruct (Qlt_le_dec _ _) as [Hlt|Hge].
    + apply Qlt_bool_iff in Hlt. now rewrite Hlt.
    + destruct (Qlt_bool _ _) eqn:B; [|reflexivity].
      apply Qlt_bool_iff in B. exfalso. apply (Qlt_not_le _ _ B Hge).
  - intros h Hh.
    assert (Hhalf : (p / 2 == inject_Z h)%Q).
    { rewrite Hh, inject_Z_mult. field. }
    rewrite (Qfloor_comp _ _ Hhalf), Qfloor_Z. symmetry. exact Hhalf.
Qed.

Lemma periodic_boolean_func_spec_witness :
  (0 < 10)%Q /\ (0 <= 1234)%Q /\
  exists (k : Z) (r : Q),
    (inject_Z (Qfloor 1234) == inject_Z k * 10 + r)%Q /\
    (0 <= r)%Q /\ (r < 10)%Q /\
    periodic_boolean_func 10 1234 =
      Ok (if Qlt_le_dec r (inject_Z (Qfloor (10 / 2))) then 1 else 0) /\
    (forall h : Z, (10 == inject_Z (2 * h))%Q ->
       (inject_Z (Qfloor (10 / 2)) == 10 / 2)%Q).
Proof.
  assert (Hp : (0 < 10)%Q) by reflexivity.
  assert (Hn : (0 <= 1234)%Q) by (unfold Qle; simpl; lia).
  split; [exact Hp|]. split; [exact Hn|].
  exact (periodic_boolean_func_spec 10 1234 Hp Hn).
Defined.

(** C8 (as stated) fails for the period 3 at time 1: [1 mod 3 = 1] is
    below the exact half 3/2, yet the generator returns 0, since
    [3 // 2 = 1]. *)
Lemma periodic_boolean_func_odd_period :
  (0 < 3)%Q /\
  (Qmod (inject_Z (Qfloor 1)) 3 < 3 / 2)%Q /\
  periodic_boolean_func 3 1 = Ok 0.
Proof.
  repeat split.
Qed.

(** ** Stateful computations *)

Lemma bind_ok {A B} (m : M A) (k : A -> M B) (s : simulator) (b : B) (s' : simulator) :
  bind m k s = (Ok b, s') <->
  exists a s1, m s = (Ok a, s1) /\ k a s1 = (Ok b, s').
Proof.
  unfold bind. destruct (m s) as [[a|e] s1]; split.
  - intros H. eauto.
  - intros (a' & s1' & E & H). now inversion E; subst.
  - discriminate.
  - intros (a' & s1' & E & H). discriminate.
Qed.

Lemma bind_run {A B} (m : M A) (k : A -> M B) (s : simulator) (a : A) (s1 : simulator) :
  m s = (Ok a, s1) -> bind m k s = k a s1.
Proof. intros E. unfold bind. now rewrite E. Qed.

Lemma bind_raise {A B} (m : M A) (k : A -> M B) (s : simulator) (e : exn) (s1 : simulator) :
  m s = (Raise e, s1) -> bind m k s = (Raise e, s1).
Proof. intros E. unfold bind. now rewrite E. Qed.


Section Preserves.
Variable R : simulator -> simulator -> Prop.
Hypothesis R_refl : forall s, R s s.
Hypothesis R_trans : forall s1 s2 s3, R s1 s2 -> R s2 s3 -> R s1 s3.

Lemma preserves_ret {A} (a : A) : preserves R (ret a).
Proof. intros s r s' H. inversion H. apply R_refl. Qed.

Lemma preserves_raise {A} (e : exn) : preserves R (@raise A e).
Proof. intros s r s' H. inversion H. apply R_refl. Qed.

Lemma preserves_lift {A} (x : res A) : preserves R (lift x).
Proof. intros s r s' H. inversion H. apply R_refl. Qed.

Lemma preserves_bind {A B} (m : M A) (k : A -> M B) :
  preserves R m -> (forall a, preserves R (k a)) -> preserves R (bind m k).
Proof.
  intros Hm Hk s r s' H. unfold bind in H.
  destruct (m s) as [[a|e] s1] eqn:E.
  - eapply R_trans; [eapply Hm; eassumption | eapply Hk; eassumption].
  - inversion H; subst. eapply Hm; eassumption.
Qed.

Lemma preserves_try {A} (m h : M A) :
  preserves R m -> preserves R h -> preserves R (try_M m h).
Proof.
  intros Hm Hh s r s' H. unfold try_M in H.
  destruct (m s) as [[a|e] s1] eqn:E.
  - inversion H; subst. eapply Hm; eassumption.
  - eapply R_trans; [eapply Hm; eassumption | eapply Hh; eassumption].
Qed.

Lemma preserves_for_each {A} (xs : list A) (f : A -> M unit) :
  (forall x, In x xs -> preserves R (f x)) -> preserves R (for_each xs f).
Proof.
  induction xs as [|x xs IH]; intros Hf; cbn [for_each].
  - apply preserves_ret.
  - apply preserves_bind; [apply Hf; now left|].
    intros _. apply IH. intros y Hy. apply Hf. now right.
Qed.

Lemma preserves_fold_M {A B} (xs : list A) (f : B -> A -> M B) (b : B) :
  (forall b x, In x xs -> preserves R (f b x)) -> preserves R (fold_M xs f b).
Proof.
  revert b. induction xs as [|x xs IH]; intros b Hf; cbn [fold_M].
  - apply preserves_ret.
  - apply preserves_bind; [apply Hf; now left|].
    intros b'. apply IH. intros b'' y Hy. apply Hf. now right.
Qed.

End Preserves.


Lemma heap_only_refl (s : simulator) : heap_only s s.
Proof. unfold heap_only. now destruct s. Qed.

Lemma heap_only_trans (s1 s2 s3 : simulator) :
  heap_only s1 s2 -> heap_only s2 s3 -> heap_only s1 s3.
Proof. unfold heap_only. intros H1 H2. rewrite H2, H1. reflexivity. Qed.

Lemma heap_only_load (s s' : simulator) (l : loc) :
  heap_only s s' -> load l s' = load l s.
Proof. intros H. rewrite H. now destruct l. Qed.

Lemma heap_only_store (s s' : simulator) (l : loc) (c : config) :
  heap_only s s' -> heap_only (store l c s) (store l c s').
Proof.
  unfold heap_only. intros H. rewrite H at 1. now destruct l.
Qed.

Lemma call_heap_only (id : nat) (args : list pyval) (t : Q) :
  preserves heap_only (call id args t).
Proof.
  intros s r s' H. unfold call in H.
  destruct (nth_error (heap s) id) as [f|].
  - destruct (body f args _ (cells f)) as [r' cells']. inversion H; subst.
    reflexivity.
  - inversion H; subst. apply heap_only_refl.
Qed.

Lemma param_count_heap_only (id : nat) : preserves heap_only (param_count id).
Proof.
  intros s r s' H. unfold param_count in H.
  destruct (nth_error (heap s) id); inversion H; subst; apply heap_only_refl.
Qed.

Lemma closure_heap_only (id : nat) : preserves heap_only (closure id).
Proof.
  intros s r s' H. unfold closure in H.
  destruct (nth_error (heap s) id); inversion H; subst; apply heap_only_refl.
Qed.

Ltac heap_only_tac :=
  repeat first
    [ apply preserves_try; [exact heap_only_trans | | ]
    | apply preserves_bind; [exact heap_only_trans | | intros ? ]
    | apply preserves_ret; exact heap_only_refl
    | apply preserves_lift; exact heap_only_refl
    | apply preserves_raise; exact heap_only_refl
    | apply call_heap_only
    | apply param_count_heap_only
    | apply closure_heap_only
    | match goal with |- preserves _ (if ?b then _ else _) => destruct b end
    | match goal with |- preserves _ (match ?v with _ => _ end) => destruct v end ].

Section Engine.
Context {T : PyText}.

Lemma generate_data_base_heap_only (c : config) (t : Q) :
  preserves heap_only (generate_data_base c t).
Proof.
  unfold generate_data_base, generate_value, produce.
  destruct (is_bit_config c); destruct (value c); heap_only_tac.
Qed.

Lemma generate_data_extended_heap_only (c : config) (t : Q) :
  preserves heap_only (generate_data_extended c t).
Proof.
  unfold generate_data_extended.
  destruct (value c); heap_only_tac.
Qed.

Lemma generate_data_heap_only (c : config) (t : Q) :
  preserves heap_only (generate_data c t).
Proof.
  intros s r s' H. unfold generate_data in H. destruct (class s).
  - eapply generate_data_base_heap_only; eassumption.
  - eapply generate_data_extended_heap_only; eassumption.
Qed.

End Engine.

(** ** Dictionaries and locations *)

Lemma dict_get_set_same {A} (d : dict A) (k : Z) (v : A) :
  dict_get (dict_set d k v) k = Some v.
Proof.
  induction d as [|[k' v'] d IH]; cbn [dict_set dict_get].
  - now rewrite Z.eqb_refl.
  - destruct (k' =? k) eqn:E; cbn [dict_get].
    + now rewrite Z.eqb_refl.
    + now rewrite E.
Qed.

Lemma dict_get_set_other {A} (d : dict A) (k k' : Z) (v : A) :
  k <> k' -> dict_get (dict_set d k v) k' = dict_get d k'.
Proof.
  intros N. induction d as [|[k0 v0] d IH]; cbn [dict_set dict_get].
  - now replace (k =? k') with false by lia.
  - destruct (k0 =? k) eqn:E; cbn [dict_get].
    + apply Z.eqb_eq in E. subst k0. now replace (k =? k') with false by lia.
    + now rewrite IH.
Qed.

Lemma keys_dict_set {A} (d : dict A) (k : Z) (v : A) :
  dict_mem d k = true -> keys (dict_set d k v) = keys d.
Proof.
  unfold dict_mem, keys. induction d as [|[k0 v0] d IH]; cbn [dict_set dict_get map fst].
  - discriminate.
  - destruct (k0 =? k) eqn:E; cbn [map fst].
    + apply Z.eqb_eq in E. now subst.
    + intros H. now rewrite IH.
Qed.

Lemma dict_get_In {A} (d : dict A) (k : Z) :
  In k (keys d) -> exists v, dict_get d k = Some v.
Proof.
  unfold keys. induction d as [|[k0 v0] d IH]; cbn [map fst In dict_get].
  - contradiction.
  - intros [->|H].
    + rewrite Z.eqb_refl. eauto.
    + destruct (k0 =? k); eauto.
Qed.

Lemma space_eqb_refl (sp : space) : space_eqb sp sp = true.
Proof. now destruct sp. Qed.

Lemma space_eqb_eq (a b : space) : space_eqb a b = true <-> a = b.
Proof. destruct a, b; cbn; split; congruence. Qed.

Lemma upd_same {A} (f : space -> A) (sp : space) (a : A) : upd f sp a sp = a.
Proof. unfold upd. now rewrite space_eqb_refl. Qed.

Lemma upd_other {A} (f : space -> A) (sp sp' : space) (a : A) :
  sp <> sp' -> upd f sp a sp' = f sp'.
Proof.
  intros N. unfold upd. destruct (space_eqb sp sp') eqn:E; [|reflexivity].
  apply space_eqb_eq in E. contradiction.
Qed.

Lemma load_store_same (l : loc) (c : config) (s : simulator) :
  load l (store l c s) = Some c.
Proof.
  destruct l as [sp a|sp a b]; cbn [load store with_data_config with_bit_config
                                      data_config bit_config].
  - rewrite upd_same. apply dict_get_set_same.
  - rewrite upd_same, dict_get_set_same. apply dict_get_set_same.
Qed.

Lemma load_store_other (l l' : loc) (c : config) (s : simulator) :
  l <> l' -> load l' (store l c s) = load l' s.
Proof.
  intros N.
  destruct l as [sp a|sp a b], l' as [sp' a'|sp' a' b'];
    cbn [load store with_data_config with_bit_config data_config bit_config];
    try reflexivity.
  - destruct (space_eqb sp sp') eqn:E.
    + apply space_eqb_eq in E. subst sp'. rewrite upd_same.
      apply dict_get_set_other. congruence.
    + rewrite upd_other; [reflexivity|]. intros ->. now rewrite space_eqb_refl in E.
  - destruct (space_eqb sp sp') eqn:E.
    + apply space_eqb_eq in E. subst sp'. rewrite upd_same.
      destruct (Z.eq_dec a a') as [->|Na].
      * rewrite dict_get_set_same.
        rewrite dict_get_set_other by congruence.
        now destruct (dict_get (bit_config s sp) a').
      * now rewrite dict_get_set_other.
    + rewrite upd_other; [reflexivity|]. intros ->. now rewrite space_eqb_refl in E.
Qed.

Lemma store_data_config_bit (sp : space) (a b : Z) (c : config) (s : simulator) :
  data_config (store (BitLoc sp a b) c s) = data_config s.
Proof. reflexivity. Qed.

(** ** Value generation *)

Section Generation.
Context {T : PyText}.


Lemma land_FFFFFFFF_range (z : Z) : 0 <= Z.land z 0xFFFFFFFF < 4294967296.
Proof.
  change 0xFFFFFFFF with (Z.ones 32). rewrite Z.land_ones by lia.
  change (2 ^ 32) with 4294967296. apply Z.mod_pos_bound. lia.
Qed.

(** A conversion gives a value of the declared type or the integer 0,
    or lets an [OverflowError] through. *)
Lemma convert_to_data_type_cases (v : pyval) (dt : dtype) :
  (exists w, convert_to_data_type v dt = Ok w /\ (typed dt w \/ w = VInt 0)) \/
  convert_to_data_type v dt = Raise OverflowError.
Proof.
  assert (Hi : (exists z, py_int v = Ok z) \/ py_int v = Raise ValueError
               \/ py_int v = Raise TypeError \/ py_int v = Raise OverflowError).
  { destruct v as [ |b|z|f|s|l|id]; cbn [py_int]; eauto.
    - destruct f; eauto.
    - destruct (int_of_str s); eauto. }
  assert (Hf : (exists f, py_float v = Ok f) \/ py_float v = Raise ValueError
               \/ py_float v = Raise TypeError \/ py_float v = Raise OverflowError).
  { destruct v as [ |b|z|f|s|l|id]; cbn [py_float]; eauto.
    - destruct (float_of_Z z); eauto.
    - destruct (float_of_str s); eauto. }
  unfold convert_to_data_type.
  destruct dt; cbn [typed];
    try (destruct Hi as [[z ->] | [-> | [-> | ->]]]; cbn; eauto 8 using land_FFFF_range, land_FFFFFFFF_range);
    try (destruct Hf as [[f ->] | [-> | [-> | ->]]]; cbn; eauto 8);
    cbn; eauto 8.
Qed.

Lemma convert_zero (dt : dtype) :
  exists w, convert_to_data_type (VInt 0) dt = Ok w /\ typed dt w.
Proof.
  destruct dt; cbn; eexists; (split; [reflexivity|]); cbn; eauto;
    eexists; split; eauto; lia.
Qed.

(** A [try] whose handler converts 0 returns. *)
Lemma try_convert_zero (m : M pyval) (dt : dtype) (s : simulator) :
  preserves heap_only m ->
  exists v s', try_M m (lift (convert_to_data_type (VInt 0) dt)) s = (Ok v, s')
               /\ heap_only s s'.
Proof.
  intros Hm. unfold try_M. destruct (m s) as [[a|e] s1] eqn:E.
  - exists a, s1. split; [reflexivity | eapply Hm; eassumption].
  - destruct (convert_zero dt) as (w & Ew & _). exists w, s1.
    unfold lift. rewrite Ew. split; [reflexivity | eapply Hm; eassumption].
Qed.

Lemma generate_data_constant (c : config) (t : Q) (s : simulator) :
  callable (value c) = false ->
  generate_data c t s = (convert_to_data_type (value c) (data_type c), s).
Proof.
  intros H. unfold generate_data, generate_data_base, generate_data_extended,
              generate_value.
  destruct (class s), (is_bit_config c), (value c); try discriminate; reflexivity.
Qed.

Lemma generate_data_callable (c : config) (t : Q) (s : simulator) :
  callable (value c) = true ->
  exists v s', generate_data c t s = (Ok v, s') /\ heap_only s s'.
Proof.
  intros H. destruct (value c) as [ | | | | | |id] eqn:Ev; try discriminate.
  unfold generate_data, generate_data_base, generate_data_extended, generate_value.
  rewrite Ev.
  destruct (class s), (is_bit_config c); apply try_convert_zero;
    unfold produce; heap_only_tac.
Qed.

End Generation.

(** ** Producer calls *)



Lemma no_call_refl (s : simulator) : no_call s s.
Proof. reflexivity. Qed.

Lemma no_call_trans (s1 s2 s3 : simulator) :
  no_call s1 s2 -> no_call s2 s3 -> no_call s1 s3.
Proof. unfold no_call. congruence. Qed.

Lemma one_call_after {A B} (id : nat) (m : M A) (k : A -> M B) :
  preserves no_call m -> (forall a, preserves (one_call id) (k a)) ->
  preserves (one_call id) (bind m k).
Proof.
  intros Hm Hk s r s' H. unfold bind in H.
  destruct (m s) as [[a|e] s1] eqn:E.
  - pose proof (Hm _ _ _ E) as H1. pose proof (Hk _ _ _ _ H) as H2.
    unfold no_call, one_call in *. rewrite <- H1. exact H2.
  - inversion H; subst. left. eapply Hm; eassumption.
Qed.

Lemma one_call_before {A B} (id : nat) (m : M A) (k : A -> M B) :
  preserves (one_call id) m -> (forall a, preserves no_call (k a)) ->
  preserves (one_call id) (bind m k).
Proof.
  intros Hm Hk s r s' H. unfold bind in H.
  destruct (m s) as [[a|e] s1] eqn:E.
  - pose proof (Hm _ _ _ E) as H1. pose proof (Hk _ _ _ _ H) as H2.
    unfold no_call, one_call in *. rewrite H2. exact H1.
  - inversion H; subst. eapply Hm; eassumption.
Qed.

Lemma one_call_try {A} (id : nat) (m h : M A) :
  preserves (one_call id) m -> preserves no_call h ->
  preserves (one_call id) (try_M m h).
Proof.
  intros Hm Hh s r s' H. unfold try_M in H.
  destruct (m s) as [[a|e] s1] eqn:E.
  - inversion H; subst. eapply Hm; eassumption.
  - pose proof (Hm _ _ _ E) as H1. pose proof (Hh _ _ _ H) as H2.
    unfold no_call, one_call in *. rewrite H2. exact H1.
Qed.

Lemma no_call_one_call {A} (id : nat) (m : M A) :
  preserves no_call m -> preserves (one_call id) m.
Proof. intros Hm s r s' H. left. eapply Hm; eassumption. Qed.

Lemma call_one_call (id : nat) (args : list pyval) (t : Q) :
  preserves (one_call id) (call id args t).
Proof.
  intros s r s' H. unfold call in H.
  destruct (nth_error (heap s) id) as [f|].
  - destruct (body f args _ (cells f)) as [r' cells']. inversion H; subst.
    right. reflexivity.
  - inversion H; subst. now left.
Qed.

Lemma param_count_no_call (id : nat) : preserves no_call (param_count id).
Proof.
  intros s r s' H. unfold param_count in H.
  destruct (nth_error (heap s) id); inversion H; subst; reflexivity.
Qed.

Lemma closure_no_call (id : nat) : preserves no_call (closure id).
Proof.
  intros s r s' H. unfold closure in H.
  destruct (nth_error (heap s) id); inversion H; subst; reflexivity.
Qed.

Ltac no_call_tac :=
  repeat first
    [ apply preserves_bind; [exact no_call_trans | | intros ? ]
    | apply preserves_ret; exact no_call_refl
    | apply preserves_lift; exact no_call_refl
    | apply preserves_raise; exact no_call_refl
    | apply param_count_no_call
    | apply closure_no_call
    | match goal with |- preserves _ (if ?b then _ else _) => destruct b end
    | match goal with |- preserves _ (match ?v with _ => _ end) => destruct v end ].

Ltac one_call_tac :=
  first
    [ apply call_one_call
    | apply no_call_one_call; solve [no_call_tac]
    | apply one_call_try; [ one_call_tac | solve [no_call_tac] ]
    | apply one_call_after; [ solve [no_call_tac] | intros ?; one_call_tac ]
    | apply one_call_before; [ one_call_tac | intros ?; solve [no_call_tac] ]
    | match goal with
      | |- preserves _ (if ?b then _ else _) => destruct b; one_call_tac
      end ].

Section Freshness.
Context {T : PyText}.

Lemma generate_data_base_one_call (c : config) (t : Q) (id : nat) :
  value c = VFunc id -> preserves (one_call id) (generate_data_base c t).
Proof.
  intros Ev. unfold generate_data_base, generate_value, produce. rewrite Ev.
  destruct (is_bit_config c); one_call_tac.
Qed.

Lemma generate_data_extended_one_call (c : config) (t : Q) (id : nat) :
  value c = VFunc id -> preserves (one_call id) (generate_data_extended c t).
Proof.
  intros Ev. unfold generate_data_extended. rewrite Ev. cbv zeta. one_call_tac.
Qed.

Lemma generate_data_one_call (c : config) (t : Q) (id : nat) :
  value c = VFunc id -> preserves (one_call id) (generate_data c t).
Proof.
  intros Ev s r s' H. unfold generate_data in H. destruct (class s).
  - eapply generate_data_base_one_call; eassumption.
  - eapply generate_data_extended_one_call; eassumption.
Qed.

Lemma generate_data_calls (c : config) (t : Q) (s : simulator) (r : res pyval)
    (s' : simulator) :
  generate_data c t s = (r, s') ->
  calls s' = calls s \/ exists id, value c = VFunc id /\ calls s' = calls s ++ [id].
Proof.
  intros H. destruct (callable (value c)) eqn:Ec.
  - destruct (value c) as [ | | | | | |id] eqn:Ev; try discriminate.
    destruct (generate_data_one_call c t id Ev _ _ _ H) as [E|E]; eauto.
  - rewrite generate_data_constant in H by assumption. inversion H; subst. now left.
Qed.

Lemma refresh_not_due (l : loc) (c : config) (t : Q) (s : simulator) :
  load l s = Some c -> due c t = false -> refresh l t s = (Ok tt, s).
Proof.
  intros Hl Hd. unfold refresh, bind, get_config. now rewrite Hl, Hd.
Qed.

Lemma refresh_due (l : loc) (c : config) (t : Q) (s : simulator) :
  load l s = Some c -> due c t = true ->
  refresh l t s =
    match generate_data (with_last_update c t) t (store l (with_last_update c t) s) with
    | (Ok v, s') => (Ok tt, store l (with_current_value (with_last_update c t) v) s')
    | (Raise e, s') => (Raise e, s')
    end.
Proof.
  intros Hl Hd. unfold refresh, bind, get_config. rewrite Hl, Hd.
  now destruct (generate_data _ _ _) as [[v|e] s'].
Qed.

Lemma refresh_absent (l : loc) (t : Q) (s : simulator) :
  load l s = None -> refresh l t s = (Raise KeyError, s).
Proof.
  intros Hl. unfold refresh, bind, get_config. now rewrite Hl.
Qed.

(** C2 (as amended). Reading an entry refreshes it only if due. When
    [now - last_refresh < interval] the read changes nothing and calls no
    producer. When [now - last_refresh >= interval] the read stamps
    [last_refresh := now], generates once, and calls the producer at most
    once, however many intervals have gone by; the cache then holds the
    generated value. A read less than an interval after such a refresh
    changes nothing. *)
Theorem refresh_if_due_policy (l : loc) (c : config) (now : Q) (s : simulator) :
  load l s = Some c ->
  (due c now = false -> refresh l now s = (Ok tt, s)) /\
  (due c now = true ->
   exists r s1,
     generate_data (with_last_update c now) now (store l (with_last_update c now) s)
       = (r, s1) /\
     (calls s1 = calls s \/
      exists id, value c = VFunc id /\ calls s1 = calls s ++ [id]) /\
     match r with
     | Ok v =>
         refresh l now s
           = (Ok tt, store l (with_current_value (with_last_update c now) v) s1) /\
         load l (store l (with_current_value (with_last_update c now) v) s1)
           = Some (with_current_value (with_last_update c now) v)
     | Raise e => refresh l now s = (Raise e, s1) /\ load l s1 = Some (with_last_update c now)
     end) /\
  (forall s1 t2,
     due c now = true -> refresh l now s = (Ok tt, s1) ->
     (t2 - now < interval c)%Q -> refresh l t2 s1 = (Ok tt, s1)).
Proof.
  intros Hl. split; [now apply refresh_not_due|].
  assert (Hdue : due c now = true ->
    exists r s1,
     generate_data (with_last_update c now) now (store l (with_last_update c now) s)
       = (r, s1) /\
     (calls s1 = calls s \/
      exists id, value c = VFunc id /\ calls s1 = calls s ++ [id]) /\
     match r with
     | Ok v =>
         refresh l now s
           = (Ok tt, store l (with_current_value (with_last_update c now) v) s1) /\
         load l (store l (with_current_value (with_last_update c now) v) s1)
           = Some (with_current_value (with_last_update c now) v)
     | Raise e => refresh l now s = (Raise e, s1) /\ load l s1 = Some (with_last_update c now)
     end).
  { intros Hd. rewrite (refresh_due l c now s Hl Hd).
    destruct (generate_data _ _ _) as [r s1] eqn:E. exists r, s1.
    split; [reflexivity|]. split.
    - destruct (generate_data_calls _ _ _ _ _ E) as [Ec|(id & Ev & Ec)].
      + left. rewrite Ec. now destruct l.
      + right. exists id. split; [exact Ev|]. rewrite Ec. now destruct l.
    - destruct r as [v|e].
      + split; [reflexivity | apply load_store_same].
      + split; [reflexivity|].
        rewrite (heap_only_load _ _ l (generate_data_heap_only _ _ _ _ _ E)).
        apply load_store_same. }
  split; [exact Hdue|].
  intros s1 t2 Hd Hr Ht.
  destruct (Hdue Hd) as (r & s1' & E & _ & Hm).
  destruct r as [v|e].
  - destruct Hm as [Hr' Hl']. rewrite Hr in Hr'. inversion Hr'; subst s1.
    apply (refresh_not_due _ _ _ _ Hl').
    unfold due. cbn [interval last_update with_current_value with_last_update].
    destruct (Qle_bool (interval c) (t2 - now)) eqn:B; [|reflexivity].
    apply Qle_bool_iff in B. exfalso. apply (Qlt_not_le _ _ Ht B).
  - destruct Hm as [Hr' _]. rewrite Hr in Hr'. discriminate.
Qed.

End Freshness.

Lemma refresh_if_due_policy_witness :
  load (DataLoc holding_registers 0) ramp_store = Some ramp_entry /\
  refresh (DataLoc holding_registers 0) (1 # 2) ramp_store = (Ok tt, ramp_store).
Proof.
  split; [reflexivity|].
  apply (proj1 (refresh_if_due_policy (DataLoc holding_registers 0) ramp_entry
                  (1 # 2) ramp_store eq_refl)).
  reflexivity.
Defined.

(** C2, the claim as stated fails: a read five intervals after the last
    refresh calls the producer once, not five times, and the counter
    advances by one step. *)
Lemma refresh_once_for_five_boundaries :
  boundaries_crossed ramp_entry 5 = 5 /\
  calls (snd (refresh (DataLoc holding_registers 0) 5 ramp_store)) = [0%nat] /\
  option_map cached
    (load (DataLoc holding_registers 0)
       (snd (refresh (DataLoc holding_registers 0) 5 ramp_store)))
    = Some (VInt 1) /\
  Z.of_nat (length (calls (snd (refresh (DataLoc holding_registers 0) 5 ramp_store))))
    <> boundaries_crossed ramp_entry 5.
Proof.
  split; [reflexivity|]. split; [reflexivity|]. split; [reflexivity|].
  vm_compute. discriminate.
Qed.

(** ** Installing configuration *)

Lemma same_registers_refl (s : simulator) : same_registers s s.
Proof. reflexivity. Qed.

Lemma same_registers_trans (s1 s2 s3 : simulator) :
  same_registers s1 s2 -> same_registers s2 s3 -> same_registers s1 s3.
Proof. unfold same_registers. congruence. Qed.

Lemma heap_only_same_registers (s s' : simulator) :
  heap_only s s' -> same_registers s s'.
Proof. intros H. unfold same_registers. now rewrite H. Qed.

Section Ingest.
Context {T : PyText}.

Lemma initialise_run (l : loc) (c : config) (t : Q) (s : simulator) :
  load l s = Some c ->
  initialise l t s =
    match generate_data (with_last_update c t) t (store l (with_last_update c t) s) with
    | (Ok v, s') => (Ok tt, store l (with_current_value (with_last_update c t) v) s')
    | (Raise e, s') => (Raise e, s')
    end.
Proof.
  intros Hl. unfold initialise, bind, get_config, put. rewrite Hl.
  now destruct (generate_data _ _ _) as [[v|e] s'].
Qed.

Lemma initialise_absent (l : loc) (t : Q) (s : simulator) :
  load l s = None -> initialise l t s = (Raise KeyError, s).
Proof. intros Hl. unfold initialise, bind, get_config. now rewrite Hl. Qed.

Lemma initialise_bit_same_registers (sp : space) (a b : Z) (t : Q) :
  preserves same_registers (initialise (BitLoc sp a b) t).
Proof.
  intros s r s' H. destruct (load (BitLoc sp a b) s) as [c|] eqn:Hl.
  - rewrite (initialise_run _ _ _ _ Hl) in H.
    destruct (generate_data _ _ _) as [[v|e] s1] eqn:E;
      apply generate_data_heap_only, heap_only_same_registers in E;
      inversion H; subst; unfold same_registers in *;
      rewrite ?store_data_config_bit in *; exact E.
  - rewrite (initialise_absent _ _ _ Hl) in H. inversion H. reflexivity.
Qed.

Lemma set_bit_same_registers (sp : space) (a : Z) (t : Q) (item : Z * bit_spec) :
  preserves same_registers (set_bit sp a t item).
Proof.
  destruct item as [bit spec]. unfold set_bit.
  destruct ((bit <? 0) || (15 <? bit)).
  - apply preserves_raise. exact same_registers_refl.
  - apply preserves_bind; [exact same_registers_trans | |].
    + intros s r s' H. inversion H. reflexivity.
    + intros _. apply initialise_bit_same_registers.
Qed.

Lemma set_bit_out_of_range (sp : space) (a : Z) (t : Q) (bit : Z) (spec : bit_spec)
    (s : simulator) :
  bit < 0 \/ 15 < bit -> set_bit sp a t (bit, spec) s = (Raise ValueError, s).
Proof.
  intros H. unfold set_bit.
  replace ((bit <? 0) || (15 <? bit)) with true; [reflexivity|].
  symmetry. apply orb_true_iff. rewrite !Z.ltb_lt. exact H.
Qed.

(** The loop over the bits stops with an exception at an index outside
    0..15 at the latest. *)
Lemma for_each_set_bit_raises (sp : space) (a : Z) (t : Q) (bit_configs : dict bit_spec) :
  (exists bit spec, In (bit, spec) bit_configs /\ (bit < 0 \/ 15 < bit)) ->
  forall s, exists e s', for_each bit_configs (set_bit sp a t) s = (Raise e, s').
Proof.
  induction bit_configs as [|[b c] rest IH]; intros (bit & spec & Hin & Hb) s.
  - destruct Hin.
  - cbn [for_each]. unfold bind at 1.
    destruct (set_bit sp a t (b, c) s) as [[[]|e] s1] eqn:E; [|eauto].
    destruct Hin as [Heq|Hin].
    + inversion Heq; subst. rewrite set_bit_out_of_range in E by assumption.
      discriminate.
    + apply IH. eauto.
Qed.

Lemma has_bits_name (name : string) (sp : space) :
  space_of_name name = Some sp -> has_bits sp = true ->
  sp = holding_registers \/ sp = input_registers.
Proof. intros _. destruct sp; cbn; intros; try discriminate; auto. Qed.

End Ingest.

(** C9, the claim as stated fails: a register entry with interval -1 and
    an empty range list is installed without an error, and a bit list
    whose second index is 16 is rejected after bit 0 has been installed. *)
Lemma ingest_accepts_bad_interval :
  fst (set_data_config "holding_registers" 0 (VInt 7) (-1) (VList []) int16 0
         new_simulator) = Ok tt /\
  load (DataLoc holding_registers 0)
    (snd (set_data_config "holding_registers" 0 (VInt 7) (-1) (VList []) int16 0
            new_simulator))
    = Some {| value := VInt 7; interval := (-1)%Q; last_update := 0%Q;
              data_range := VList []; data_type := int16;
              current_value := Some (VInt 7); description := None;
              is_bit_config := false |} /\
  fst (set_bit_config "holding_registers" 0
         [(0, {| spec_value := Some (VBool true); spec_interval := None;
                 spec_data_range := None; spec_description := None |});
          (16, {| spec_value := Some (VBool true); spec_interval := None;
                  spec_data_range := None; spec_description := None |})]
         0 new_simulator) = Raise ValueError /\
  load (BitLoc holding_registers 0 0) new_simulator = None /\
  option_map cached
    (load (BitLoc holding_registers 0 0)
       (snd (set_bit_config "holding_registers" 0
         [(0, {| spec_value := Some (VBool true); spec_interval := None;
                 spec_data_range := None; spec_description := None |});
          (16, {| spec_value := Some (VBool true); spec_interval := None;
                  spec_data_range := None; spec_description := None |})]
         0 new_simulator))) = Some (VBool true).
Proof. repeat split. Qed.

(** ** Totality of value generation *)

(** C10 at the input where it fails: the constant [float('inf')] declared
    as ['int16'] makes [generate_data] raise [OverflowError] at every time
    and in every simulator; installing it raises, leaves the entry in
    place, and the next read of the address is answered with exception
    0x04. *)
Theorem generate_data_overflow {T : PyText} (t : Q) (s : simulator) :
  generate_data overflow_entry t s = (Raise OverflowError, s) /\
  fst (set_data_config "holding_registers" 0 (VFloat (S754_infinity false)) 1
         VNone int16 0 new_simulator) = Raise OverflowError /\
  res_map (option_map (map byte_val))
    (fst (handle_frame read_holding_0 11
            (snd (set_data_config "holding_registers" 0
                    (VFloat (S754_infinity false)) 1 VNone int16 0 new_simulator))))
    = Ok (Some [0; 9; 0; 0; 0; 3; 1; 131; 4]).
Proof.
  split; [|split].
  - now rewrite generate_data_constant.
  - reflexivity.
  - vm_compute. reflexivity.
Qed.

Lemma returns_bind {A B} (P : B -> Prop) (m : M A) (k : A -> M B) :
  (forall a, returns P (k a)) -> returns P (bind m k).
Proof.
  intros Hk s v s' H. unfold bind in H.
  destruct (m s) as [[a|e] s1]; [eapply Hk; eassumption | discriminate].
Qed.

Lemma returns_try {A} (P : A -> Prop) (m h : M A) :
  returns P m -> returns P h -> returns P (try_M m h).
Proof.
  intros Hm Hh s v s' H. unfold try_M in H.
  destruct (m s) as [[a|e] s1] eqn:E.
  - inversion H; subst. eapply Hm; eassumption.
  - eapply Hh; eassumption.
Qed.

Lemma returns_lift {A} (P : A -> Prop) (r : res A) :
  (forall a, r = Ok a -> P a) -> returns P (lift r).
Proof. intros Hr s v s' H. inversion H; subst. now apply Hr. Qed.

Lemma convert_returns {T : PyText} (v : pyval) (dt : dtype) :
  returns (fun w => typed dt w \/ w = VInt 0) (lift (convert_to_data_type v dt)).
Proof.
  apply returns_lift. intros w E.
  destruct (convert_to_data_type_cases v dt) as [(w' & E' & H)|E'];
    rewrite E' in E; [now inversion E; subst | discriminate].
Qed.

Ltac returns_tac :=
  repeat first
    [ apply convert_returns
    | apply returns_try
    | apply returns_bind; intros ?
    | match goal with |- returns _ (if ?b then _ else _) => destruct b end ].

(** A producer never makes [generate_data] raise: the call returns a
    value of the declared type or the integer 0, and touches nothing but
    the function objects and the call log. *)
Theorem generate_data_total_for_producers {T : PyText} (c : config) (t : Q)
    (s : simulator) :
  callable (value c) = true ->
  exists v s', generate_data c t s = (Ok v, s') /\ heap_only s s' /\
               (typed (data_type c) v \/ v = VInt 0).
Proof.
  intros H. destruct (generate_data_callable c t s H) as (v & s' & E & Hh).
  exists v, s'. split; [exact E|]. split; [exact Hh|].
  destruct (value c) as [ | | | | | |id] eqn:Ev; try discriminate.
  revert E. unfold generate_data, generate_data_base, generate_data_extended,
              generate_value, produce.
  rewrite Ev. cbv zeta.
  destruct (class s), (is_bit_config c);
    match goal with |- ?m s = _ -> _ =>
      assert (R : returns (fun w => typed (data_type c) w \/ w = VInt 0) m)
        by returns_tac;
      apply R
    end.
Qed.

Lemma generate_data_total_for_producers_witness :
  callable (value ramp_entry) = true /\
  exists v s', generate_data ramp_entry 5 ramp_store = (Ok v, s') /\
               heap_only ramp_store s' /\
               (typed (data_type ramp_entry) v \/ v = VInt 0).
Proof.
  split; [reflexivity|].
  apply (generate_data_total_for_producers ramp_entry 5 ramp_store). reflexivity.
Defined.

(** ** Reset *)

Lemma dict_get_keys {A} (d : dict A) (k : Z) (v : A) :
  dict_get d k = Some v -> In k (keys d).
Proof.
  unfold keys. induction d as [|[k0 v0] d IH]; cbn [map fst In dict_get].
  - discriminate.
  - destruct (k0 =? k) eqn:E; [left; lia | intros H; right; auto].
Qed.

Lemma loc_eq_dec (l l' : loc) : {l = l'} + {l <> l'}.
Proof. repeat decide equality. Qed.

Lemma same_entries_refl (s : simulator) : same_entries s s.
Proof. unfold same_entries. auto. Qed.

Lemma same_entries_trans (s1 s2 s3 : simulator) :
  same_entries s1 s2 -> same_entries s2 s3 -> same_entries s1 s3.
Proof.
  intros (C1 & B1 & O1 & D1) (C2 & B2 & O2 & D2).
  repeat split; try congruence.
  - destruct (D1 sp), (D2 sp). congruence.
  - intros a. destruct (D1 sp) as [_ E1], (D2 sp) as [_ E2].
    now rewrite E2, E1.
Qed.

Lemma heap_only_same_entries (s s' : simulator) :
  heap_only s s' -> same_entries s s'.
Proof. intros H. unfold same_entries. rewrite H. cbn. auto. Qed.

Lemma store_same_entries (sp : space) (a : Z) (c c' : config) (s : simulator) :
  load (DataLoc sp a) s = Some c -> static_fields c' = static_fields c ->
  same_entries s (store (DataLoc sp a) c' s).
Proof.
  intros Hl Hs. cbn [load] in Hl.
  repeat split; cbn [store with_data_config data_config].
  - destruct (space_eqb sp sp0) eqn:E.
    + apply space_eqb_eq in E. subst sp0. rewrite upd_same.
      apply keys_dict_set. unfold dict_mem. now rewrite Hl.
    + rewrite upd_other; [reflexivity|].
      intros ->. now rewrite space_eqb_refl in E.
  - intros a0. destruct (space_eqb sp sp0) eqn:E.
    + apply space_eqb_eq in E. subst sp0. rewrite upd_same.
      destruct (Z.eq_dec a a0) as [->|N].
      * rewrite dict_get_set_same, Hl. cbn. now rewrite Hs.
      * now rewrite dict_get_set_other.
    + rewrite upd_other; [reflexivity|].
      intros ->. now rewrite space_eqb_refl in E.
Qed.

Lemma heap_only_seeded (t : Q) (l : loc) (s s' : simulator) :
  heap_only s s' -> seeded t l s -> seeded t l s'.
Proof.
  intros H (c & Hl & Hc). exists c. now rewrite (heap_only_load _ _ _ H).
Qed.

Lemma store_seeded (t : Q) (l l0 : loc) (c' : config) (s : simulator) :
  (l = l0 -> last_update c' = t /\ current_value c' <> None) ->
  seeded t l s -> seeded t l (store l0 c' s).
Proof.
  intros H (c & Hl & Hc). destruct (loc_eq_dec l l0) as [->|N].
  - exists c'. split; [apply load_store_same | now apply H].
  - exists c. split; [|exact Hc]. rewrite load_store_other; [exact Hl | congruence].
Qed.

Section ResetData.
Context {T : PyText}.

Lemma reseed_same_entries (sp : space) (t : Q) (a : Z) :
  preserves same_entries (reseed sp t a).
Proof.
  intros s r s' H. unfold reseed in H.
  destruct (load (DataLoc sp a) s) as [c|] eqn:Hl.
  - rewrite (initialise_run _ _ _ _ Hl) in H.
    destruct (generate_data _ _ _) as [r1 s1] eqn:E.
    pose proof (generate_data_heap_only _ _ _ _ _ E) as Hh.
    assert (S1 : same_entries s s1).
    { eapply same_entries_trans;
        [apply (store_same_entries sp a c (with_last_update c t) s Hl); reflexivity
        | now apply heap_only_same_entries]. }
    destruct r1 as [v|e]; inversion H; subst; [|exact S1].
    eapply same_entries_trans; [exact S1|].
    apply (store_same_entries sp a (with_last_update c t)); [|reflexivity].
    rewrite (heap_only_load _ _ _ Hh). apply load_store_same.
  - rewrite (initialise_absent _ _ _ Hl) in H. inversion H.
    apply same_entries_refl.
Qed.

Lemma reseed_keeps_seeded (sp : space) (t : Q) (a : Z) (l : loc) :
  preserves (fun s s' => seeded t l s -> seeded t l s') (reseed sp t a).
Proof.
  intros s r s' H Hs. unfold reseed in H.
  destruct (load (DataLoc sp a) s) as [c|] eqn:Hl.
  - rewrite (initialise_run _ _ _ _ Hl) in H.
    destruct (generate_data _ _ _) as [r1 s1] eqn:E.
    pose proof (generate_data_heap_only _ _ _ _ _ E) as Hh.
    assert (S1 : seeded t l s1).
    { apply (heap_only_seeded _ _ _ _ Hh). apply store_seeded; [|exact Hs].
      intros ->. split; [reflexivity|].
      destruct Hs as (c0 & Hl0 & _ & Hc0). rewrite Hl in Hl0.
      inversion Hl0; subst. exact Hc0. }
    destruct r1 as [v|e]; injection H as _ <-; [|exact S1].
    apply (store_seeded t l (DataLoc sp a)
             (with_current_value (with_last_update c t) v) s1); [|exact S1].
    intros _. split; [reflexivity|discriminate].
  - rewrite (initialise_absent _ _ _ Hl) in H. inversion H; subst. exact Hs.
Qed.

Lemma reseed_ok (sp : space) (t : Q) (a : Z) (s s' : simulator) :
  reseed sp t a s = (Ok tt, s') -> seeded t (DataLoc sp a) s'.
Proof.
  intros H. unfold reseed in H.
  destruct (load (DataLoc sp a) s) as [c|] eqn:Hl.
  - rewrite (initialise_run _ _ _ _ Hl) in H.
    destruct (generate_data _ _ _) as [[v|e] s1]; [|discriminate].
    injection H as <-.
    exists (with_current_value (with_last_update c t) v).
    split; [apply (load_store_same (DataLoc sp a))|].
    split; [reflexivity|discriminate].
  - rewrite (initialise_absent _ _ _ Hl) in H. discriminate.
Qed.

Lemma keeps_seeded_trans (t : Q) (l : loc) (s1 s2 s3 : simulator) :
  (seeded t l s1 -> seeded t l s2) -> (seeded t l s2 -> seeded t l s3) ->
  seeded t l s1 -> seeded t l s3.
Proof. auto. Qed.

(** The loop over the addresses of one space. *)
Lemma reseed_all_keeps_seeded (sp : space) (t : Q) (ks : list Z) (l : loc) :
  preserves (fun s s' => seeded t l s -> seeded t l s') (for_each ks (reseed sp t)).
Proof.
  apply preserves_for_each; [auto | apply keeps_seeded_trans|].
  intros a _. apply reseed_keeps_seeded.
Qed.

Lemma reseed_all_same_entries (sp : space) (t : Q) (ks : list Z) :
  preserves same_entries (for_each ks (reseed sp t)).
Proof.
  apply preserves_for_each;
    [exact same_entries_refl | exact same_entries_trans|].
  intros a _. apply reseed_same_entries.
Qed.

Lemma reseed_all_ok (sp : space) (t : Q) (ks : list Z) (s s' : simulator) :
  for_each ks (reseed sp t) s = (Ok tt, s') ->
  forall a, In a ks -> seeded t (DataLoc sp a) s'.
Proof.
  revert s. induction ks as [|k ks IH]; intros s H a Ha; [destruct Ha|].
  cbn [for_each] in H. apply bind_ok in H. destruct H as ([] & s1 & E1 & E2).
  destruct Ha as [->|Ha].
  - apply (reseed_all_keeps_seeded _ _ _ _ _ _ _ E2). now apply reseed_ok in E1.
  - eapply IH; eassumption.
Qed.

(** The loop over the spaces. *)
Lemma reseed_spaces_same_entries (t : Q) (sps : list space) :
  preserves same_entries (for_each sps (reseed_space t)).
Proof.
  apply preserves_for_each;
    [exact same_entries_refl | exact same_entries_trans|].
  intros sp _ s r s' H. eapply reseed_all_same_entries. exact H.
Qed.

Lemma reseed_spaces_keeps_seeded (t : Q) (sps : list space) (l : loc) :
  preserves (fun s s' => seeded t l s -> seeded t l s') (for_each sps (reseed_space t)).
Proof.
  apply preserves_for_each; [auto | apply keeps_seeded_trans|].
  intros sp _ s r s' H. eapply reseed_all_keeps_seeded. exact H.
Qed.

Lemma reseed_spaces_ok (t : Q) (sps : list space) (s s' : simulator) :
  for_each sps (reseed_space t) s = (Ok tt, s') ->
  forall sp a, In sp sps -> In a (keys (data_config s sp)) ->
  seeded t (DataLoc sp a) s'.
Proof.
  revert s. induction sps as [|sp0 sps IH]; intros s H sp a Hsp Ha; [destruct Hsp|].
  cbn [for_each] in H. apply bind_ok in H. destruct H as ([] & s1 & E1 & E2).
  destruct Hsp as [->|Hsp].
  - apply (reseed_spaces_keeps_seeded _ _ _ _ _ _ E2).
    eapply reseed_all_ok; eassumption.
  - apply (IH _ E2 sp a Hsp).
    destruct (reseed_all_same_entries _ _ _ _ _ _ E1) as (_ & _ & _ & D).
    destruct (D sp) as [K _]. now rewrite K.
Qed.

Lemma In_spaces (sp : space) : In sp spaces.
Proof. destruct sp; cbn; auto. Qed.

(** What [reset_data] does in each state of the snapshot. With a snapshot
    saved, it makes the snapshot the register table as it was saved,
    cached values included: no producer is called, and function objects,
    their counters, the call log and the overlays stay as they are; from
    then on the snapshot is the table itself and a further reset changes
    nothing. Without a snapshot the entries are seeded again in place:
    addresses and static fields are kept, and when the reset returns,
    every entry is stamped with the reset time and holds a value. *)
Theorem reset_data_contract (now : Q) (s : simulator) :
  (forall d, original_data_config s = Copy d ->
     exists s', reset_data now s = (Ok tt, s') /\
       data_config s' = d /\ original_data_config s' = SameObject /\
       bit_config s' = bit_config s /\ heap s' = heap s /\ calls s' = calls s /\
       reset_data now s' = (Ok tt, s')) /\
  (original_data_config s = SameObject -> reset_data now s = (Ok tt, s)) /\
  (original_data_config s = NoSnapshot ->
     exists r s', reset_data now s = (r, s') /\ same_entries s s' /\
       (r = Ok tt ->
        forall sp a c, load (DataLoc sp a) s' = Some c ->
                       last_update c = now /\ current_value c <> None)).
Proof.
  split; [|split].
  - intros d Hd. eexists. unfold reset_data at 1. rewrite Hd.
    split; [reflexivity|]. repeat (split; [reflexivity|]). reflexivity.
  - intros Hs. unfold reset_data. now rewrite Hs.
  - intros Hn. unfold reset_data. rewrite Hn.
    change (for_each spaces _) with (for_each spaces (reseed_space now)).
    destruct (for_each spaces (reseed_space now) s) as [r s'] eqn:E.
    exists r, s'. split; [reflexivity|].
    pose proof (reseed_spaces_same_entries _ _ _ _ _ E) as Hsame.
    split; [exact Hsame|].
    intros -> sp a c Hl.
    destruct Hsame as (_ & _ & _ & D). destruct (D sp) as [K _].
    assert (Hin : In a (keys (data_config s sp))).
    { rewrite <- K. eapply dict_get_keys. exact Hl. }
    destruct (reseed_spaces_ok _ _ _ _ E sp a (In_spaces sp) Hin) as (c' & Hl' & Hc).
    rewrite Hl in Hl'. inversion Hl'; subst. exact Hc.
Qed.

End ResetData.

(** ** Reading *)

Lemma returns_ret {A} (P : A -> Prop) (a : A) : P a -> returns P (ret a).
Proof. intros Ha s v s' H. inversion H; subst. exact Ha. Qed.

Lemma fold_M_returns {A B} (P : B -> Prop) (xs : list A) (f : B -> A -> M B) (b : B) :
  (forall b x, P b -> returns P (f b x)) -> P b -> returns P (fold_M xs f b).
Proof.
  revert b. induction xs as [|x xs IH]; intros b Hf Hb s v s' H; cbn [fold_M] in H.
  - inversion H; subst. exact Hb.
  - apply bind_ok in H. destruct H as (b' & s1 & E1 & E2).
    eapply IH; [exact Hf | eapply Hf; eassumption | exact E2].
Qed.

Lemma fold_M_grows {A B} (size : B -> nat) (xs : list A) (f : B -> A -> M B) (b : B) :
  (forall b x, returns (fun b' => size b' = S (size b)) (f b x)) ->
  returns (fun b' => size b' = (size b + length xs)%nat) (fold_M xs f b).
Proof.
  revert b. induction xs as [|x xs IH]; intros b Hf s v s' H; cbn [fold_M] in H.
  - inversion H; subst. cbn. lia.
  - apply bind_ok in H. destruct H as (b' & s1 & E1 & E2).
    rewrite (IH b' Hf _ _ _ E2), (Hf b x _ _ _ E1). cbn. lia.
Qed.

Lemma length_list_set {A} (l : list A) (i : nat) (x : A) :
  length (list_set l i x) = length l.
Proof.
  revert i. induction l as [|h t IH]; intros [|i]; cbn; auto.
Qed.

Lemma py_slice_assign_len {A} (l r : list A) (a b : Z) :
  0 <= a -> a <= b -> b <= len l -> len r = b - a ->
  len (py_slice_assign l a b r) = len l.
Proof.
  intros Ha Hab Hb Hr. unfold py_slice_assign.
  rewrite !slice_bound_nonneg by (auto using len_nonneg; lia).
  rewrite !len_app. unfold len in *.
  rewrite length_firstn, length_skipn. lia.
Qed.

Lemma py_slice_len {A} (l : list A) (k : Z) :
  0 <= k -> k <= len l -> len (py_slice l 0 k) = k.
Proof.
  intros H0 Hk. rewrite py_slice_nonneg by lia. unfold len in *.
  cbn [Z.to_nat skipn]. rewrite length_firstn. lia.
Qed.

Section Reading.
Context {T : PyText}.

Lemma read_bit_grows (sp : space) (start : Z) (t : Q) (rd : list pyval) (i : nat) :
  returns (fun d => length d = S (length rd)) (read_bit sp start t rd i).
Proof.
  intros s v s' H. unfold read_bit in H.
  destruct (dict_mem _ _).
  - apply bind_ok in H. destruct H as (u & s1 & _ & H).
    apply bind_ok in H. destruct H as (c & s2 & _ & H).
    inversion H; subst. rewrite length_app. cbn. lia.
  - inversion H; subst. rewrite length_app. cbn. lia.
Qed.

Lemma copy_entry_len (sp : space) (start q : Z) (t : Q) (rd : list Z) (addr : Z) :
  0 <= q -> len rd = q ->
  returns (fun rd' => len rd' = q) (copy_entry sp start q t rd addr).
Proof.
  intros Hq Hrd. unfold copy_entry.
  apply returns_bind. intros c.
  destruct ((start <=? addr) && (addr <? start + q)) eqn:Ein.
  - apply andb_true_iff in Ein. destruct Ein as [E1 E2].
    apply Z.leb_le in E1. apply Z.ltb_lt in E2.
    apply returns_bind. intros _. apply returns_bind. intros c'. cbv zeta.
    pose proof (len_nonneg (pack_value_to_registers (cached c') (data_type c'))) as Hn.
    destruct (_ <=? q) eqn:Ee; apply returns_ret.
    + apply Z.leb_le in Ee. transitivity (len rd); [|exact Hrd].
      apply py_slice_assign_len; lia.
    + apply Z.leb_gt in Ee. transitivity (len rd); [|exact Hrd].
      apply py_slice_assign_len; try lia.
      rewrite py_slice_len; lia.
  - cbv zeta.
    destruct ((addr <? start) && (start <=? addr + get_register_count (data_type c) - 1))
      eqn:Es; [|now apply returns_ret].
    apply returns_bind. intros _. apply returns_bind. intros c'.
    apply returns_ret.
    set (rtc := py_slice_from _ _).
    pose proof (len_nonneg rtc) as Hn.
    transitivity (len rd); [|exact Hrd].
    apply py_slice_assign_len; try lia.
    rewrite py_slice_len; lia.
Qed.

Lemma overlay_len (sp : space) (start : Z) (t : Q) (rd : list Z) (i : nat) :
  returns (fun rd' => len rd' = len rd) (overlay sp start t rd i).
Proof.
  intros s v s' H. unfold overlay in H.
  destruct (dict_mem _ _).
  - apply bind_ok in H. destruct H as (w & s1 & _ & H).
    unfold lift, py_setitem in H. destruct (Nat.ltb i (length rd)); inversion H.
    unfold len. now rewrite length_list_set.
  - now inversion H.
Qed.

(** A read that returns gives as many items as asked for, up to the cap;
    for registers they are integers. *)
Lemma handle_read_request_len (fc start q : Z) (t : Q) :
  is_read fc = true -> 0 <= q ->
  returns (fun data =>
             len data = Z.min q (max_quantity fc) /\
             ((fc =? 1) || (fc =? 2) = false -> exists zs, data = map VInt zs))
          (handle_read_request fc start q t).
Proof.
  intros Hr Hq s data s' H. unfold handle_read_request in H.
  assert (Hm : 0 <= max_quantity fc) by (unfold max_quantity; repeat destruct (_ =? _); lia).
  destruct (address_type_map fc) as [sp|] eqn:Ea.
  2:{ unfold address_type_map, is_read in *.
      repeat destruct (_ =? _); discriminate. }
  cbv zeta in H.
  set (n := if max_quantity fc <? q then max_quantity fc else q) in H.
  assert (Hn : n = Z.min q (max_quantity fc)).
  { unfold n. destruct (max_quantity fc <? q) eqn:E; lia. }
  destruct ((fc =? 1) || (fc =? 2)) eqn:Eb.
  - split; [|discriminate].
    pose proof (fold_M_grows (@length pyval) _ _ []
                  (read_bit_grows sp start t) _ _ _ H) as L.
    unfold len. rewrite L, length_seq. cbn. lia.
  - apply bind_ok in H. destruct H as (rd1 & s1 & E1 & H).
    apply bind_ok in H. destruct H as (rd2 & s2 & E2 & H).
    inversion H; subst data s'.
    assert (L1 : len rd1 = n).
    { refine (fold_M_returns (fun rd => len rd = n) _ _ _ _ _ _ _ _ E1).
      - intros b x Hb. apply copy_entry_len; lia.
      - unfold len. rewrite repeat_length. lia. }
    assert (L2 : len rd2 = n).
    { refine (fold_M_returns (fun rd => len rd = n) _ _ _ _ _ _ _ _ E2).
      - intros b x Hb s0 v0 s0' H0. rewrite (overlay_len _ _ _ _ _ _ _ _ H0). exact Hb.
      - exact L1. }
    split; [|intros _; now exists rd2].
    unfold len in *. rewrite length_map. lia.
Qed.

End Reading.

Section Clamp.
Context {T : PyText}.

Lemma clamp_above (fc start q : Z) (t : Q) (s : simulator) :
  max_quantity fc < q ->
  handle_read_request fc start q t s
    = handle_read_request fc start (max_quantity fc) t s.
Proof.
  intros H. unfold handle_read_request.
  destruct (address_type_map fc); [|reflexivity]. cbv zeta.
  replace (max_quantity fc <? q) with true by lia.
  now replace (max_quantity fc <? max_quantity fc) with false by lia.
Qed.

Lemma max_quantity_read (fc : Z) :
  is_read fc = true ->
  max_quantity fc = if (fc =? 1) || (fc =? 2) then 2000 else 125.
Proof.
  unfold is_read, max_quantity. intros H.
  destruct (fc =? 1), (fc =? 2), (fc =? 3), (fc =? 4); cbn in *; congruence.
Qed.

(** C5. A read request for more than the cap (2000 for function codes 1
    and 2, 125 for 3 and 4) is served as the request for the cap: same
    result, same state. When the read returns, it returns as many items
    as the cap, and the response is a normal one, with the function code
    of the request, whose byte count is [(q + 7) / 8] for bits and
    [2 * q] for words, [q] being the cap, followed by that many bytes. *)
Theorem quantity_clamp (tid uid fc start q : Z) (t : Q) (s : simulator) :
  is_read fc = true -> max_quantity fc < q ->
  max_quantity fc = (if (fc =? 1) || (fc =? 2) then 2000 else 125) /\
  handle_read_request fc start q t s
    = handle_read_request fc start (max_quantity fc) t s /\
  forall data s',
    handle_read_request fc start q t s = (Ok data, s') ->
    len data = max_quantity fc /\
    exists bc rest,
      response_body fc data = Ok (fc, bc :: rest) /\
      byte_val bc = (if (fc =? 1) || (fc =? 2)
                     then (max_quantity fc + 7) / 8 else 2 * max_quantity fc) /\
      len rest = byte_val bc /\
      (0 <= tid < 65536 -> 0 <= uid < 256 ->
       exists frame,
         create_modbus_response tid uid fc data = Ok frame /\
         parse_modbus_request frame =
           Some {| transaction_id := tid; unit_id := uid;
                   function_code := fc; data := bc :: rest |}).
Proof.
  intros Hr Hq. pose proof (max_quantity_read fc Hr) as Hm.
  split; [exact Hm|]. split; [now apply clamp_above|].
  intros data s' H.
  assert (H0 : 0 <= q) by (destruct ((fc =? 1) || (fc =? 2)); lia).
  destruct (handle_read_request_len fc start q t Hr H0 _ _ _ H) as [L Hz].
  rewrite Z.min_r in L by lia. split; [exact L|].
  assert (He : encodable fc data).
  { unfold encodable. destruct ((fc =? 1) || (fc =? 2)); [lia|].
    split; [lia|]. destruct (Hz eq_refl) as [zs ->]. eexists. apply int_all_VInt. }
  destruct (response_body_ok fc data Hr He) as (bc & rest & E & Eb & Lr & B).
  exists bc, rest. split; [exact E|].
  assert (Ec : byte_count_of fc data
               = if (fc =? 1) || (fc =? 2)
                 then (max_quantity fc + 7) / 8 else 2 * max_quantity fc).
  { unfold byte_count_of. now rewrite L. }
  split; [now rewrite Eb|]. split; [now rewrite Eb|].
  intros Ht Hu. pose proof (is_read_range fc Hr) as Hf.
  destruct (mbap_frame_round_trip tid uid fc (bc :: rest) Ht Hu Hf)
    as (frame & Ef & _ & Pf).
  { rewrite len_cons. lia. }
  exists frame. unfold create_modbus_response. rewrite E, Ef. cbn [try_except]. auto.
Qed.

End Clamp.

Lemma quantity_clamp_witness :
  is_read 3 = true /\ max_quantity 3 < 200 /\
  fst (handle_read_request 3 0 200 0 new_simulator) = Ok (map VInt (repeat 0 125)) /\
  handle_read_request 3 0 200 0 new_simulator
    = handle_read_request 3 0 (max_quantity 3) 0 new_simulator.
Proof.
  split; [reflexivity|]. split; [reflexivity|]. split; [reflexivity|].
  apply (quantity_clamp 1 1 3 0 200 0 new_simulator); reflexivity.
Defined.

(** C6 at the input where it fails: the text "Hello" is installed at
    holding register 4. A read of 5 registers from 4 returns its five
    characters, but a read of 1 register from 5 returns 0 and not the
    second character: the width of a text entry is measured on the sample
    value 0, which prints as one character, so the entry is never seen
    to extend past its own address. *)
Theorem read_text_from_inside :
  fst (handle_read_request 3 4 5 11 hello_store)
    = Ok (map VInt [72; 101; 108; 108; 111]) /\
  fst (handle_read_request 3 5 1 11 hello_store) = Ok [VInt 0] /\
  pack_value_to_registers (VStr (codes "Hello")) string_t = [72; 101; 108; 108; 111] /\
  get_register_count string_t = 1.
Proof. repeat split. Qed.

(** C3 at the input where it fails. The editor's table holds one constant
    holding register, 7 at address 0. Starting the server installs it,
    but the snapshot was saved before the table was applied and is the
    empty table; stopping the server resets to that snapshot and leaves
    no entry at the address. Nor is counter state discarded: with a
    snapshot saved before three reads of a counter, the reset calls no
    producer, the call log stays at three calls and the counter stays at
    3, while the cached value goes back to the one saved. *)
Theorem reset_on_stop_fails :
  fst (start_server one_register 0 new_simulator) = Ok tt /\
  option_map static_fields
    (load (DataLoc holding_registers 0)
       (snd (start_server one_register 0 new_simulator)))
    = Some (VInt 7, 1%Q, VNone, int16, None, false) /\
  option_map cached
    (load (DataLoc holding_registers 0)
       (snd (start_server one_register 0 new_simulator)))
    = Some (VInt 7) /\
  original_data_config (snd (start_server one_register 0 new_simulator))
    = Copy empty_config /\
  fst (stop_server 1 (snd (start_server one_register 0 new_simulator))) = Ok tt /\
  load (DataLoc holding_registers 0)
    (snd (stop_server 1 (snd (start_server one_register 0 new_simulator))))
    = None /\
  calls ramp_store_read = [0; 0; 0]%nat /\
  option_map cached (load (DataLoc holding_registers 0) ramp_store_read)
    = Some (VInt 3) /\
  fst (reset_data 4 ramp_store_read) = Ok tt /\
  calls (snd (reset_data 4 ramp_store_read)) = [0; 0; 0]%nat /\
  option_map cells (nth_error (heap (snd (reset_data 4 ramp_store_read))) 0)
    = Some [VList [VInt 3]] /\
  option_map cached
    (load (DataLoc holding_registers 0) (snd (reset_data 4 ramp_store_read)))
    = Some (VInt 0).
Proof. repeat split. Qed.

(** ** Bit overlays *)

Lemma dict_get_notin {A} (d : dict A) (k : Z) :
  ~ In k (keys d) -> dict_get d k = None.
Proof.
  intros N. destruct (dict_get d k) eqn:E; [|reflexivity].
  exfalso. apply N. eapply dict_get_keys. exact E.
Qed.

Lemma dict_mem_set {A} (d : dict A) (k k' : Z) (v : A) :
  dict_mem d k = true -> dict_mem (dict_set d k v) k' = dict_mem d k'.
Proof.
  intros H. unfold dict_mem in *. destruct (Z.eq_dec k k') as [->|N].
  - rewrite dict_get_set_same. now destruct (dict_get d k').
  - now rewrite dict_get_set_other.
Qed.

Lemma nth_error_list_set_same {A} (l : list A) (i : nat) (x : A) :
  (i < length l)%nat -> nth_error (list_set l i x) i = Some x.
Proof.
  revert i. induction l as [|h t IH]; intros [|i] H; cbn in *; try lia; auto.
  apply IH. lia.
Qed.

Lemma nth_error_list_set_other {A} (l : list A) (i k : nat) (x : A) :
  k <> i -> nth_error (list_set l i x) k = nth_error l k.
Proof.
  revert i k. induction l as [|h t IH]; intros [|i] [|k] H; cbn; auto; try lia.
Qed.

Lemma testbit_one (k : Z) : Z.testbit 1 k = (k =? 0).
Proof. destruct k as [|[p|p|]|p]; reflexivity. Qed.

Lemma testbit_mask (b k : Z) : 0 <= k -> Z.testbit (Z.shiftl 1 b) k = (k =? b).
Proof.
  intros Hk. rewrite Z.shiftl_spec by exact Hk. rewrite testbit_one.
  destruct (k =? b) eqn:E; lia.
Qed.

Lemma only_at_refl (P : loc -> Prop) (s : simulator) : only_at P s s.
Proof. split; auto. Qed.

Lemma only_at_trans (P : loc -> Prop) (s1 s2 s3 : simulator) :
  only_at P s1 s2 -> only_at P s2 s3 -> only_at P s1 s3.
Proof.
  intros [L1 M1] [L2 M2]. split.
  - intros l N. now rewrite L2, L1.
  - intros sp a. now rewrite M2, M1.
Qed.

Lemma only_at_weaken (P Q : loc -> Prop) (s s' : simulator) :
  (forall l, P l -> Q l) -> only_at P s s' -> only_at Q s s'.
Proof. intros H [L M]. split; [|exact M]. intros l N. apply L. auto. Qed.

Lemma heap_only_only_at (P : loc -> Prop) (s s' : simulator) :
  heap_only s s' -> only_at P s s'.
Proof.
  intros H. split.
  - intros l _. now apply heap_only_load.
  - intros sp a. now rewrite H.
Qed.

Lemma store_only_at (l : loc) (c : config) (s : simulator) :
  load l s <> None -> only_at (eq l) s (store l c s).
Proof.
  intros H. split.
  - intros l' N. now apply load_store_other.
  - intros sp' a'. destruct l as [sp a|sp a b]; [reflexivity|].
    cbn [load] in H. cbn [store with_bit_config bit_config].
    destruct (dict_get (bit_config s sp) a) as [bits|] eqn:E; [|congruence].
    destruct (space_eqb sp sp') eqn:Es.
    + apply space_eqb_eq in Es. subst sp'. rewrite upd_same.
      apply dict_mem_set. unfold dict_mem. now rewrite E.
    + rewrite upd_other; [reflexivity|].
      intros ->. now rewrite space_eqb_refl in Es.
Qed.

Section Overlay.
Context {T : PyText}.

Lemma get_config_ok (l : loc) (s : simulator) (c : config) (s' : simulator) :
  get_config l s = (Ok c, s') -> s' = s /\ load l s = Some c.
Proof.
  unfold get_config. destruct (load l s); intros H; inversion H; auto.
Qed.

Lemma refresh_only_at (l : loc) (t : Q) : preserves (only_at (eq l)) (refresh l t).
Proof.
  intros s r s' H. destruct (load l s) as [c|] eqn:Hl.
  - destruct (due c t) eqn:Hd.
    + rewrite (refresh_due _ _ _ _ Hl Hd) in H.
      destruct (generate_data _ _ _) as [r1 s1] eqn:E.
      pose proof (generate_data_heap_only _ _ _ _ _ E) as Hh.
      assert (S1 : only_at (eq l) s s1).
      { apply only_at_trans with (store l (with_last_update c t) s);
          [apply store_only_at; congruence | apply heap_only_only_at; exact Hh]. }
      destruct r1 as [v|e]; injection H as _ <-; [|exact S1].
      eapply only_at_trans; [exact S1|].
      apply (store_only_at l). rewrite (heap_only_load _ _ _ Hh).
      rewrite load_store_same. discriminate.
    + rewrite (refresh_not_due _ _ _ _ Hl Hd) in H. injection H as _ <-.
      apply only_at_refl.
  - rewrite (refresh_absent _ _ _ Hl) in H. injection H as _ <-.
    apply only_at_refl.
Qed.

(** One bit of the overlay. *)
Lemma apply_bit_ok (sp : space) (a : Z) (t : Q) (acc b : Z) (s : simulator)
    (acc' : Z) (s' : simulator) :
  apply_bit sp a t acc b s = (Ok acc', s') ->
  only_at (eq (BitLoc sp a b)) s s' /\
  0 <= b /\
  (exists c, load (BitLoc sp a b) s' = Some c /\
             Z.testbit acc' b = py_bool (cached c)) /\
  (forall k, 0 <= k -> k <> b -> Z.testbit acc' k = Z.testbit acc k).
Proof.
  intros H. unfold apply_bit in H.
  apply bind_ok in H. destruct H as ([] & s1 & E1 & H).
  apply bind_ok in H. destruct H as (c & s2 & E2 & H).
  apply get_config_ok in E2. destruct E2 as [-> Hl].
  cbv zeta in H. apply bind_ok in H. destruct H as (mask & s3 & E3 & H).
  unfold lift, bit_mask in E3. destruct (b <? 0) eqn:Eb; [discriminate|].
  injection E3 as <- <-. apply Z.ltb_ge in Eb.
  destruct (py_bool (cached c)) eqn:Ev; inversion H; subst acc' s';
    (split; [exact (refresh_only_at _ _ _ _ _ E1)|]); (split; [exact Eb|]).
  - split.
    + exists c. split; [exact Hl|]. rewrite Ev, Z.lor_spec, testbit_mask by exact Eb.
      rewrite Z.eqb_refl. apply orb_true_r.
    + intros k Hk N. rewrite Z.lor_spec, testbit_mask by exact Hk.
      replace (k =? b) with false by lia. apply orb_false_r.
  - split.
    + exists c. split; [exact Hl|].
      rewrite Ev, Z.land_spec, Z.lnot_spec, testbit_mask by exact Eb.
      rewrite Z.eqb_refl. apply andb_false_r.
    + intros k Hk N. rewrite Z.land_spec, Z.lnot_spec, testbit_mask by exact Hk.
      replace (k =? b) with false by lia. apply andb_true_r.
Qed.

(** The loop over the bits of an overlay. *)
Lemma apply_bits_ok (sp : space) (a : Z) (t : Q) (ks : list Z) :
  forall (acc : Z) (s : simulator) (w : Z) (s' : simulator),
  fold_M ks (apply_bit sp a t) acc s = (Ok w, s') ->
  only_at (fun l => exists b, In b ks /\ l = BitLoc sp a b) s s' /\
  (forall b, 0 <= b -> ~ In b ks -> Z.testbit w b = Z.testbit acc b) /\
  (forall b, In b ks ->
     0 <= b /\ exists c, load (BitLoc sp a b) s' = Some c /\
                         Z.testbit w b = py_bool (cached c)).
Proof.
  induction ks as [|k ks IH]; intros acc s w s' H; cbn [fold_M] in H.
  - inversion H; subst. split; [apply only_at_refl|].
    split; [reflexivity | intros b []].
  - apply bind_ok in H. destruct H as (acc1 & s1 & E1 & E2).
    apply apply_bit_ok in E1. destruct E1 as (O1 & Hk & (c & Hc & Bc) & F1).
    destruct (IH _ _ _ _ E2) as (O2 & F2 & B2).
    split; [|split].
    + eapply only_at_trans; [eapply only_at_weaken; [|exact O1]
                            | eapply only_at_weaken; [|exact O2]].
      * intros l <-. exists k. split; [now left | reflexivity].
      * intros l (b & Hb & ->). exists b. split; [now right | reflexivity].
    + intros b Hb N. rewrite F2 by (auto; intros I; apply N; now right).
      apply F1; [exact Hb|]. intros ->. apply N. now left.
    + intros b Hb. destruct (in_dec Z.eq_dec b ks) as [I|I]; [now apply B2|].
      destruct Hb as [<-|Hb]; [|contradiction].
      split; [exact Hk|]. exists c. split.
      * destruct O2 as [L2 _]. rewrite L2; [exact Hc|].
        intros (b & Hb & Eb). inversion Eb; subst. contradiction.
      * now rewrite F2.
Qed.

(** The word of an address with an overlay. *)
Lemma generate_register_with_bits_ok (sp : space) (a : Z) (t : Q) (s : simulator)
    (w : Z) (s' : simulator) :
  has_bits sp = true ->
  generate_register_with_bits sp a t s = (Ok w, s') ->
  only_at (at_address sp a) s s' /\ overlay_word sp a s' w.
Proof.
  intros Hb H. unfold generate_register_with_bits in H.
  apply bind_ok in H. destruct H as (base & s1 & E1 & H).
  assert (P1 : only_at (at_address sp a) s s1 /\
               overlay_base (load (DataLoc sp a) s1) base).
  { destruct (dict_mem (data_config s sp) a) eqn:Em.
    - apply bind_ok in E1. destruct E1 as ([] & s0 & R & E1).
      apply bind_ok in E1. destruct E1 as (c & s0' & G & E1).
      apply get_config_ok in G. destruct G as [-> Hl]. cbv zeta in E1.
      assert (s1 = s0) as ->
        by (destruct (is_number (cached c)); inversion E1; reflexivity).
      split.
      + eapply only_at_weaken; [|exact (refresh_only_at _ _ _ _ _ R)].
        intros l <-. now left.
      + unfold overlay_base. rewrite Hl.
        destruct (is_number (cached c)); inversion E1; reflexivity.
    - inversion E1; subst. split; [apply only_at_refl|].
      unfold overlay_base, dict_mem in *. cbn [load].
      now destruct (dict_get (data_config s1 sp) a). }
  destruct P1 as [O1 B1]. unfold bit_dict in H. rewrite Hb in H.
  destruct (dict_get (bit_config s1 sp) a) as [bits|] eqn:Eo.
  - apply apply_bits_ok in H. destruct H as (O2 & F & B).
    split.
    + eapply only_at_trans; [exact O1|]. eapply only_at_weaken; [|exact O2].
      intros l (b & _ & ->). right. now exists b.
    + exists base. split.
      * destruct O2 as [L2 _]. rewrite L2; [exact B1|].
        intros (b & _ & Eb). discriminate.
      * intros b H0. destruct (in_dec Z.eq_dec b (keys bits)) as [I|I].
        -- destruct (B b I) as (_ & c & Hc & Bc). now rewrite Hc.
        -- destruct O2 as [L2 _]. rewrite L2.
           ++ cbn [load]. rewrite Eo, dict_get_notin by exact I. now apply F.
           ++ intros (b' & Hb' & Eb'). inversion Eb'; subst. contradiction.
  - inversion H; subst. split; [exact O1|].
    exists w. split; [exact B1|]. intros b _. cbn [load]. now rewrite Eo.
Qed.

End Overlay.

Lemma at_address_inj (sp : space) (a a' : Z) (l : loc) :
  at_address sp a l -> at_address sp a' l -> a = a'.
Proof.
  intros [->|[b ->]] [E|[b' E]]; inversion E; reflexivity.
Qed.

Lemma preserves_weaken {A} (R R' : simulator -> simulator -> Prop) (m : M A) :
  (forall s s', R s s' -> R' s s') -> preserves R m -> preserves R' m.
Proof. intros W H s r s' E. apply W. eapply H. exact E. Qed.

Section OverlayRead.
Context {T : PyText}.

Lemma overlay_word_frame (sp : space) (a : Z) (s s' : simulator) (w : Z) :
  (forall l, at_address sp a l -> load l s' = load l s) ->
  overlay_word sp a s w -> overlay_word sp a s' w.
Proof.
  intros F (base & B & H). exists base. split.
  - rewrite F by now left. exact B.
  - intros b Hb. rewrite F by (right; now exists b). now apply H.
Qed.

Lemma get_config_preserves (R : simulator -> simulator -> Prop) (l : loc) :
  (forall s, R s s) -> preserves R (get_config l).
Proof.
  intros Rr s r s' H. unfold get_config in H.
  destruct (load l s); inversion H; subst; apply Rr.
Qed.

Lemma refresh_entry_only_at (sp : space) (a : Z) (t : Q) :
  preserves (only_at is_entry) (refresh (DataLoc sp a) t).
Proof.
  eapply preserves_weaken; [|apply refresh_only_at].
  intros s s'. apply only_at_weaken. intros l <-. now exists sp, a.
Qed.

Lemma copy_entry_only_at (sp : space) (start q : Z) (t : Q) (rd : list Z) (addr : Z) :
  preserves (only_at is_entry) (copy_entry sp start q t rd addr).
Proof.
  pose proof (only_at_refl is_entry) as Rr.
  pose proof (only_at_trans is_entry) as Rt.
  unfold copy_entry.
  apply preserves_bind; [exact Rt | now apply get_config_preserves | intros c].
  destruct (_ && _).
  - apply preserves_bind; [exact Rt | apply refresh_entry_only_at | intros _].
    apply preserves_bind; [exact Rt | now apply get_config_preserves | intros c'].
    cbv zeta. destruct (_ <=? _); now apply preserves_ret.
  - cbv zeta. destruct (_ && _); [|now apply preserves_ret].
    apply preserves_bind; [exact Rt | apply refresh_entry_only_at | intros _].
    apply preserves_bind; [exact Rt | now apply get_config_preserves | intros c'].
    now apply preserves_ret.
Qed.

(** One step of the overlay loop of a read. *)
Lemma overlay_ok (sp : space) (start : Z) (t : Q) (rd : list Z) (i : nat)
    (s : simulator) (rd' : list Z) (s' : simulator) :
  has_bits sp = true ->
  overlay sp start t rd i s = (Ok rd', s') ->
  only_at (at_address sp (start + Z.of_nat i)) s s' /\
  (forall k, k <> i -> nth_error rd' k = nth_error rd k) /\
  (dict_mem (bit_config s sp) (start + Z.of_nat i) = true ->
   exists w, nth_error rd' i = Some w /\
             overlay_word sp (start + Z.of_nat i) s' w).
Proof.
  intros Hb H. unfold overlay in H. cbv zeta in H. unfold bit_dict in H.
  rewrite Hb in H.
  destruct (dict_mem (bit_config s sp) (start + Z.of_nat i)) eqn:Em.
  - apply bind_ok in H. destruct H as (w & s1 & E & H).
    unfold lift, py_setitem in H.
    destruct (Nat.ltb i (length rd)) eqn:El; [|discriminate].
    injection H as <- <-. apply Nat.ltb_lt in El.
    destruct (generate_register_with_bits_ok _ _ _ _ _ _ Hb E) as [O W].
    split; [exact O|]. split.
    + intros k N. now apply nth_error_list_set_other.
    + intros _. exists w. split; [now apply nth_error_list_set_same | exact W].
  - inversion H; subst. split; [apply only_at_refl|].
    split; [reflexivity | discriminate].
Qed.

(** The overlay loop of a read. *)
Lemma overlays_ok (sp : space) (start : Z) (t : Q) (js : list nat) :
  has_bits sp = true ->
  forall (rd : list Z) (s : simulator) (rd' : list Z) (s' : simulator),
  fold_M js (overlay sp start t) rd s = (Ok rd', s') ->
  only_at (fun l => exists j, In j js /\ at_address sp (start + Z.of_nat j) l) s s' /\
  (forall k, ~ In k js -> nth_error rd' k = nth_error rd k) /\
  (NoDup js -> forall i, In i js ->
   dict_mem (bit_config s sp) (start + Z.of_nat i) = true ->
   exists w, nth_error rd' i = Some w /\
             overlay_word sp (start + Z.of_nat i) s' w).
Proof.
  intros Hb. induction js as [|j js IH]; intros rd s rd' s' H; cbn [fold_M] in H.
  - inversion H; subst. split; [apply only_at_refl|].
    split; [reflexivity | intros _ i []].
  - apply bind_ok in H. destruct H as (rd1 & s1 & E1 & E2).
    destruct (overlay_ok _ _ _ _ _ _ _ _ Hb E1) as (O1 & K1 & W1).
    destruct (IH _ _ _ _ E2) as (O2 & K2 & W2).
    split; [|split].
    + eapply only_at_trans; [eapply only_at_weaken; [|exact O1]
                            | eapply only_at_weaken; [|exact O2]].
      * intros l Hl. exists j. split; [now left | exact Hl].
      * intros l (j' & Hj & Hl). exists j'. split; [now right | exact Hl].
    + intros k N. rewrite K2 by (intros I; apply N; now right).
      apply K1. intros ->. apply N. now left.
    + intros Hn i Hi Hm. inversion Hn as [|? ? Nj Hn']; subst.
      destruct Hi as [<-|Hi].
      * destruct (W1 Hm) as (w & Ew & Hw). exists w. split.
        -- now rewrite K2.
        -- apply overlay_word_frame with s1; [|exact Hw].
           intros l Hl. destruct O2 as [L2 _]. apply L2.
           intros (j' & Hj' & Hl').
           pose proof (at_address_inj _ _ _ _ Hl Hl') as Ea.
           assert (j' = j) by lia. subst j'. contradiction.
      * apply (W2 Hn' i Hi). destruct O1 as [_ M1]. now rewrite M1.
Qed.

(** C1 (as amended). In a read of holding or input registers, the word
    returned for an address that has an overlay is read off the store the
    read leaves: every bit the overlay configures is the truth value of
    that bit's cached value, and every other bit is the bit of the base,
    which is the low 16 bits of the integer value of the entry's cached
    value, or 0 when the address has no entry or the cached value is not
    a number. For an entry declared ['int16'] or ['uint16'] the base is
    the entry's packed word. *)
Theorem overlay_composition (fc start q : Z) (t : Q) (s : simulator)
    (data : list pyval) (s' : simulator) (sp : space) (i : nat) :
  address_type_map fc = Some sp -> has_bits sp = true ->
  handle_read_request fc start q t s = (Ok data, s') ->
  Z.of_nat i < Z.min q (max_quantity fc) ->
  dict_mem (bit_config s sp) (start + Z.of_nat i) = true ->
  exists w,
    nth_error data i = Some (VInt w) /\
    overlay_word sp (start + Z.of_nat i) s' w /\
    (forall c,
       load (DataLoc sp (start + Z.of_nat i)) s' = Some c ->
       is_number (cached c) = true ->
       data_type c = int16 \/ data_type c = uint16 ->
       forall b, 0 <= b ->
         load (BitLoc sp (start + Z.of_nat i) b) s' = None ->
         Z.testbit w b
           = Z.testbit (hd 0 (pack_value_to_registers (cached c) (data_type c))) b).
Proof.
  intros Ha Hb H Hi Hm. unfold handle_read_request in H. rewrite Ha in H.
  cbv zeta in H.
  assert (Hf : (fc =? 1) || (fc =? 2) = false).
  { unfold address_type_map in Ha.
    destruct (fc =? 1); [inversion Ha; subst; discriminate|].
    destruct (fc =? 2); [inversion Ha; subst; discriminate|]. reflexivity. }
  rewrite Hf in H.
  set (n := if max_quantity fc <? q then max_quantity fc else q) in H.
  assert (Hn : n = Z.min q (max_quantity fc)).
  { unfold n. destruct (max_quantity fc <? q) eqn:E; lia. }
  apply bind_ok in H. destruct H as (rd1 & s1 & E1 & H).
  apply bind_ok in H. destruct H as (rd2 & s2 & E2 & H).
  inversion H; subst data s'.
  assert (O1 : only_at is_entry s s1).
  { refine (preserves_fold_M (only_at is_entry) (only_at_refl _) (only_at_trans _)
              _ _ _ _ _ _ _ E1).
    intros b x _. apply copy_entry_only_at. }
  destruct (overlays_ok sp start t (seq 0 (Z.to_nat n)) Hb _ _ _ _ E2)
    as (_ & _ & W).
  destruct (W (seq_NoDup _ _) i) as (w & Ew & Hw).
  { apply in_seq. lia. }
  { destruct O1 as [_ M1]. now rewrite M1. }
  exists w. split; [|split; [exact Hw|]].
  - rewrite nth_error_map, Ew. reflexivity.
  - intros c Hc Hnum Hdt b H0 Hnone.
    destruct Hw as (base & Hbase & Hbits).
    rewrite (Hbits b H0), Hnone. unfold overlay_base in Hbase.
    rewrite Hc, Hnum in Hbase. unfold pack_value_to_registers.
    destruct (py_int (cached c)) as [z|e]; [|discriminate].
    injection Hbase as <-. now destruct Hdt as [-> | ->].
Qed.

End OverlayRead.

Lemma overlay_composition_witness :
  address_type_map 3 = Some holding_registers /\
  has_bits holding_registers = true /\
  fst (handle_read_request 3 100 2 11 wide_overlay_store) = Ok [VInt 2; VInt 2] /\
  Z.of_nat 0 < Z.min 2 (max_quantity 3) /\
  dict_mem (bit_config wide_overlay_store holding_registers) (100 + Z.of_nat 0) = true /\
  exists w,
    nth_error [VInt 2; VInt 2] 0 = Some (VInt w) /\
    overlay_word holding_registers (100 + Z.of_nat 0)
      (snd (handle_read_request 3 100 2 11 wide_overlay_store)) w.
Proof.
  split; [reflexivity|]. split; [reflexivity|]. split; [reflexivity|].
  split; [reflexivity|]. split; [reflexivity|].
  destruct (overlay_composition 3 100 2 11 wide_overlay_store [VInt 2; VInt 2]
              (snd (handle_read_request 3 100 2 11 wide_overlay_store))
              holding_registers 0 eq_refl eq_refl eq_refl eq_refl eq_refl)
    as (w & Ew & Hw & _).
  exists w. split; [exact Ew | exact Hw].
Defined.

(** C1, the claim as stated fails: the 32-bit constant 0x00010002 packs
    to the words 1 and 2, and its overlay holds bit 0 at [False]; the
    word returned for its address is 2, the low word of the number with
    bit 0 cleared, and not 0, the first packed word with bit 0 cleared. *)
Lemma overlay_base_is_low_word :
  option_map cached (load (DataLoc holding_registers 100) wide_overlay_store)
    = Some (VInt 0x00010002) /\
  option_map cached (load (BitLoc holding_registers 100 0) wide_overlay_store)
    = Some (VBool false) /\
  pack_value_to_registers (VInt 0x00010002) int32 = [1; 2] /\
  fst (handle_read_request 3 100 2 11 wide_overlay_store) = Ok [VInt 2; VInt 2] /\
  Z.land (hd 0 (pack_value_to_registers (VInt 0x00010002) int32)) (Z.lnot (Z.shiftl 1 0))
    <> 2.
Proof.
  split; [reflexivity|]. split; [reflexivity|]. split; [reflexivity|].
  split; [reflexivity|]. vm_compute. discriminate.
Qed.

(** * Further properties of the code *)

(** ** Conversions and packing *)



Lemma words_of_range (w : nat) (bits : Z) :
  Forall (fun x => 0 <= x < 65536) (words_of w bits).
Proof.
  induction w as [|w IH]; cbn [words_of]; constructor;
    [apply land_FFFF_range | exact IH].
Qed.

Lemma words_of_length (w : nat) (bits : Z) : length (words_of w bits) = w.
Proof. induction w as [|w IH]; cbn [words_of length]; congruence. Qed.

Lemma split_words (u : Z) :
  65536 * Z.land (Z.shiftr u 16) 0xFFFF + Z.land u 0xFFFF = u mod 4294967296.
Proof.
  change 0xFFFF with (Z.ones 16). rewrite !Z.land_ones, Z.shiftr_div_pow2 by lia.
  change (2 ^ 16) with 65536. change 4294967296 with (65536 * 65536).
  rewrite Z.rem_mul_r by lia. lia.
Qed.

Ltac case_int v :=
  match goal with |- context [py_int v] => destruct (py_int v) end.

Section Packing.
Context {T : PyText}.


(** [pack_value_to_registers] always gives 16-bit words, at most 125 of
    them. For every type but text the width is the one
    [get_register_count] reports (1, 2 or 4 registers), unless the value
    could not be packed, in which case the result is the single word 0. *)
Theorem pack_value_to_registers_words (v : pyval) (dt : dtype) :
  Forall (fun w => 0 <= w < 65536) (pack_value_to_registers v dt) /\
  len (pack_value_to_registers v dt) <= 125 /\
  (dt <> string_t ->
   len (pack_value_to_registers v dt) = get_register_count dt \/
   pack_value_to_registers v dt = [0]) /\
  get_register_count dt
    = match dt with
      | int32 | uint32 | float32 => 2
      | float64 => 4
      | _ => 1
      end.
Proof.
  assert (F0 : Forall (fun w => 0 <= w < 65536) [0]) by (repeat constructor; lia).
  assert (F1 : forall z, Forall (fun w => 0 <= w < 65536) [Z.land z 0xFFFF]).
  { intros z. repeat constructor; apply land_FFFF_range. }
  assert (F2 : forall a b, Forall (fun w => 0 <= w < 65536)
                                  [Z.land a 0xFFFF; Z.land b 0xFFFF]).
  { intros a b. repeat constructor; apply land_FFFF_range. }
  split; [|split; [|split]].
  - unfold pack_value_to_registers.
    destruct dt; try (case_int v; cbn; auto).
    + destruct (py_float v) as [f|]; cbn [res_bind]; [|exact F0].
      unfold pack_f32. destruct f, (to_binary32 _); try exact F0; apply words_of_range.
    + destruct (py_float v) as [f|]; cbn [res_map]; [apply words_of_range | exact F0].
    + repeat constructor; destruct (py_bool v); lia.
    + apply Forall_forall. intros w Hw. apply in_map_iff in Hw.
      destruct Hw as (c & <- & _). apply land_FFFF_range.
  - unfold pack_value_to_registers.
    destruct dt; try (case_int v; cbn; lia).
    + destruct (py_float v) as [f|]; cbn [res_bind]; [|cbn; lia].
      unfold pack_f32. destruct f, (to_binary32 _); cbn; lia.
    + destruct (py_float v) as [f|]; cbn; lia.
    + cbn. lia.
    + unfold len. rewrite length_map, length_firstn. lia.
  - intros Hs. unfold get_register_count, pack_value_to_registers.
    destruct dt; try contradiction; try (case_int v; cbn; auto).
    + destruct (py_float v) as [f|]; cbn [res_bind]; [|now right].
      unfold pack_f32. destruct f, (to_binary32 _); (now right) || (now left).
    + destruct (py_float v) as [f|]; [now left | now right].
    + now left.
  - destruct dt; reflexivity.
Qed.

(** A 32-bit integer is packed high word first: the two words of
    ['int32'] and of ['uint32'] recombine to the number modulo 2^32. *)
Theorem pack_int32_big_endian (z : Z) :
  exists hi lo hi' lo',
    pack_value_to_registers (VInt z) int32 = [hi; lo] /\
    pack_value_to_registers (VInt z) uint32 = [hi'; lo'] /\
    65536 * hi + lo = z mod 4294967296 /\
    65536 * hi' + lo' = z mod 4294967296.
Proof.
  eexists _, _, _, _. split; [reflexivity|]. split; [reflexivity|].
  split; [apply split_words|].
  cbv zeta. rewrite split_words.
  change 0xFFFFFFFF with (Z.ones 32). rewrite Z.land_ones by lia.
  apply Z.mod_mod. lia.
Qed.

End Packing.

(** ** Responses *)

Lemma lor_80_range (fc : Z) : 0 <= fc < 256 -> 0 <= Z.lor fc 0x80 < 256.
Proof.
  intros H. change 256 with (2 ^ 8). apply lor_below; [lia | exact H | lia].
Qed.

Lemma exception_frame_mbap (tid uid fc code : Z) (b : byte) :
  pack_B code = Ok [b] ->
  exception_frame tid uid fc code = mbap_frame tid uid (Z.lor fc 0x80) [b].
Proof.
  intros E. unfold exception_frame, mbap_frame, pack_HHHBB, pack_HHHB, pack_cat.
  rewrite E. change (1 + 1 + len [b]) with 3.
  destruct (pack_H tid), (pack_H 0), (pack_H 3), (pack_B uid),
    (pack_B (Z.lor fc 128)); cbn [res_bind]; try reflexivity.
  now rewrite <- !app_assoc.
Qed.

Section Responses.
Context {T : PyText}.

(** Bit [b] of byte [i] of a bit response is item [8 i + b] of the data,
    least significant bit first; positions past the end of the data are
    0. *)
Theorem coil_byte_bits (data : list pyval) (i b : nat) :
  (b < 8)%nat ->
  Z.testbit (coil_byte data i) (Z.of_nat b)
    = match nth_error data (i * 8 + b) with
      | Some v => py_bool v
      | None => false
      end.
Proof.
  intros Hb. unfold coil_byte.
  set (f := fun k => match nth_error data (i * 8 + k) with
                     | Some v => py_bool v
                     | None => false
                     end).
  assert (G : forall ks acc,
             Z.testbit
               (fold_left
                  (fun byte_val bit =>
                     match nth_error data (i * 8 + bit) with
                     | Some v =>
                         if py_bool v
                         then Z.lor byte_val (Z.shiftl 1 (Z.of_nat bit))
                         else byte_val
                     | None => byte_val
                     end) ks acc) (Z.of_nat b)
             = Z.testbit acc (Z.of_nat b) || (existsb (Nat.eqb b) ks && f b)).
  { induction ks as [|k ks IH]; intros acc; cbn [fold_left existsb].
    - now rewrite andb_false_l, orb_false_r.
    - rewrite IH. unfold f.
      destruct (Nat.eqb b k) eqn:E.
      + apply Nat.eqb_eq in E. subst k.
        destruct (nth_error data (i * 8 + b)) as [v|];
          [|now rewrite !andb_false_r].
        destruct (py_bool v); [|now rewrite !andb_false_r].
        rewrite Z.lor_spec, testbit_mask, Z.eqb_refl by lia.
        now destruct (Z.testbit acc (Z.of_nat b)), (existsb (Nat.eqb b) ks).
      + apply Nat.eqb_neq in E.
        destruct (nth_error data (i * 8 + k)) as [v|]; [|reflexivity].
        destruct (py_bool v); [|reflexivity].
        rewrite Z.lor_spec, testbit_mask by lia.
        replace (Z.of_nat b =? Z.of_nat k) with false by lia.
        now rewrite orb_false_r. }
  rewrite G. rewrite Z.testbit_0_l. cbn [orb].
  replace (existsb (Nat.eqb b) (seq 0 8)) with true; [reflexivity|].
  do 8 (destruct b as [|b]; [reflexivity|]). lia.
Qed.

(** An exception response is a frame of 9 bytes whose length field is 3;
    parsing it gives back the transaction id, the unit id, the function
    code with bit 7 set, and the exception code as the only payload
    byte. *)
Theorem exception_frame_round_trip (tid uid fc code : Z) :
  0 <= tid < 65536 -> 0 <= uid < 256 -> 0 <= fc < 256 -> 0 <= code < 256 ->
  exists frame r,
    exception_frame tid uid fc code = Ok frame /\
    len frame = 9 /\ length_field frame = 3 /\
    parse_modbus_request frame = Some r /\
    transaction_id r = tid /\ unit_id r = uid /\
    function_code r = Z.lor fc 0x80 /\ map byte_val (data r) = [code].
Proof.
  intros Ht Hu Hf Hc.
  destruct (pack_B_ok code Hc) as (b & Eb & Wb).
  rewrite (exception_frame_mbap _ _ _ _ _ Eb).
  destruct (mbap_frame_ok tid uid (Z.lor fc 0x80) [b] Ht Hu (lor_80_range fc Hf))
    as (a1&a0&z1&z0&c1&c0&u&f&E&Wa&Wc&Wu&Wf).
  { cbn. lia. }
  eexists _, _. split; [exact E|]. split; [reflexivity|].
  split; [exact Wc|]. split; [apply parse_cons8|].
  cbn [transaction_id unit_id function_code data].
  rewrite Wa, Wu, Wf, Wc.
  change (Z.to_nat (1 + 1 + len [b] - 2)) with 1%nat. cbn [firstn map].
  rewrite Wb. auto.
Qed.

(** What [create_modbus_response] answers when it cannot answer normally:
    for a function code other than 1 to 4 the exception response 0x01
    (illegal function), and for a read function code whose data cannot
    be encoded (an item that is no integer, or more than 255 bytes of
    data) the exception response 0x04. *)
Theorem create_modbus_response_failures (tid uid fc : Z) (data : list pyval) :
  0 <= tid < 65536 -> 0 <= uid < 256 -> 0 <= fc < 256 ->
  (is_read fc = false ->
   create_modbus_response tid uid fc data = exception_frame tid uid fc 0x01) /\
  (is_read fc = true -> ~ encodable fc data ->
   create_modbus_response tid uid fc data = exception_frame tid uid fc 0x04).
Proof.
  intros Ht Hu Hf. split.
  - intros Hr. unfold create_modbus_response, response_body.
    assert (E12 : (fc =? 1) || (fc =? 2) = false) by (unfold is_read in Hr; lia).
    assert (E34 : (fc =? 3) || (fc =? 4) = false) by (unfold is_read in Hr; lia).
    rewrite E12, E34.
    destruct (pack_B_ok 0x01) as (b & Eb & Wb); [lia|].
    rewrite Eb. cbn [res_map res_bind].
    destruct (mbap_frame_ok tid uid (Z.lor fc 0x80) [b] Ht Hu (lor_80_range fc Hf))
      as (a1&a0&z1&z0&c1&c0&u&f&E&_).
    { cbn. lia. }
    rewrite E. cbn [try_except]. rewrite <- E. symmetry.
    now apply exception_frame_mbap.
  - intros Hr Hn. unfold create_modbus_response.
    destruct (response_body fc data) as [[fc' body]|e] eqn:E; [|reflexivity].
    exfalso. apply Hn. unfold encodable. unfold response_body in E.
    pose proof (len_nonneg data) as Hd.
    destruct ((fc =? 1) || (fc =? 2)) eqn:E12.
    + destruct (Z_le_gt_dec (len data) 2040) as [L|L]; [exact L|].
      unfold pack_B at 1 in E. unfold byte_of_Z in E.
      replace ((0 <=? (len data + 7) / 8) && ((len data + 7) / 8 <? 256))
        with false in E; [discriminate|].
      symmetry. apply andb_false_iff. right. apply Z.ltb_ge.
      apply Z.div_le_lower_bound; lia.
    + assert (E34 : (fc =? 3) || (fc =? 4) = true) by (unfold is_read in Hr; lia).
      rewrite E34 in E. destruct (int_all data) as [zs|] eqn:Ez; [|discriminate].
      cbn [res_bind] in E. destruct (int_all_words _ _ Ez) as [Lz _].
      split; [|now exists zs].
      destruct (Z_le_gt_dec (len data) 127) as [L|L]; [exact L|].
      unfold pack_B at 1 in E. unfold byte_of_Z in E.
      replace ((0 <=? len zs * 2) && (len zs * 2 <? 256)) with false in E;
        [discriminate|].
      symmetry. apply andb_false_iff. right. apply Z.ltb_ge. lia.
Qed.

End Responses.

Lemma coil_byte_bits_witness :
  (1 < 8)%nat /\
  Z.testbit (coil_byte [VBool false; VBool true; VBool true] 0) (Z.of_nat 1) = true.
Proof.
  split; [lia|].
  exact (coil_byte_bits [VBool false; VBool true; VBool true] 0 1 ltac:(lia)).
Defined.

Lemma exception_frame_round_trip_witness :
  exists frame r,
    exception_frame 9 1 3 4 = Ok frame /\
    len frame = 9 /\ length_field frame = 3 /\
    parse_modbus_request frame = Some r /\
    transaction_id r = 9 /\ unit_id r = 1 /\
    function_code r = Z.lor 3 0x80 /\ map byte_val (data r) = [4].
Proof.
  apply (exception_frame_round_trip 9 1 3 4); lia.
Defined.

Lemma create_modbus_response_failures_witness :
  create_modbus_response 9 1 7 [] = exception_frame 9 1 7 0x01 /\
  create_modbus_response 9 1 3 [VNone] = exception_frame 9 1 3 0x04.
Proof.
  split.
  - apply (create_modbus_response_failures 9 1 7 []); (lia || reflexivity).
  - apply (create_modbus_response_failures 9 1 3 [VNone]); try lia; try reflexivity.
    intros [_ [zs E]]. discriminate.
Defined.

(** ** One received frame *)

Lemma pack_cat_ok (a b : res (list byte)) (f : list byte) :
  a +++ b = Ok f -> exists x y, a = Ok x /\ b = Ok y /\ f = x ++ y.
Proof.
  unfold pack_cat. destruct a as [x|]; [|discriminate].
  destruct b as [y|]; [|discriminate]. cbn. intros H. inversion H. eauto.
Qed.

Lemma pack_H_nonempty (v : Z) (x : list byte) : pack_H v = Ok x -> x <> [].
Proof.
  unfold pack_H. destruct (_ && _); [|discriminate].
  destruct (byte_of_Z (v / 256)), (byte_of_Z (v mod 256));
    intros H; inversion H; discriminate.
Qed.

Lemma pack_H_cat_nonempty (v : Z) (b : res (list byte)) (f : list byte) :
  pack_H v +++ b = Ok f -> f <> [].
Proof.
  intros H. apply pack_cat_ok in H. destruct H as (x & y & Ex & _ & ->).
  apply pack_H_nonempty in Ex. destruct x; [contradiction | discriminate].
Qed.

Lemma mbap_frame_nonempty (tid uid fc : Z) (body f : list byte) :
  mbap_frame tid uid fc body = Ok f -> f <> [].
Proof.
  unfold mbap_frame, pack_HHHB. intros H.
  apply pack_cat_ok in H. destruct H as (x & y & Ex & _ & ->).
  apply pack_H_cat_nonempty in Ex. destruct x; [contradiction | discriminate].
Qed.

Lemma exception_frame_nonempty (tid uid fc code : Z) (f : list byte) :
  exception_frame tid uid fc code = Ok f -> f <> [].
Proof.
  unfold exception_frame, pack_HHHBB. intros H.
  apply pack_cat_ok in H. destruct H as (x & y & Ex & _ & ->).
  apply pack_H_cat_nonempty in Ex. destruct x; [contradiction | discriminate].
Qed.

Lemma exception_frame_ok (tid uid fc code : Z) :
  0 <= tid < 65536 -> 0 <= uid < 256 -> 0 <= fc < 256 -> 0 <= code < 256 ->
  exists f, exception_frame tid uid fc code = Ok f /\ f <> [].
Proof.
  intros Ht Hu Hf Hc.
  destruct (pack_B_ok code Hc) as (b & Eb & Wb).
  destruct (mbap_frame_ok tid uid (Z.lor fc 0x80) [b] Ht Hu (lor_80_range fc Hf))
    as (a1&a0&z1&z0&c1&c0&u&f&E&_).
  { cbn. lia. }
  rewrite (exception_frame_mbap _ _ _ _ _ Eb), E. eexists. split; [reflexivity|].
  discriminate.
Qed.

Lemma parse_some (buf : list byte) (r : request) :
  parse_modbus_request buf = Some r ->
  8 <= len buf /\ buf <> [] /\
  0 <= transaction_id r < 65536 /\ 0 <= unit_id r < 256 /\
  0 <= function_code r < 256.
Proof.
  intros H. destruct (Z_lt_ge_dec (len buf) 8) as [L|L].
  - rewrite parse_short in H by exact L. discriminate.
  - destruct (long_buffer buf) as (a1&a0&b1&b0&c1&c0&u&f&rest&->); [lia|].
    rewrite parse_cons8 in H. injection H as <-.
    cbn [transaction_id unit_id function_code].
    split; [lia|]. split; [discriminate|].
    auto using word_of_range, byte_val_range.
Qed.

Lemma read_not_write (fc : Z) : is_write fc = true -> is_read fc = false.
Proof. unfold is_read, is_write. lia. Qed.

Section Frames.
Context {T : PyText}.

Lemma create_modbus_response_nonempty (tid uid fc : Z) (data : list pyval)
    (f : list byte) :
  create_modbus_response tid uid fc data = Ok f -> f <> [].
Proof.
  unfold create_modbus_response.
  destruct (response_body fc data) as [[fc' body]|e].
  - destruct (mbap_frame tid uid fc' body) as [x|] eqn:E; cbn [try_except].
    + intros H. inversion H; subst. eapply mbap_frame_nonempty. exact E.
    + apply exception_frame_nonempty.
  - apply exception_frame_nonempty.
Qed.

(** A write request (function codes 5, 6, 15 and 16) is acknowledged by
    sending the received bytes back, and changes nothing in the
    simulator: no register is written. *)
Theorem handle_frame_write_echo (received : list byte) (r : request) (t : Q)
    (s : simulator) :
  parse_modbus_request received = Some r ->
  is_write (function_code r) = true ->
  handle_frame received t s = (Ok (Some received), s).
Proof.
  intros Hp Hw. destruct (parse_some _ _ Hp) as (_ & Hn & _).
  unfold handle_frame. rewrite Hp. cbv zeta.
  rewrite (read_not_write _ Hw), Hw. unfold bind, ret.
  destruct received; [contradiction | reflexivity].
Qed.

(** Protocol errors leave the simulator as it is. A buffer of fewer than
    8 bytes gets no response; a function code that is neither a read nor
    a write gets exception 0x01; a read request whose payload has fewer
    than 4 bytes gets exception 0x02. *)
Theorem handle_frame_protocol_errors (received : list byte) (t : Q) (s : simulator) :
  (len received < 8 -> handle_frame received t s = (Ok None, s)) /\
  (forall r,
     parse_modbus_request received = Some r ->
     is_read (function_code r) = false -> is_write (function_code r) = false ->
     exists f,
       exception_frame (transaction_id r) (unit_id r) (function_code r) 0x01 = Ok f /\
       handle_frame received t s = (Ok (Some f), s)) /\
  (forall r,
     parse_modbus_request received = Some r ->
     is_read (function_code r) = true -> len (data r) < 4 ->
     exists f,
       exception_frame (transaction_id r) (unit_id r) (function_code r) 0x02 = Ok f /\
       handle_frame received t s = (Ok (Some f), s)).
Proof.
  split; [|split].
  - intros H. unfold handle_frame. now rewrite parse_short.
  - intros r Hp Hr Hw. destruct (parse_some _ _ Hp) as (_ & _ & Ht & Hu & Hf).
    destruct (exception_frame_ok _ _ _ 0x01 Ht Hu Hf) as (f & E & Hn); [lia|].
    exists f. split; [exact E|].
    unfold handle_frame. rewrite Hp. cbv zeta. rewrite Hr, Hw.
    unfold bind, lift, ret. rewrite E.
    destruct f; [contradiction | reflexivity].
  - intros r Hp Hr Hl. destruct (parse_some _ _ Hp) as (_ & _ & Ht & Hu & Hf).
    destruct (exception_frame_ok _ _ _ 0x02 Ht Hu Hf) as (f & E & Hn); [lia|].
    exists f. split; [exact E|].
    unfold handle_frame. rewrite Hp. cbv zeta. rewrite Hr.
    replace (4 <=? len (data r)) with false by lia.
    unfold bind, lift, ret. rewrite E.
    destruct f; [contradiction | reflexivity].
Qed.

Lemma handle_frame_returns (received : list byte) (t : Q) (s : simulator) :
  exists o s',
    handle_frame received t s = (Ok o, s') /\
    (o = None <-> len received < 8) /\
    o <> Some [] /\
    (forall r e s1,
       parse_modbus_request received = Some r ->
       is_read (function_code r) = true -> 4 <= len (data r) ->
       (sq <- lift (unpack_HH (py_slice (data r) 0 4)) ;;
        response_data <-
          handle_read_request (function_code r) (fst sq) (snd sq) t ;;
        lift (create_modbus_response (transaction_id r) (unit_id r)
                (function_code r) response_data)) s = (Raise e, s1) ->
       s' = s1 /\
       exists f,
         exception_frame (transaction_id r) (unit_id r) (function_code r) 0x04
           = Ok f /\ o = Some f).
Proof.
  destruct (parse_modbus_request received) as [r|] eqn:Hp.
  - destruct (parse_some _ _ Hp) as (Hl & Hn & Ht & Hu & Hf).
    unfold handle_frame. rewrite Hp. cbv zeta.
    destruct (exception_frame_ok _ _ _ 0x01 Ht Hu Hf) as (f1 & E1 & N1); [lia|].
    destruct (exception_frame_ok _ _ _ 0x02 Ht Hu Hf) as (f2 & E2 & N2); [lia|].
    destruct (exception_frame_ok _ _ _ 0x04 Ht Hu Hf) as (f4 & E4 & N4); [lia|].
    assert (Fin : forall (resp : list byte) (s1 : simulator), resp <> [] ->
              match resp with
              | [] => ret None
              | _ :: _ => ret (Some resp)
              end s1 = (Ok (Some resp), s1)).
    { intros resp s1 N. destruct resp; [contradiction | reflexivity]. }
    destruct (is_read (function_code r)) eqn:Hr.
    + destruct (4 <=? len (data r)) eqn:H4.
      * unfold bind at 1, try_M.
        match goal with
        | |- context [match ?m s with _ => _ end] =>
            assert (R : returns (fun x : list byte => x <> []) m)
              by (apply returns_bind; intros ?; apply returns_bind; intros ?;
                  apply returns_lift; intros frame Hframe;
                  eapply create_modbus_response_nonempty; exact Hframe);
            destruct (m s) as [[resp|e] s1] eqn:Em
        end.
        -- exists (Some resp), s1. rewrite Fin by (eapply R; exact Em).
           split; [reflexivity|]. split; [split; [discriminate | lia]|].
           split; [intros H; inversion H; subst; eapply R; eauto|].
           intros r' e s2 Hp' _ _ Hm. injection Hp' as <-.
           rewrite Em in Hm. discriminate Hm.
        -- replace (lift (exception_frame (transaction_id r) (unit_id r)
                             (function_code r) 4) s1)
             with (Ok f4, s1) by (unfold lift; now rewrite E4).
           exists (Some f4), s1. rewrite Fin by exact N4.
           split; [reflexivity|]. split; [split; [discriminate | lia]|].
           split; [intros H; inversion H; subst; contradiction|].
           intros r' e' s2 Hp' _ _ Hm. injection Hp' as <-.
           rewrite Em in Hm. injection Hm as _ <-. split; [reflexivity|].
           now exists f4.
      * unfold bind, lift. rewrite E2. exists (Some f2), s. rewrite Fin by exact N2.
        split; [reflexivity|]. split; [split; [discriminate | lia]|].
        split; [intros H; inversion H; subst; contradiction|].
        intros r' e s1 Hp' _ Hl' _. injection Hp' as <-. lia.
    + destruct (is_write (function_code r)) eqn:Hw.
      * unfold bind, ret at 1. exists (Some received), s. rewrite Fin by exact Hn.
        split; [reflexivity|]. split; [split; [discriminate | lia]|].
        split; [intros H; inversion H; subst; contradiction|].
        intros r' e s1 Hp' Hr' _ _. injection Hp' as <-. congruence.
      * unfold bind, lift. rewrite E1. exists (Some f1), s. rewrite Fin by exact N1.
        split; [reflexivity|]. split; [split; [discriminate | lia]|].
        split; [intros H; inversion H; subst; contradiction|].
        intros r' e s1 Hp' Hr' _ _. injection Hp' as <-. congruence.
  - exists None, s. unfold handle_frame. rewrite Hp.
    split; [reflexivity|]. split.
    + split; [intros _ | reflexivity].
      destruct (Z_lt_ge_dec (len received) 8) as [L|L]; [exact L|].
      destruct (long_buffer received) as (a1&a0&b1&b0&c1&c0&u&f&rest&->); [lia|].
      rewrite parse_cons8 in Hp. discriminate.
    + split; [discriminate|]. intros r e s1 Hp'. discriminate.
Qed.

(** Handling a frame never raises, whatever the bytes and whatever the
    state of the simulator: a failing read is answered with exception
    0x04. A response is sent exactly when the buffer has at least 8
    bytes, and a response is never empty. *)
Theorem handle_frame_total (received : list byte) (t : Q) (s : simulator) :
  exists o s',
    handle_frame received t s = (Ok o, s') /\
    (o = None <-> len received < 8) /\
    o <> Some [] /\
    (forall r e s1,
       parse_modbus_request received = Some r ->
       is_read (function_code r) = true -> 4 <= len (data r) ->
       (sq <- lift (unpack_HH (py_slice (data r) 0 4)) ;;
        response_data <-
          handle_read_request (function_code r) (fst sq) (snd sq) t ;;
        lift (create_modbus_response (transaction_id r) (unit_id r)
                (function_code r) response_data)) s = (Raise e, s1) ->
       s' = s1 /\
       exists f,
         exception_frame (transaction_id r) (unit_id r) (function_code r) 0x04
           = Ok f /\ o = Some f).
Proof. apply handle_frame_returns. Qed.

End Frames.

Lemma handle_frame_write_echo_witness :
  handle_frame
    [Byte.x00; Byte.x01; Byte.x00; Byte.x00; Byte.x00; Byte.x06; Byte.x01;
     Byte.x06; Byte.x00; Byte.x00; Byte.x00; Byte.x2a] 0 new_simulator
  = (Ok (Some [Byte.x00; Byte.x01; Byte.x00; Byte.x00; Byte.x00; Byte.x06;
               Byte.x01; Byte.x06; Byte.x00; Byte.x00; Byte.x00; Byte.x2a]),
     new_simulator).
Proof.
  eapply handle_frame_write_echo; [apply parse_cons8 | reflexivity].
Defined.

(** ** Reads *)

Lemma same_static_refl (s : simulator) : same_static s s.
Proof. intros l. reflexivity. Qed.

Lemma same_static_trans (s1 s2 s3 : simulator) :
  same_static s1 s2 -> same_static s2 s3 -> same_static s1 s3.
Proof. intros H1 H2 l. now rewrite H2, H1. Qed.

Lemma heap_only_same_static (s s' : simulator) :
  heap_only s s' -> same_static s s'.
Proof. intros H l. now rewrite (heap_only_load _ _ l H). Qed.

Lemma store_same_static (l : loc) (c c' : config) (s : simulator) :
  load l s = Some c -> static_fields c' = static_fields c ->
  same_static s (store l c' s).
Proof.
  intros Hl Hs l'. destruct (loc_eq_dec l l') as [<-|N].
  - rewrite load_store_same, Hl. cbn. now rewrite Hs.
  - now rewrite load_store_other.
Qed.

(** *** What the read path keeps

    A read changes the simulator only by refreshing entries: a relation
    that every refresh keeps is kept by a whole frame, and by the
    client loop. *)

Section ReadPath.
Context {T : PyText}.
Variable R : simulator -> simulator -> Prop.
Hypothesis R_refl : forall s, R s s.
Hypothesis R_trans : forall s1 s2 s3, R s1 s2 -> R s2 s3 -> R s1 s3.
Hypothesis R_refresh : forall l t, preserves R (refresh l t).

Ltac keep :=
  repeat first
    [ apply R_refresh
    | apply get_config_preserves; exact R_refl
    | apply preserves_try; [exact R_trans | | ]
    | apply preserves_bind; [exact R_trans | | intros ? ]
    | apply preserves_ret; exact R_refl
    | apply preserves_lift; exact R_refl
    | apply preserves_raise; exact R_refl
    | match goal with |- preserves _ (if ?b then _ else _) => destruct b end
    | match goal with |- preserves _ (match ?v with _ => _ end) => destruct v end ].

Ltac on_state H :=
  match type of H with
  | ?m ?s = _ => assert (P : preserves R m); [|exact (P _ _ _ H)]
  end.

Lemma read_bit_keeps (sp : space) (start : Z) (t : Q) (rd : list pyval) (i : nat) :
  preserves R (read_bit sp start t rd i).
Proof.
  intros s r s' H. unfold read_bit in H. cbv zeta in H.
  destruct (dict_mem _ _).
  - on_state H. keep.
  - inversion H; subst. apply R_refl.
Qed.

Lemma copy_entry_keeps (sp : space) (start q : Z) (t : Q) (rd : list Z) (addr : Z) :
  preserves R (copy_entry sp start q t rd addr).
Proof. unfold copy_entry. cbv zeta. keep. Qed.

Lemma apply_bit_keeps (sp : space) (a : Z) (t : Q) (acc b : Z) :
  preserves R (apply_bit sp a t acc b).
Proof. unfold apply_bit. cbv zeta. keep. Qed.

Lemma generate_register_with_bits_keeps (sp : space) (a : Z) (t : Q) :
  preserves R (generate_register_with_bits sp a t).
Proof.
  unfold generate_register_with_bits.
  apply preserves_bind; [exact R_trans | |].
  - intros s r s' H. destruct (dict_mem _ _).
    + on_state H. cbv zeta. keep.
    + inversion H; subst. apply R_refl.
  - intros base s r s' H. destruct (dict_get _ _) as [bits|].
    + refine (preserves_fold_M R R_refl R_trans _ _ _ _ _ _ _ H).
      intros acc b _. apply apply_bit_keeps.
    + inversion H; subst. apply R_refl.
Qed.

Lemma overlay_keeps (sp : space) (start : Z) (t : Q) (rd : list Z) (i : nat) :
  preserves R (overlay sp start t rd i).
Proof.
  intros s r s' H. unfold overlay in H. cbv zeta in H.
  destruct (dict_mem _ _).
  - on_state H.
    apply preserves_bind;
      [exact R_trans | apply generate_register_with_bits_keeps | intros w; keep].
  - inversion H; subst. apply R_refl.
Qed.

Lemma handle_read_request_keeps (fc start q : Z) (t : Q) :
  preserves R (handle_read_request fc start q t).
Proof.
  unfold handle_read_request.
  destruct (address_type_map fc) as [sp|]; [|apply preserves_ret; exact R_refl].
  cbv zeta. destruct ((fc =? 1) || (fc =? 2)).
  - apply preserves_fold_M; [exact R_refl | exact R_trans|].
    intros rd i _. apply read_bit_keeps.
  - intros s r s' H. on_state H.
    apply preserves_bind; [exact R_trans | |].
    + apply preserves_fold_M; [exact R_refl | exact R_trans|].
      intros rd a _. apply copy_entry_keeps.
    + intros rd. apply preserves_bind; [exact R_trans | |].
      * apply preserves_fold_M; [exact R_refl | exact R_trans|].
        intros rd' i _. apply overlay_keeps.
      * intros rd'. apply preserves_ret. exact R_refl.
Qed.

Lemma handle_frame_keeps (received : list byte) (t : Q) :
  preserves R (handle_frame received t).
Proof.
  unfold handle_frame.
  destruct (parse_modbus_request received) as [rq|];
    [|apply preserves_ret; exact R_refl].
  cbv zeta. apply preserves_bind; [exact R_trans | |].
  - destruct (is_read _).
    + destruct (4 <=? _); [|apply preserves_lift; exact R_refl].
      apply preserves_try; [exact R_trans | | apply preserves_lift; exact R_refl].
      apply preserves_bind; [exact R_trans | apply preserves_lift; exact R_refl|].
      intros sq. apply preserves_bind;
        [exact R_trans | apply handle_read_request_keeps|].
      intros rd. apply preserves_lift. exact R_refl.
    + destruct (is_write _); [apply preserves_ret | apply preserves_lift];
        exact R_refl.
  - intros resp. destruct resp; apply preserves_ret; exact R_refl.
Qed.

Lemma handle_client_keeps (frames : list (list byte * Q)) :
  preserves R (handle_client frames).
Proof.
  induction frames as [|[buf t] frames IH]; cbn [handle_client].
  - apply preserves_ret. exact R_refl.
  - destruct buf as [|b buf]; [apply preserves_ret; exact R_refl|].
    apply preserves_bind; [exact R_trans | apply handle_frame_keeps|].
    intros o. apply preserves_bind; [exact R_trans | exact IH|].
    intros sent. apply preserves_ret. exact R_refl.
Qed.

End ReadPath.

Section Reads.
Context {T : PyText}.

Lemma refresh_same_static (l : loc) (t : Q) : preserves same_static (refresh l t).
Proof.
  intros s r s' H. destruct (load l s) as [c|] eqn:Hl.
  - destruct (due c t) eqn:Hd.
    + rewrite (refresh_due _ _ _ _ Hl Hd) in H.
      destruct (generate_data _ _ _) as [r1 s1] eqn:E.
      pose proof (generate_data_heap_only _ _ _ _ _ E) as Hh.
      assert (S1 : same_static s s1).
      { apply same_static_trans with (store l (with_last_update c t) s);
          [now apply (store_same_static l c) | now apply heap_only_same_static]. }
      destruct r1 as [v|e]; injection H as _ <-; [|exact S1].
      eapply same_static_trans; [exact S1|].
      apply (store_same_static l (with_last_update c t)); [|reflexivity].
      rewrite (heap_only_load _ _ _ Hh). apply load_store_same.
    + rewrite (refresh_not_due _ _ _ _ Hl Hd) in H. injection H as _ <-.
      apply same_static_refl.
  - rewrite (refresh_absent _ _ _ Hl) in H. injection H as _ <-.
    apply same_static_refl.
Qed.

Lemma handle_frame_preserves_static (received : list byte) (t : Q) :
  preserves same_static (handle_frame received t).
Proof.
  apply handle_frame_keeps;
    [exact same_static_refl | exact same_static_trans | exact refresh_same_static].
Qed.

(** Handling a frame, whatever it is and however it ends, only refreshes
    caches and timestamps: every entry and every overlay bit is still
    there with its value, interval, range, type and description, and none
    is added. *)
Theorem handle_frame_same_static (received : list byte) (t : Q) (s : simulator)
    (l : loc) :
  option_map static_fields (load l (snd (handle_frame received t s)))
    = option_map static_fields (load l s).
Proof.
  destruct (handle_frame received t s) as [r s'] eqn:E.
  exact (handle_frame_preserves_static received t s r s' E l).
Qed.

(** A read that returns gives exactly as many items as asked for, up to
    the cap of the function code: truth values for function codes 1 and
    2, integers for 3 and 4. *)
Theorem handle_read_request_count (fc start q : Z) (t : Q) (s : simulator)
    (data : list pyval) (s' : simulator) :
  is_read fc = true -> 0 <= q ->
  handle_read_request fc start q t s = (Ok data, s') ->
  len data = Z.min q (max_quantity fc) /\
  (if (fc =? 1) || (fc =? 2)
   then Forall (fun v => exists b, v = VBool b) data
   else exists zs, data = map VInt zs).
Proof.
  intros Hr Hq H.
  destruct (handle_read_request_len fc start q t Hr Hq _ _ _ H) as [L Hz].
  split; [exact L|].
  destruct ((fc =? 1) || (fc =? 2)) eqn:Eb; [|now apply Hz].
  unfold handle_read_request in H.
  destruct (address_type_map fc) as [sp|];
    [|inversion H; subst; constructor].
  cbv zeta in H. rewrite Eb in H.
  refine (fold_M_returns (Forall (fun v => exists b, v = VBool b)) _ _ _ _ _ _ _ _ H);
    [|constructor].
  intros rd i Hrd s0 v s0' H0. unfold read_bit in H0. cbv zeta in H0.
  destruct (dict_mem _ _).
  - apply bind_ok in H0. destruct H0 as (u & s1 & _ & H0).
    apply bind_ok in H0. destruct H0 as (c & s2 & _ & H0).
    inversion H0; subst. apply Forall_app. split; [exact Hrd|].
    constructor; [eauto | constructor].
  - inversion H0; subst. apply Forall_app. split; [exact Hrd|].
    constructor; [eauto | constructor].
Qed.

Lemma read_bits_unconfigured (sp : space) (start : Z) (t : Q) (s : simulator)
    (n : nat) :
  data_config s sp = [] ->
  forall (a : nat) (acc : list pyval),
  fold_M (seq a n) (read_bit sp start t) acc s
    = (Ok (acc ++ repeat (VBool false) n), s).
Proof.
  intros He. induction n as [|n IH]; intros a acc; cbn [seq fold_M repeat].
  - now rewrite app_nil_r.
  - unfold bind. unfold read_bit at 1. cbv zeta. rewrite He. cbn [dict_mem dict_get].
    rewrite IH. now rewrite <- app_assoc.
Qed.

Lemma overlays_unconfigured (sp : space) (start : Z) (t : Q) (s : simulator)
    (rd : list Z) (js : list nat) :
  bit_dict s sp = [] ->
  fold_M js (overlay sp start t) rd s = (Ok rd, s).
Proof.
  intros He. induction js as [|j js IH]; cbn [fold_M]; [reflexivity|].
  unfold bind. unfold overlay at 1. cbv zeta. rewrite He. cbn [dict_mem dict_get].
  exact IH.
Qed.

(** Reading a space that has no entry and no overlay returns as many
    items as asked for, up to the cap, each 0 (or [False] for bits), and
    leaves the simulator untouched; a quantity below 1 gives the empty
    list. *)
Theorem handle_read_request_unconfigured (fc start q : Z) (t : Q) (s : simulator)
    (sp : space) :
  address_type_map fc = Some sp ->
  data_config s sp = [] -> bit_dict s sp = [] ->
  handle_read_request fc start q t s
    = (Ok (repeat (if (fc =? 1) || (fc =? 2) then VBool false else VInt 0)
             (Z.to_nat (Z.min q (max_quantity fc)))), s).
Proof.
  intros Ha Hd Hb. unfold handle_read_request. rewrite Ha. cbv zeta.
  replace (if max_quantity fc <? q then max_quantity fc else q)
    with (Z.min q (max_quantity fc))
    by (destruct (max_quantity fc <? q) eqn:E; lia).
  destruct ((fc =? 1) || (fc =? 2)).
  - now rewrite read_bits_unconfigured.
  - rewrite Hd. cbn [keys map fold_M]. unfold bind at 1, ret at 1.
    unfold bind. rewrite overlays_unconfigured by exact Hb.
    unfold ret. now rewrite map_repeat.
Qed.

End Reads.

Lemma handle_read_request_count_witness :
  is_read 3 = true /\ 0 <= 2 /\
  len [VInt 2; VInt 2] = Z.min 2 (max_quantity 3) /\
  exists zs, [VInt 2; VInt 2] = map VInt zs.
Proof.
  split; [reflexivity|]. split; [lia|].
  exact (handle_read_request_count 3 100 2 11 wide_overlay_store [VInt 2; VInt 2]
           (snd (handle_read_request 3 100 2 11 wide_overlay_store))
           eq_refl ltac:(lia) eq_refl).
Defined.

Lemma handle_read_request_unconfigured_witness :
  handle_read_request 1 7 3 0 hello_store
    = (Ok [VBool false; VBool false; VBool false], hello_store).
Proof.
  exact (handle_read_request_unconfigured 1 7 3 0 hello_store coils
           eq_refl eq_refl eq_refl).
Defined.

(** ** Life cycle and producers *)

Lemma same_snapshot_refl (s : simulator) : same_snapshot s s.
Proof. reflexivity. Qed.

Lemma same_snapshot_trans (s1 s2 s3 : simulator) :
  same_snapshot s1 s2 -> same_snapshot s2 s3 -> same_snapshot s1 s3.
Proof. unfold same_snapshot. congruence. Qed.

Lemma heap_only_same_snapshot (s s' : simulator) :
  heap_only s s' -> same_snapshot s s'.
Proof. intros H. unfold same_snapshot. now rewrite H. Qed.

Lemma put_same_snapshot (l : loc) (c : config) : preserves same_snapshot (put l c).
Proof. intros s r s' H. inversion H; subst. now destruct l. Qed.

Ltac same_snapshot_tac :=
  repeat first
    [ apply preserves_bind; [exact same_snapshot_trans | | intros ? ]
    | apply preserves_ret; exact same_snapshot_refl
    | apply preserves_lift; exact same_snapshot_refl
    | apply preserves_raise; exact same_snapshot_refl
    | apply get_config_preserves; exact same_snapshot_refl
    | apply put_same_snapshot
    | match goal with |- preserves _ (if ?b then _ else _) => destruct b end
    | match goal with |- preserves _ (match ?v with _ => _ end) => destruct v end ].

Section LifeCycle.
Context {T : PyText}.

Lemma generate_data_same_snapshot (c : config) (t : Q) :
  preserves same_snapshot (generate_data c t).
Proof.
  intros s r s' H. apply heap_only_same_snapshot.
  eapply generate_data_heap_only. exact H.
Qed.

Lemma initialise_same_snapshot (l : loc) (t : Q) :
  preserves same_snapshot (initialise l t).
Proof.
  unfold initialise.
  apply preserves_bind;
    [exact same_snapshot_trans | apply get_config_preserves; exact same_snapshot_refl|].
  intros c. cbv zeta.
  apply preserves_bind; [exact same_snapshot_trans | apply put_same_snapshot|].
  intros _.
  apply preserves_bind; [exact same_snapshot_trans | apply generate_data_same_snapshot|].
  intros v. apply put_same_snapshot.
Qed.

Lemma set_data_config_same_snapshot (name : string) (a : Z) (v : pyval) (i : Q)
    (range : pyval) (dt : dtype) (t : Q) :
  preserves same_snapshot (set_data_config name a v i range dt t).
Proof.
  unfold set_data_config. destruct (space_of_name name);
    [|apply preserves_raise; exact same_snapshot_refl].
  apply preserves_bind; [exact same_snapshot_trans | apply put_same_snapshot|].
  intros _. apply initialise_same_snapshot.
Qed.

Lemma set_bit_config_same_snapshot (name : string) (a : Z) (bits : dict bit_spec)
    (t : Q) :
  preserves same_snapshot (set_bit_config name a bits t).
Proof.
  unfold set_bit_config. destruct (space_of_name name) as [sp|];
    [|apply preserves_raise; exact same_snapshot_refl].
  destruct (has_bits sp); [|apply preserves_raise; exact same_snapshot_refl].
  apply preserves_bind; [exact same_snapshot_trans | |].
  - intros s r s' H. destruct (dict_mem _ _); inversion H; subst; reflexivity.
  - intros _. apply preserves_for_each;
      [exact same_snapshot_refl | exact same_snapshot_trans|].
    intros [bit spec] _. unfold set_bit.
    destruct (_ || _); [apply preserves_raise; exact same_snapshot_refl|].
    apply preserves_bind; [exact same_snapshot_trans | apply put_same_snapshot|].
    intros _. apply initialise_same_snapshot.
Qed.

Lemma make_bit_same_snapshot (acc : dict bit_spec) (item : pyval * gui_bit) :
  preserves same_snapshot (make_bit acc item).
Proof.
  destruct item as [bit cfg]. unfold make_bit. cbv zeta.
  apply preserves_bind; [exact same_snapshot_trans | |].
  - destruct (String.eqb _ _); intros s r s' H; inversion H; subst; reflexivity.
  - intros f. same_snapshot_tac.
Qed.

Lemma apply_config_same_snapshot (sp : space) (t : Q) (c : gui_config) :
  preserves same_snapshot (apply_config sp t c).
Proof.
  unfold apply_config.
  apply preserves_bind;
    [exact same_snapshot_trans | apply set_data_config_same_snapshot|].
  intros _. destruct (has_bits sp); [|apply preserves_ret; exact same_snapshot_refl].
  destruct (gui_bit_config c) as [|b bs];
    [apply preserves_ret; exact same_snapshot_refl|].
  apply preserves_bind; [exact same_snapshot_trans | |].
  - apply preserves_fold_M; [exact same_snapshot_refl | exact same_snapshot_trans|].
    intros acc item _. apply make_bit_same_snapshot.
  - intros bits. destruct bits;
      [apply preserves_ret; exact same_snapshot_refl
      | apply set_bit_config_same_snapshot].
Qed.

Lemma start_server_snapshot (configs : space -> list gui_config) (t : Q)
    (s : simulator) :
  original_data_config (snd (start_server configs t s)) = Copy empty_config.
Proof.
  unfold start_server, try_M.
  match goal with
  | |- context [match ?m s with _ => _ end] =>
      assert (H : original_data_config (snd (m s)) = Copy empty_config);
      [|destruct (m s) as [[[]|e] s1]; exact H]
  end.
  unfold bind, save_original_config, apply_config_to_simulator,
    rebind_data_config at 1.
  cbn [new_extended_simulator original_data_config data_config with_original
       with_data_config with_bit_config].
  unfold bind.
  match goal with
  | |- context [for_each spaces ?f ?s0] =>
      assert (P : preserves same_snapshot (for_each spaces f));
      [|destruct (for_each spaces f s0) as [r s1] eqn:E;
        pose proof (P _ _ _ E) as Q; destruct r as [[]|e]; exact Q]
  end.
  apply preserves_for_each; [exact same_snapshot_refl | exact same_snapshot_trans|].
  intros sp _. apply preserves_for_each;
    [exact same_snapshot_refl | exact same_snapshot_trans|].
  intros c _. apply apply_config_same_snapshot.
Qed.

(** Whatever table the editor holds, stopping a server that was started
    from it leaves the simulator with no register entry at all: the
    snapshot that [reset_data] restores was saved by [start_server] before
    the table was applied. *)
Theorem stop_after_start_forgets (configs : space -> list gui_config) (t1 t2 : Q)
    (s : simulator) (sp : space) :
  fst (stop_server t2 (snd (start_server configs t1 s))) = Ok tt /\
  data_config (snd (stop_server t2 (snd (start_server configs t1 s)))) sp = [].
Proof.
  pose proof (start_server_snapshot configs t1 s) as H.
  unfold stop_server, reset_data. rewrite H. split; reflexivity.
Qed.

(** *** Producers *)

Lemma call_raises (id : nat) (args : list pyval) (t : Q) (s : simulator) :
  always_raises id s ->
  exists e s', call id args t s = (Raise e, s').
Proof.
  intros (f & Hf & Hb). unfold call. rewrite Hf. cbv zeta.
  destruct (Hb args {| clock := t; entropy := rng s (length (calls s)) |} (cells f))
    as (ex & cells' & E).
  rewrite E. eauto.
Qed.

Lemma bind_raises {A B} (m : M A) (k : A -> M B) (s : simulator) :
  (forall r s', m s = (r, s') -> s' = s) ->
  (forall a, exists e s', k a s = (Raise e, s')) ->
  exists e s', bind m k s = (Raise e, s').
Proof.
  intros Hm Hk. unfold bind. destruct (m s) as [[a|e] s1] eqn:E.
  - rewrite (Hm _ _ eq_refl). apply Hk.
  - eauto.
Qed.

Lemma param_count_state (id : nat) (s : simulator) (r : res nat) (s' : simulator) :
  param_count id s = (r, s') -> s' = s.
Proof.
  unfold param_count. destruct (nth_error (heap s) id); intros H; now inversion H.
Qed.

Lemma lift_state {A} (x : res A) (s : simulator) (r : res A) (s' : simulator) :
  lift x s = (r, s') -> s' = s.
Proof. intros H. now inversion H. Qed.

Lemma bind_raises_first {A B} (m : M A) (k : A -> M B) (s : simulator) :
  (exists e s', m s = (Raise e, s')) ->
  exists e s', bind m k s = (Raise e, s').
Proof. intros (e & s' & E). unfold bind. rewrite E. eauto. Qed.

Ltac raises_tac H :=
  first
    [ apply call_raises; exact H
    | apply bind_raises; [apply param_count_state | intros ?; raises_tac H]
    | apply bind_raises; [apply lift_state | intros ?; raises_tac H]
    | apply bind_raises_first; raises_tac H
    | match goal with
      | |- context [if ?b then _ else _] => destruct b; raises_tac H
      end ].

(** When the producer of an entry raises, whatever it is called with,
    [generate_data] returns the conversion of 0 to the declared type,
    which is a value of that type. *)
Theorem generate_data_failing_producer (c : config) (t : Q) (s : simulator)
    (id : nat) :
  value c = VFunc id -> always_raises id s ->
  exists w s',
    generate_data c t s = (Ok w, s') /\
    convert_to_data_type (VInt 0) (data_type c) = Ok w /\
    typed (data_type c) w.
Proof.
  intros Hv Hr. destruct (convert_zero (data_type c)) as (w & Ew & Tw).
  assert (G : forall (m : M pyval),
             (exists e s', m s = (Raise e, s')) ->
             exists s', try_M m (lift (convert_to_data_type (VInt 0) (data_type c))) s
                        = (Ok w, s')).
  { intros m (e & s' & E). exists s'. unfold try_M, lift. now rewrite E, Ew. }
  exists w.
  assert (exists s', generate_data c t s = (Ok w, s')) as [s' E]; [|eauto].
  unfold generate_data, generate_data_base, generate_data_extended, generate_value,
    produce.
  rewrite Hv. cbv zeta.
  destruct (class s), (is_bit_config c); apply G; raises_tac Hr.
Qed.

Lemma ramp_step (id : nat) (start step max_value : Z) (t : Q) (s : simulator) :
  nth_error (heap s) id = Some (create_ramp_function start step max_value) ->
  max_value <> 0 ->
  exists s',
    call id [] t s = (Ok (VInt ((start + step) mod max_value)), s') /\
    nth_error (heap s') id
      = Some (create_ramp_function ((start + step) mod max_value) step max_value) /\
    calls s' = calls s ++ [id] /\
    data_config s' = data_config s.
Proof.
  intros Hf Hm. unfold call. rewrite Hf. cbv zeta.
  cbn [create_ramp_function body cells signature ramp_func].
  replace (max_value =? 0) with false by lia.
  eexists. split; [reflexivity|].
  cbn [with_heap heap calls data_config]. split; [|auto].
  apply nth_error_list_set_same. apply nth_error_Some. rewrite Hf. discriminate.
Qed.

(** A counter made by [create_ramp_function] with a maximum other than 0:
    one call returns [(current + step) mod max_value], leaves the
    function object a counter that stands at that value, and is logged;
    no register entry changes. *)
Theorem ramp_call (id : nat) (start step max_value : Z) (t : Q) (s : simulator) :
  nth_error (heap s) id = Some (create_ramp_function start step max_value) ->
  max_value <> 0 ->
  exists s',
    call id [] t s = (Ok (VInt ((start + step) mod max_value)), s') /\
    nth_error (heap s') id
      = Some (create_ramp_function ((start + step) mod max_value) step max_value) /\
    calls s' = calls s ++ [id] /\
    data_config s' = data_config s.
Proof. apply ramp_step. Qed.

(** The last of [n] calls in a row returns
    [(start + n * step) mod max_value]: the counter wraps around. *)
Theorem ramp_nth_call (id : nat) (step max_value : Z) (ts : list Q) :
  max_value <> 0 ->
  forall (start : Z) (v0 : pyval) (s : simulator),
  nth_error (heap s) id = Some (create_ramp_function start step max_value) ->
  ts <> [] ->
  exists s',
    fold_M ts (fun _ t => call id [] t) v0 s
      = (Ok (VInt ((start + len ts * step) mod max_value)), s') /\
    nth_error (heap s') id
      = Some (create_ramp_function ((start + len ts * step) mod max_value)
                step max_value).
Proof.
  intros Hm. induction ts as [|t ts IH]; intros start v0 s Hf Hn; [contradiction|].
  cbn [fold_M]. unfold bind.
  destruct (ramp_step id start step max_value t s Hf Hm) as (s1 & E1 & H1 & _).
  rewrite E1.
  destruct ts as [|t' ts'].
  - cbn [fold_M]. exists s1. unfold ret. change (len [t]) with 1.
    replace (start + 1 * step) with (start + step) by lia. auto.
  - destruct (IH _ (VInt ((start + step) mod max_value)) s1 H1) as (s' & E & H');
      [discriminate|].
    exists s'. rewrite E.
    assert (A : ((start + step) mod max_value + len (t' :: ts') * step) mod max_value
                = (start + len (t :: t' :: ts') * step) mod max_value).
    { rewrite Z.add_mod_idemp_l by exact Hm. f_equal. rewrite (len_cons t). lia. }
    rewrite <- A. auto.
Qed.

End LifeCycle.

Lemma generate_data_failing_producer_witness :
  value ramp_entry = VFunc 0 /\ always_raises 0 broken_ramp_store /\
  fst (generate_data ramp_entry 1 broken_ramp_store) = Ok (VInt 0).
Proof.
  assert (H : always_raises 0 broken_ramp_store).
  { eexists. split; [reflexivity|]. intros args e cells. eexists _, _. reflexivity. }
  split; [reflexivity|]. split; [exact H|].
  destruct (generate_data_failing_producer ramp_entry 1 broken_ramp_store 0
              eq_refl H) as (w & s' & E & Ew & _).
  rewrite E. cbn in Ew. now rewrite Ew.
Defined.

Lemma ramp_call_witness :
  exists s',
    call 0 [] 1 ramp_store = (Ok (VInt ((0 + 1) mod 65536)), s') /\
    nth_error (heap s') 0
      = Some (create_ramp_function ((0 + 1) mod 65536) 1 65536) /\
    calls s' = calls ramp_store ++ [0%nat] /\
    data_config s' = data_config ramp_store.
Proof.
  apply (ramp_call 0 0 1 65536 1 ramp_store eq_refl). discriminate.
Defined.

Lemma ramp_nth_call_witness :
  exists s',
    fold_M [1%Q; 2%Q; 3%Q] (fun _ t => call 0 [] t) VNone ramp_store
      = (Ok (VInt ((0 + len [1%Q; 2%Q; 3%Q] * 1) mod 65536)), s') /\
    nth_error (heap s') 0
      = Some (create_ramp_function ((0 + len [1%Q; 2%Q; 3%Q] * 1) mod 65536)
                1 65536).
Proof.
  apply (ramp_nth_call 0 1 65536 [1%Q; 2%Q; 3%Q]);
    [discriminate | reflexivity | discriminate].
Defined.

(** ** The extended generator and the installers *)

Lemma Qcompare_inject_Z (a b : Z) : (inject_Z a ?= inject_Z b)%Q = (a ?= b).
Proof. unfold Qcompare, inject_Z. cbn. now rewrite !Z.mul_1_r. Qed.

Lemma py_lt_int (a b : Z) : py_lt (VInt a) (VInt b) = Ok (a <? b).
Proof.
  cbn [py_lt ext_of ext_lt]. rewrite Qcompare_inject_Z. unfold Z.ltb.
  now destruct (a ?= b).
Qed.

Lemma py_min_int (a b : Z) : py_min (VInt a) (VInt b) = Ok (VInt (Z.min a b)).
Proof.
  unfold py_min. rewrite py_lt_int. cbn [res_map res_bind].
  destruct (b <? a) eqn:E; do 2 f_equal; lia.
Qed.

Lemma py_max_int (a b : Z) : py_max (VInt a) (VInt b) = Ok (VInt (Z.max a b)).
Proof.
  unfold py_max. rewrite py_lt_int. cbn [res_map res_bind].
  destruct (a <? b) eqn:E; do 2 f_equal; lia.
Qed.


Section Extended.
Context {T : PyText}.

(** In the extended simulator, a producer without parameters whose entry
    has a range of two integers returns its integer result forced into
    the range, [max(lo, min(hi, result))], before conversion; unless the
    description names a random increment counter or the function object
    holds a counter cell (a one-element list of an integer), in which
    case the result is converted as it is. *)
Theorem extended_generate_data_clamps (c : config) (t : Q) (s : simulator)
    (id : nat) (f : func) (lo hi r : Z) (cells' : list pyval) (w : pyval) :
  class s = ExtendedModbusTCPSimulator ->
  value c = VFunc id -> nth_error (heap s) id = Some f ->
  signature f = Ok 0%nat ->
  data_range c = VList [VInt lo; VInt hi] ->
  body f [] {| clock := t; entropy := rng s (length (calls s)) |} (cells f)
    = (Ok (VInt r), cells') ->
  convert_to_data_type
    (VInt (if str_contains random_increment_mark
                (match description c with Some d => d | None => [] end)
              || existsb is_counter_cell cells'
           then r else Z.max lo (Z.min hi r)))
    (data_type c) = Ok w ->
  fst (generate_data c t s) = Ok w.
Proof.
  intros Hc Hv Hf Hs Hr Hb Hw.
  unfold generate_data. rewrite Hc. unfold generate_data_extended. rewrite Hv.
  cbv zeta. unfold try_M, bind at 1, param_count. rewrite Hf, Hs, Hr.
  cbn [py_bool long_list len length Z.of_nat Pos.of_succ_nat Pos.succ Z.ltb
       Z.compare Pos.compare Pos.compare_cont Nat.eqb].
  unfold bind at 1, call. rewrite Hf. cbv zeta. rewrite Hb.
  unfold bind at 1, lift at 1, out_of_range.
  cbn [py_index nth_error res_bind]. rewrite py_lt_int. cbn [res_bind].
  set (s1 := with_heap s _ _).
  assert (Hcl : closure id s1 = (Ok cells', s1)).
  { unfold closure, s1. cbn [heap with_heap].
    rewrite nth_error_list_set_same; [reflexivity|].
    apply nth_error_Some. rewrite Hf. discriminate. }
  revert Hw.
  destruct (str_contains _ _ || existsb _ _) eqn:Ef; intros Hw.
  - destruct (r <? lo) eqn:E1.
    + unfold bind at 1, bind at 1. rewrite Hcl, Ef. unfold ret at 1, lift.
      now rewrite Hw.
    + rewrite py_lt_int. destruct (hi <? r) eqn:E2.
      * unfold bind at 1, bind at 1. rewrite Hcl, Ef. unfold ret at 1, lift.
        now rewrite Hw.
      * unfold bind at 1, ret at 1, lift. now rewrite Hw.
  - assert (Hclamp : clamp_to_range (VInt r) (VList [VInt lo; VInt hi])
                     = Ok (VInt (Z.max lo (Z.min hi r)))).
    { unfold clamp_to_range. cbn [py_index nth_error res_bind].
      rewrite py_min_int. cbn [res_bind]. apply py_max_int. }
    destruct (r <? lo) eqn:E1.
    + unfold bind at 1, bind at 1. rewrite Hcl, Ef. unfold lift at 1.
      rewrite Hclamp. unfold lift. now rewrite Hw.
    + rewrite py_lt_int. destruct (hi <? r) eqn:E2.
      * unfold bind at 1, bind at 1. rewrite Hcl, Ef. unfold lift at 1.
        rewrite Hclamp. unfold lift. now rewrite Hw.
      * unfold bind at 1, ret at 1, lift.
        replace (Z.max lo (Z.min hi r)) with r in Hw by lia. now rewrite Hw.
Qed.



End Extended.

Lemma extended_generate_data_clamps_witness :
  fst (generate_data switch_entry 1 switch_store) = Ok (VInt 5).
Proof.
  apply (extended_generate_data_clamps switch_entry 1 switch_store 0
           create_robust_boolean_function 5 10 0 [] (VInt 5));
    reflexivity.
Defined.


(** ** Serving and resetting *)

Section Serving.
Context {T : PyText}.

Lemma refresh_same_snapshot (l : loc) (t : Q) : preserves same_snapshot (refresh l t).
Proof.
  intros s r s' H. destruct (load l s) as [c|] eqn:Hl.
  - destruct (due c t) eqn:Hd.
    + rewrite (refresh_due _ _ _ _ Hl Hd) in H.
      destruct (generate_data _ _ _) as [r1 s1] eqn:E.
      apply generate_data_heap_only, heap_only_same_snapshot in E.
      unfold same_snapshot in *.
      destruct r1 as [v|e]; injection H as _ <-; destruct l; cbn in *; exact E.
    + rewrite (refresh_not_due _ _ _ _ Hl Hd) in H. now injection H as _ <-.
  - rewrite (refresh_absent _ _ _ Hl) in H. now injection H as _ <-.
Qed.

(** A reset after any frames served gives back the register table as it
    was when the snapshot was saved, cached values and timestamps
    included: serving does not reach the snapshot. *)
Theorem reset_after_serving (frames : list (list byte * Q)) (t : Q) (s : simulator) :
  fst (reset_data t (snd (handle_client frames (snd (save_original_config s)))))
    = Ok tt /\
  data_config
    (snd (reset_data t (snd (handle_client frames (snd (save_original_config s))))))
    = data_config s.
Proof.
  destruct (handle_client frames (snd (save_original_config s))) as [r s2] eqn:E.
  pose proof (handle_client_keeps same_snapshot same_snapshot_refl
                same_snapshot_trans refresh_same_snapshot frames _ _ _ E) as H.
  unfold same_snapshot in H. cbn [snd save_original_config original_data_config
                                   with_original] in H.
  cbn [snd]. unfold reset_data. rewrite H. split; reflexivity.
Qed.

(** No sequence of received buffers makes the handling in the client
    loop raise: every buffer received before the connection is closed is
    handled, and it is answered exactly when it has at least 8 bytes,
    never with an empty response. *)
Theorem handle_client_total (frames : list (list byte * Q)) (s : simulator) :
  exists outs s',
    handle_client frames s = (Ok outs, s') /\
    Forall2 (fun frame o => (o = None <-> len (fst frame) < 8) /\ o <> Some [])
            (until_close frames) outs.
Proof.
  revert s. induction frames as [|[buf t] frames IH]; intros s;
    cbn [handle_client until_close].
  - exists [], s. split; [reflexivity | constructor].
  - destruct buf as [|b buf].
    + exists [], s. split; [reflexivity | constructor].
    + destruct (handle_frame_returns (b :: buf) t s) as (o & s1 & E & Hn & He & _).
      destruct (IH s1) as (outs & s' & E' & F).
      exists (o :: outs), s'. unfold bind. rewrite E, E'. split; [reflexivity|].
      constructor; [split; assumption | exact F].
Qed.

(** One [generate_data] calls at most one function object, the entry's
    own producer, and at most once. *)
Theorem generate_data_calls_once (c : config) (t : Q) (s : simulator) :
  calls (snd (generate_data c t s)) = calls s \/
  exists id, value c = VFunc id /\
             calls (snd (generate_data c t s)) = calls s ++ [id].
Proof.
  destruct (generate_data c t s) as [r s'] eqn:E.
  exact (generate_data_calls c t s r s' E).
Qed.

(** *** Installing bits *)

Lemma generate_data_bool (c : config) (t : Q) (s : simulator) :
  data_type c = bool_t ->
  exists v s', generate_data c t s = (Ok v, s') /\ heap_only s s'.
Proof.
  intros Hd. destruct (callable (value c)) eqn:Ec.
  - now apply generate_data_callable.
  - rewrite generate_data_constant by exact Ec. rewrite Hd.
    eexists _, s. split; [reflexivity | apply heap_only_refl].
Qed.

Lemma set_bit_ok (sp : space) (a : Z) (t : Q) (bit : Z) (spec : bit_spec)
    (s : simulator) :
  0 <= bit <= 15 ->
  exists s',
    set_bit sp a t (bit, spec) s = (Ok tt, s') /\
    seeded t (BitLoc sp a bit) s' /\
    (forall l, l <> BitLoc sp a bit -> load l s' = load l s) /\
    data_config s' = data_config s.
Proof.
  intros Hb. unfold set_bit.
  replace ((bit <? 0) || (15 <? bit)) with false by lia.
  unfold bind at 1, put at 1.
  match goal with
  | |- context [store (BitLoc sp a bit) ?c0 s] => set (c := c0)
  end.
  rewrite (initialise_run _ c) by apply load_store_same.
  destruct (generate_data_bool (with_last_update c t) t
              (store (BitLoc sp a bit) (with_last_update c t)
                 (store (BitLoc sp a bit) c s)) eq_refl) as (v & s1 & E & Hh).
  rewrite E. eexists. split; [reflexivity|]. split; [|split].
  - eexists. split; [apply load_store_same|]. split; [reflexivity | discriminate].
  - intros l N. rewrite load_store_other by congruence.
    rewrite (heap_only_load _ _ _ Hh). rewrite !load_store_other by congruence.
    reflexivity.
  - rewrite store_data_config_bit. rewrite Hh. reflexivity.
Qed.

Lemma set_bits_ok (sp : space) (a : Z) (t : Q) (bits : dict bit_spec) :
  (forall b spec, In (b, spec) bits -> 0 <= b <= 15) ->
  forall s,
  exists s',
    for_each bits (set_bit sp a t) s = (Ok tt, s') /\
    (forall b spec, In (b, spec) bits -> seeded t (BitLoc sp a b) s') /\
    (forall l, seeded t l s -> seeded t l s') /\
    data_config s' = data_config s.
Proof.
  induction bits as [|[b spec] bits IH]; intros Hr s; cbn [for_each].
  - exists s. split; [reflexivity|]. split; [intros ? ? []|]. auto.
  - destruct (set_bit_ok sp a t b spec s) as (s1 & E1 & S1 & F1 & D1).
    { apply (Hr b spec). now left. }
    destruct (IH (fun b' spec' H => Hr b' spec' (or_intror H)) s1)
      as (s' & E & S & K & D).
    exists s'. unfold bind. rewrite E1, E. split; [reflexivity|].
    split; [|split].
    + intros b' spec' [Heq|Hin]; [|eauto].
      inversion Heq; subst. now apply K.
    + intros l Hl. apply K. destruct (loc_eq_dec l (BitLoc sp a b)) as [->|N];
        [exact S1|].
      destruct Hl as (c & Hc & Hs). exists c. now rewrite F1.
    + congruence.
Qed.


End Serving.


(** ** Rejected configuration *)

Lemma for_each_app {A} (xs ys : list A) (f : A -> M unit) (s : simulator) :
  for_each (xs ++ ys) f s
    = match for_each xs f s with
      | (Ok _, s') => for_each ys f s'
      | (Raise e, s') => (Raise e, s')
      end.
Proof.
  revert s. induction xs as [|x xs IH]; intros s; cbn [app for_each].
  - reflexivity.
  - unfold bind. destruct (f x s) as [[[]|e] s1]; [apply IH | reflexivity].
Qed.

(** An empty overlay holds no bit: creating it changes no location. *)
Lemma new_overlay_load (sp : space) (a : Z) (s : simulator) (l : loc) :
  dict_mem (bit_config s sp) a = false ->
  load l (with_bit_config s
            (upd (bit_config s) sp (dict_set (bit_config s sp) a [])))
    = load l s.
Proof.
  intros Hm. unfold dict_mem in Hm.
  destruct (dict_get (bit_config s sp) a) eqn:Eg; [discriminate|].
  destruct l as [sp' a'|sp' a' b]; [reflexivity|].
  cbn [load bit_config with_bit_config].
  destruct (space_eqb sp sp') eqn:Es.
  - apply space_eqb_eq in Es. subst sp'. rewrite upd_same.
    destruct (Z.eq_dec a a') as [->|N].
    + now rewrite dict_get_set_same, Eg.
    + now rewrite dict_get_set_other by exact N.
  - unfold upd. now rewrite Es.
Qed.

Section Rejected.
Context {T : PyText}.

Lemma set_bits_frame (sp : space) (a : Z) (t : Q) (bits : dict bit_spec) :
  (forall b spec, In (b, spec) bits -> 0 <= b <= 15) ->
  forall s s', for_each bits (set_bit sp a t) s = (Ok tt, s') ->
  forall l, (forall b spec, In (b, spec) bits -> l <> BitLoc sp a b) ->
  load l s' = load l s.
Proof.
  induction bits as [|[b spec] bits IH]; intros Hr s s' E l Hl; cbn [for_each] in E.
  - now injection E as <-.
  - destruct (set_bit_ok sp a t b spec s) as (s1 & E1 & _ & F1 & _).
    { apply (Hr b spec). now left. }
    unfold bind in E. rewrite E1 in E.
    rewrite (IH (fun b' spec' H => Hr b' spec' (or_intror H)) s1 s' E l
               (fun b' spec' H => Hl b' spec' (or_intror H))).
    apply F1. apply (Hl b spec). now left.
Qed.

(** C9 (as amended). Both installers reject an unknown space name with
    [ValueError] and leave the simulator as it was, and so does the bit
    installer for a space without overlays. A bit index outside 0..15
    makes the bit installer raise, and then no register entry has changed,
    although the overlay may have: when the rejected index comes first,
    exactly by an empty overlay for the address if there was none; and in
    general the call raises [ValueError] in the very state that the call
    with only the bits listed before the rejected index returns in, so
    that those bits are installed, stamped with the time of the call and
    hold a value, and nothing else is written, the bits listed after the
    rejected index included. The register installer checks neither the
    interval nor the range: for any of them the entry is installed with
    the fields given, and the call returns when the value is a producer
    or converts to the declared type. *)
Theorem ingest_validation (s : simulator) (address : Z) (now : Q) :
  (forall name value interval data_range data_type,
     space_of_name name = None ->
     set_data_config name address value interval data_range data_type now s
       = (Raise ValueError, s)) /\
  (forall name bit_configs,
     match space_of_name name with
     | None => True
     | Some sp => has_bits sp = false
     end ->
     set_bit_config name address bit_configs now s = (Raise ValueError, s)) /\
  (forall name sp bit_configs,
     space_of_name name = Some sp -> has_bits sp = true ->
     (exists bit spec, In (bit, spec) bit_configs /\ (bit < 0 \/ 15 < bit)) ->
     exists e s',
       set_bit_config name address bit_configs now s = (Raise e, s') /\
       data_config s' = data_config s) /\
  (forall name sp bit spec rest,
     space_of_name name = Some sp -> has_bits sp = true ->
     bit < 0 \/ 15 < bit ->
     set_bit_config name address ((bit, spec) :: rest) now s
       = (Raise ValueError,
          if dict_mem (bit_config s sp) address then s
          else with_bit_config s
                 (upd (bit_config s) sp (dict_set (bit_config s sp) address [])))) /\
  (forall name sp installed bit spec rest,
     space_of_name name = Some sp -> has_bits sp = true ->
     (forall b c, In (b, c) installed -> 0 <= b <= 15) ->
     bit < 0 \/ 15 < bit ->
     exists s',
       set_bit_config name address installed now s = (Ok tt, s') /\
       set_bit_config name address (installed ++ (bit, spec) :: rest) now s
         = (Raise ValueError, s') /\
       data_config s' = data_config s /\
       (forall b c, In (b, c) installed -> seeded now (BitLoc sp address b) s') /\
       (forall l, (forall b c, In (b, c) installed -> l <> BitLoc sp address b) ->
                  load l s' = load l s)) /\
  (forall name sp val itv range dt,
     space_of_name name = Some sp ->
     exists r s' c,
       set_data_config name address val itv range dt now s = (r, s') /\
       load (DataLoc sp address) s' = Some c /\
       value c = val /\ interval c = itv /\ data_range c = range /\
       data_type c = dt /\ last_update c = now /\
       (callable val = true \/ (exists v, convert_to_data_type val dt = Ok v) ->
        r = Ok tt /\ current_value c <> None)).
Proof.
  split; [|split; [|split; [|split; [|split]]]].
  - intros name val itv range dt Hn. unfold set_data_config. now rewrite Hn.
  - intros name bit_configs Hn. unfold set_bit_config.
    destruct (space_of_name name) as [sp|]; [|reflexivity]. now rewrite Hn.
  - intros name sp bit_configs Hn Hb Hbad. unfold set_bit_config. rewrite Hn, Hb.
    unfold bind at 1.
    destruct (dict_mem (bit_config s sp) address);
      match goal with
      | |- context [for_each bit_configs ?f ?s0] =>
          destruct (for_each_set_bit_raises sp address now bit_configs Hbad s0)
            as (e & s' & E);
          exists e, s'; split; [exact E|];
          assert (P : preserves same_registers (for_each bit_configs f))
            by (apply preserves_for_each;
                [exact same_registers_refl | exact same_registers_trans
                | intros; apply set_bit_same_registers]);
          exact (P _ _ _ E)
      end.
  - intros name sp bit spec rest Hn Hb Hbad. unfold set_bit_config. rewrite Hn, Hb.
    unfold bind at 1. cbn [for_each].
    destruct (dict_mem (bit_config s sp) address);
      unfold bind; now rewrite set_bit_out_of_range.
  - intros name sp installed bit spec rest Hn Hb Hr Hbad.
    unfold set_bit_config. rewrite Hn, Hb. unfold bind.
    destruct (dict_mem (bit_config s sp) address) eqn:Em;
      match goal with
      | |- context [for_each installed _ ?s0] =>
          destruct (set_bits_ok sp address now installed Hr s0)
            as (s' & E & S & _ & D);
          exists s'; rewrite for_each_app, E; cbn [for_each]; unfold bind;
          rewrite set_bit_out_of_range by exact Hbad;
          split; [reflexivity|]; split; [reflexivity|];
          split; [exact D|]; split; [exact S|];
          intros l Hl; rewrite (set_bits_frame sp address now installed Hr _ _ E l Hl)
      end.
    + reflexivity.
    + apply new_overlay_load. exact Em.
  - intros name sp val itv range dt Hn. unfold set_data_config. rewrite Hn.
    unfold bind at 1, put at 1.
    set (c0 := {| value := val; interval := itv; last_update := 0%Q;
                  data_range := range; data_type := dt; current_value := None;
                  description := None; is_bit_config := false |}).
    rewrite (initialise_run _ c0) by apply load_store_same.
    destruct (generate_data _ _ _) as [[v|e] s1] eqn:E.
    + eexists _, _, _. split; [reflexivity|]. split; [apply load_store_same|].
      cbn. do 5 (split; [reflexivity|]). intros _. split; [reflexivity|discriminate].
    + eexists _, _, _. split; [reflexivity|]. split.
      { rewrite (heap_only_load _ _ _ (generate_data_heap_only _ _ _ _ _ E)).
        apply load_store_same. }
      cbn. do 5 (split; [reflexivity|]). intros H. exfalso.
      destruct (callable val) eqn:Ec.
      * destruct (generate_data_callable (with_last_update c0 now) now
                    (store (DataLoc sp address) (with_last_update c0 now)
                       (store (DataLoc sp address) c0 s)) Ec) as (v & s2 & E2 & _).
        rewrite E2 in E. discriminate.
      * destruct H as [H|[v H]]; [discriminate|].
        rewrite generate_data_constant in E by exact Ec. cbn in E.
        rewrite H in E. discriminate.
Qed.

End Rejected.

(** ** What a read returns *)

Section BitReads.
Context {T : PyText}.

Lemma read_bit_ok (sp : space) (start : Z) (t : Q) (rd : list pyval) (i : nat)
    (s : simulator) (rd' : list pyval) (s' : simulator) :
  read_bit sp start t rd i s = (Ok rd', s') ->
  only_at (eq (DataLoc sp (start + Z.of_nat i))) s s' /\
  rd' = rd ++ [VBool (cached_truth (load (DataLoc sp (start + Z.of_nat i)) s'))].
Proof.
  intros H. unfold read_bit in H. cbv zeta in H.
  destruct (dict_mem (data_config s sp) (start + Z.of_nat i)) eqn:Em.
  - apply bind_ok in H. destruct H as ([] & s1 & R & H).
    apply bind_ok in H. destruct H as (c & s2 & G & H).
    apply get_config_ok in G. destruct G as [-> Hl]. inversion H; subst.
    split; [exact (refresh_only_at _ _ _ _ _ R)|]. now rewrite Hl.
  - inversion H; subst. split; [apply only_at_refl|].
    unfold dict_mem in Em. cbn [load].
    now destruct (dict_get (data_config s' sp) (start + Z.of_nat i)).
Qed.

Lemma read_bits_ok (sp : space) (start : Z) (t : Q) (js : list nat) :
  NoDup js ->
  forall (rd : list pyval) (s : simulator) (rd' : list pyval) (s' : simulator),
  fold_M js (read_bit sp start t) rd s = (Ok rd', s') ->
  only_at (fun l => exists j, In j js /\ l = DataLoc sp (start + Z.of_nat j)) s s' /\
  rd' = rd ++ map (fun j => VBool (cached_truth
                                     (load (DataLoc sp (start + Z.of_nat j)) s'))) js.
Proof.
  induction js as [|j js IH]; intros Hn rd s rd' s' H; cbn [fold_M] in H.
  - inversion H; subst. split; [apply only_at_refl | now rewrite app_nil_r].
  - inversion Hn as [|? ? Nj Hn']; subst.
    apply bind_ok in H. destruct H as (rd1 & s1 & E1 & E2).
    apply read_bit_ok in E1. destruct E1 as [O1 ->].
    destruct (IH Hn' _ _ _ _ E2) as [O2 ->]. split.
    + eapply only_at_trans; [eapply only_at_weaken; [|exact O1]
                            | eapply only_at_weaken; [|exact O2]].
      * intros l <-. exists j. split; [now left | reflexivity].
      * intros l (j' & Hj & ->). exists j'. split; [now right | reflexivity].
    + rewrite <- app_assoc. cbn [map app]. do 3 f_equal.
      destruct O2 as [L2 _]. rewrite L2; [reflexivity|].
      intros (j' & Hj & E). inversion E. assert (j' = j) by lia. subst. contradiction.
Qed.

(** A read of coils or discrete inputs returns, for each address of the
    window in order, the truth value of the cached value that the
    address has when the read is over, and [False] for an address
    without entry. *)
Theorem handle_read_request_bits (fc start q : Z) (t : Q) (s : simulator)
    (sp : space) (data : list pyval) (s' : simulator) :
  address_type_map fc = Some sp -> (fc =? 1) || (fc =? 2) = true ->
  handle_read_request fc start q t s = (Ok data, s') ->
  data = map (fun j => VBool (cached_truth
                                (load (DataLoc sp (start + Z.of_nat j)) s')))
             (seq 0 (Z.to_nat (Z.min q (max_quantity fc)))).
Proof.
  intros Ha Hb H. unfold handle_read_request in H. rewrite Ha in H.
  cbv zeta in H. rewrite Hb in H.
  replace (if max_quantity fc <? q then max_quantity fc else q)
    with (Z.min q (max_quantity fc)) in H
    by (destruct (max_quantity fc <? q) eqn:E; lia).
  destruct (read_bits_ok sp start t _ (seq_NoDup _ _) _ _ _ _ H) as [_ E].
  exact E.
Qed.

End BitReads.

Lemma handle_read_request_bits_witness :
  [VBool false; VBool true]
  = map (fun j => VBool (cached_truth
                           (load (DataLoc coils (7 + Z.of_nat j))
                              (snd (handle_read_request 1 7 2 0 coil_store)))))
        (seq 0 (Z.to_nat (Z.min 2 (max_quantity 1)))).
Proof.
  exact (handle_read_request_bits 1 7 2 0 coil_store coils
           [VBool false; VBool true]
           (snd (handle_read_request 1 7 2 0 coil_store))
           eq_refl eq_refl eq_refl).
Defined.

Lemma nth_error_py_slice_assign {A} (l r : list A) (a b : Z) (i : nat) :
  0 <= a -> a <= b -> b <= len l -> len r = b - a ->
  nth_error (py_slice_assign l a b r) i
    = if (a <=? Z.of_nat i) && (Z.of_nat i <? b)
      then nth_error r (Z.to_nat (Z.of_nat i - a))
      else nth_error l i.
Proof.
  intros Ha Hab Hb Hr. unfold py_slice_assign.
  rewrite !slice_bound_nonneg by (auto using len_nonneg; lia).
  rewrite (Z.min_l a), (Z.min_l b), (Z.max_r a b) by lia.
  unfold len in *.
  destruct (Z_lt_ge_dec (Z.of_nat i) a) as [L|L].
  - replace (a <=? Z.of_nat i) with false by lia. cbn [andb].
    rewrite nth_error_app1 by (rewrite length_firstn; lia).
    rewrite nth_error_firstn.
    now replace (i <? Z.to_nat a)%nat with true by (symmetry; apply Nat.ltb_lt; lia).
  - replace (a <=? Z.of_nat i) with true by lia. cbn [andb].
    rewrite nth_error_app2 by (rewrite length_firstn; lia).
    rewrite length_firstn. replace (Nat.min (Z.to_nat a) (length l)) with (Z.to_nat a) by lia.
    replace (i - Z.to_nat a)%nat with (Z.to_nat (Z.of_nat i - a)) by lia.
    destruct (Z_lt_ge_dec (Z.of_nat i) b) as [L'|L'].
    + replace (Z.of_nat i <? b) with true by lia.
      apply nth_error_app1. lia.
    + replace (Z.of_nat i <? b) with false by lia.
      rewrite nth_error_app2 by lia. rewrite nth_error_skipn. f_equal. lia.
Qed.

Lemma nth_error_py_slice_0 {A} (l : list A) (k : Z) (i : nat) :
  0 <= k -> Z.of_nat i < k -> nth_error (py_slice l 0 k) i = nth_error l i.
Proof.
  intros Hk Hi. rewrite py_slice_nonneg by lia. cbn [Z.to_nat skipn].
  rewrite nth_error_firstn.
  now replace (i <? Z.to_nat (k - 0))%nat with true by (symmetry; apply Nat.ltb_lt; lia).
Qed.

Lemma py_slice_from_spec {A} (l : list A) (o : Z) (i : nat) :
  0 <= o ->
  nth_error (py_slice_from l o) i = nth_error l (Z.to_nat o + i) /\
  len (py_slice_from l o) = Z.max 0 (len l - o).
Proof.
  intros Ho. unfold py_slice_from.
  rewrite slice_bound_nonneg by (auto using len_nonneg). unfold len.
  rewrite length_skipn, nth_error_skipn.
  destruct (Z_le_gt_dec o (Z.of_nat (length l))) as [L|L].
  - rewrite Z.min_l by lia. split; [reflexivity | lia].
  - rewrite Z.min_r by lia. split; [|lia].
    rewrite Nat2Z.id.
    transitivity (@None A); [|symmetry]; apply nth_error_None; lia.
Qed.

Section Placement.
Context {T : PyText}.

(** One entry of a register space is laid over the response array of a
    read as follows. If the entry starts at or after the first address
    read, or starts before it and reaches it by the width that
    [get_register_count] reports for its type, its packed words are laid
    over the array from index [address - start] on, cut at both ends of
    the array; otherwise the array is left as it is. The words are those
    of the cached value the entry has after the step. *)
Theorem copy_entry_places (sp : space) (start q : Z) (t : Q) (rd : list Z)
    (addr : Z) (s : simulator) (rd' : list Z) (s' : simulator) :
  0 <= q -> len rd = q ->
  copy_entry sp start q t rd addr s = (Ok rd', s') ->
  exists c,
    load (DataLoc sp addr) s' = Some c /\
    forall i, Z.of_nat i < q ->
      nth_error rd' i
        = if (start <=? addr) || (start <=? addr + get_register_count (data_type c) - 1)
          then placed rd (pack_value_to_registers (cached c) (data_type c))
                      (addr - start) i
          else nth_error rd i.
Proof.
  intros Hq Hrd H. unfold copy_entry in H.
  apply bind_ok in H. destruct H as (c0 & s0 & G0 & H).
  apply get_config_ok in G0. destruct G0 as [-> Hl0].
  destruct ((start <=? addr) && (addr <? start + q)) eqn:Ein.
  - apply andb_true_iff in Ein. destruct Ein as [E1 E2].
    apply Z.leb_le in E1. apply Z.ltb_lt in E2.
    apply bind_ok in H. destruct H as ([] & s1 & R & H).
    apply bind_ok in H. destruct H as (c & s2 & G & H).
    apply get_config_ok in G. destruct G as [-> Hl]. cbv zeta in H.
    exists c.
    set (regs := pack_value_to_registers (cached c) (data_type c)) in *.
    pose proof (len_nonneg regs) as Hn.
    replace (start <=? addr) with true by lia. cbn [orb]. unfold placed.
    destruct (addr - start + len regs <=? q) eqn:Ee; inversion H; subst rd' s'.
    + apply Z.leb_le in Ee. split; [exact Hl|]. intros i Hi.
      apply nth_error_py_slice_assign; lia.
    + apply Z.leb_gt in Ee. split; [exact Hl|]. intros i Hi.
      rewrite nth_error_py_slice_assign; try lia.
      * destruct (addr - start <=? Z.of_nat i) eqn:Ea; cbn [andb]; [|reflexivity].
        apply Z.leb_le in Ea.
        replace (Z.of_nat i <? q) with true by lia.
        replace (Z.of_nat i <? addr - start + len regs) with true by lia.
        rewrite nth_error_py_slice_0 by lia. reflexivity.
      * rewrite py_slice_len; lia.
  - cbv zeta in H.
    assert (Hout : start <= addr -> start + q <= addr).
    { intros L. apply andb_false_iff in Ein. destruct Ein as [E|E]; lia. }
    destruct ((addr <? start) && (start <=? addr + get_register_count (data_type c0) - 1))
      eqn:Es.
    + apply andb_true_iff in Es. destruct Es as [E1 E2].
      apply Z.ltb_lt in E1. apply Z.leb_le in E2.
      apply bind_ok in H. destruct H as ([] & s1 & R & H).
      apply bind_ok in H. destruct H as (c & s2 & G & H).
      apply get_config_ok in G. destruct G as [-> Hl]. inversion H; subst rd' s'.
      pose proof (refresh_same_static _ _ _ _ _ R (DataLoc sp addr)) as St.
      rewrite Hl, Hl0 in St. cbn [option_map] in St.
      assert (Hdt : data_type c = data_type c0)
        by (unfold static_fields in St; congruence).
      exists c. split; [exact Hl|]. intros i Hi. rewrite Hdt.
      replace (start <=? addr + get_register_count (data_type c0) - 1) with true by lia.
      rewrite orb_true_r. unfold placed.
      set (regs := pack_value_to_registers (cached c) (data_type c0)) in *.
      destruct (py_slice_from_spec regs (start - addr) 0 ltac:(lia)) as [_ Lf].
      set (rtc := py_slice_from regs (start - addr)) in *.
      pose proof (len_nonneg regs) as Hn.
      rewrite nth_error_py_slice_assign; try lia.
      * replace (0 <=? Z.of_nat i) with true by lia.
        replace (addr - start <=? Z.of_nat i) with true by lia. cbn [andb].
        destruct (Z.of_nat i <? Z.min (len rtc) q) eqn:Ec.
        -- apply Z.ltb_lt in Ec.
           replace (Z.of_nat i <? addr - start + len regs) with true by lia.
           rewrite nth_error_py_slice_0 by lia.
           unfold rtc.
           destruct (py_slice_from_spec regs (start - addr)
                       (Z.to_nat (Z.of_nat i - 0)) ltac:(lia)) as [-> _].
           f_equal. lia.
        -- apply Z.ltb_ge in Ec.
           replace (Z.of_nat i <? addr - start + len regs) with false by lia.
           reflexivity.
      * rewrite py_slice_len; lia.
    + inversion H; subst rd' s'. exists c0. split; [exact Hl0|]. intros i Hi.
      destruct (start <=? addr) eqn:E1; cbn [orb].
      * apply Z.leb_le in E1. unfold placed.
        replace (addr - start <=? Z.of_nat i) with false by lia. reflexivity.
      * apply Z.leb_gt in E1. rewrite andb_false_iff in Es.
        destruct Es as [E|E]; [lia|]. now rewrite E.
Qed.

End Placement.

Lemma copy_entry_places_witness :
  exists c,
    load (DataLoc holding_registers 100)
      (snd (copy_entry holding_registers 101 1 11 [0] 100 wide_overlay_store))
      = Some c /\
    forall i, Z.of_nat i < 1 ->
      nth_error [2] i
        = if (101 <=? 100) || (101 <=? 100 + get_register_count (data_type c) - 1)
          then placed [0] (pack_value_to_registers (cached c) (data_type c))
                      (100 - 101) i
          else nth_error [0] i.
Proof.
  exact (copy_entry_places holding_registers 101 1 11 [0] 100 wide_overlay_store [2]
           (snd (copy_entry holding_registers 101 1 11 [0] 100 wide_overlay_store))
           ltac:(lia) eq_refl eq_refl).
Defined.
